(** * VoceChat chat-bot webhook: a shallow embedding of [src/pages/api/bot.ts]

    The development follows the source file top-down: JavaScript strings and
    the built-ins the handler relies on, the outbound transport
    ([fetchWithTimeout], [fetchWithRetry], [sendMessageToBot]), the response
    generator ([processMessage]), the drain loop ([processQueueParallel]) and
    the webhook [handler].  The theorems at the end state what the prose
    specification says about them. *)

From Stdlib Require Import List NArith ZArith Bool Arith Lia String Ascii.
From Stdlib Require DecimalString.
Import ListNotations.

Set Implicit Arguments.
Set Warnings "-register-all".

(** ** JavaScript strings

    A JavaScript string is a finite sequence of UTF-16 code units; nothing
    forces surrogates to be paired ([JSON.parse] happily produces a lone
    one from an escape sequence).  Code units are kept as [N]. *)

Module JS.

Definition jsstring := list N.

Local Open Scope N_scope.

Definition byte_of (c : ascii) : N := N_of_ascii c.

Fixpoint bytes_of (s : string) : list N :=
  match s with
  | EmptyString => []
  | String c r => byte_of c :: bytes_of r
  end.

Definition cont (b : N) : N := N.land b 0x3F.

(** The source file is UTF-8; a literal of it denotes the UTF-16 encoding of
    its characters.  [decode_utf8] turns the bytes of a literal into code
    units (a supplementary character becomes a surrogate pair). *)
Fixpoint decode_utf8 (bs : list N) : jsstring :=
  match bs with
  | [] => []
  | b0 :: r0 =>
    if b0 <? 0x80 then b0 :: decode_utf8 r0
    else if b0 <? 0xE0 then
      match r0 with
      | b1 :: r1 => (N.shiftl (N.land b0 0x1F) 6 + cont b1) :: decode_utf8 r1
      | [] => []
      end
    else if b0 <? 0xF0 then
      match r0 with
      | b1 :: b2 :: r2 =>
        (N.shiftl (N.land b0 0x0F) 12 + N.shiftl (cont b1) 6 + cont b2)
          :: decode_utf8 r2
      | _ => []
      end
    else
      match r0 with
      | b1 :: b2 :: b3 :: r3 =>
        let cp := N.shiftl (N.land b0 0x07) 18 + N.shiftl (cont b1) 12
                  + N.shiftl (cont b2) 6 + cont b3 in
        let v := cp - 0x10000 in
        (0xD800 + N.shiftr v 10) :: (0xDC00 + N.land v 0x3FF) :: decode_utf8 r3
      | _ => []
      end
  end.

(** [lit "..."] is the JavaScript value of a string literal of the source. *)
Definition lit (s : string) : jsstring := decode_utf8 (bytes_of s).

Definition unit_eqb (a b : N) : bool := a =? b.

Fixpoint string_eqb (a b : jsstring) : bool :=
  match a, b with
  | [], [] => true
  | x :: a', y :: b' => unit_eqb x y && string_eqb a' b'
  | _, _ => false
  end.

(** [isPrefix p s]: [s] begins with the code units of [p]. *)
Fixpoint isPrefix (p s : jsstring) : bool :=
  match p, s with
  | [], _ => true
  | x :: p', y :: s' => unit_eqb x y && isPrefix p' s'
  | _ :: _, [] => false
  end.

(** [String.prototype.startsWith] (one argument). *)
Definition startsWith (s p : jsstring) : bool := isPrefix p s.

(** [String.prototype.includes] (one argument): [p] occurs in [s] at some
    position. *)
Fixpoint includes (s p : jsstring) : bool :=
  isPrefix p s ||
  match s with
  | [] => false
  | _ :: r => includes r p
  end.

(** [String.prototype.toLowerCase].  The Basic Latin letters [A]-[Z] are
    mapped to [a]-[z].  Code units outside Basic Latin are left as they are:
    Unicode lower-casing of such a character never yields one of the code
    units of ['@chatgpt'] (the only non-ASCII characters with an ASCII letter
    in their lower-case form give [i] and [k]) and never yields the empty
    string, so the one use of the function in this file, the test
    [content.toLowerCase().includes('@chatgpt')], has the same value. *)
Definition lowerUnit (u : N) : N :=
  if (0x41 <=? u) && (u <=? 0x5A) then u + 0x20 else u.

Definition toLowerCase (s : jsstring) : jsstring := map lowerUnit s.

(** White space and line terminators of ECMAScript, as [trim] removes
    them. *)
Definition isWhiteSpace (u : N) : bool :=
  ((0x09 <=? u) && (u <=? 0x0D)) || (u =? 0x20) || (u =? 0xA0)
  || (u =? 0x1680) || ((0x2000 <=? u) && (u <=? 0x200A))
  || (u =? 0x2028) || (u =? 0x2029) || (u =? 0x202F) || (u =? 0x205F)
  || (u =? 0x3000) || (u =? 0xFEFF).

Fixpoint trimStart (s : jsstring) : jsstring :=
  match s with
  | [] => []
  | u :: r => if isWhiteSpace u then trimStart r else s
  end.

Definition trimEnd (s : jsstring) : jsstring := rev (trimStart (rev s)).

(** [String.prototype.trim]. *)
Definition trim (s : jsstring) : jsstring := trimEnd (trimStart s).

Definition isDigit (u : N) : bool := (0x30 <=? u) && (u <=? 0x39).

Definition startsWithDigit (s : jsstring) : bool :=
  match s with
  | u :: _ => isDigit u
  | [] => false
  end.

(** [s.replace(/@[0-9]+/g, "")]: every maximal match of an at-sign followed
    by one or more ASCII digits is deleted, scanning from the left.  The flag
    [inMatch] says that the scan is inside a match (the at-sign and at least
    the look-ahead digit belong to it), where further digits are consumed
    greedily. *)
Fixpoint removeMentions (inMatch : bool) (s : jsstring) : jsstring :=
  match s with
  | [] => []
  | u :: r =>
    if inMatch && isDigit u then removeMentions true r
    else if (u =? 0x40) && startsWithDigit r then removeMentions true r
    else u :: removeMentions false r
  end.

Definition replaceMentions (s : jsstring) : jsstring := removeMentions false s.

(** *** Exceptions

    A computation completes normally with a value or abruptly with a thrown
    error.  The errors are the ones this program can meet. *)
Inductive JSError :=
| TypeError                      (* property of null/undefined, call of a non-function *)
| URIError                       (* encodeURIComponent on a lone surrogate *)
| SyntaxError                    (* response body that is not JSON *)
| AbortError                     (* fetch aborted by its AbortController *)
| NetworkError (code : N)        (* any other rejection of fetch or of a body read *)
| Error (message : string).      (* new Error(message) *)

Inductive Completion (A : Type) :=
| Normal (a : A)
| Throw (e : JSError).

Arguments Throw {A} e.

Definition isNormal {A} (c : Completion A) : bool :=
  match c with
  | Normal _ => true
  | Throw _ => false
  end.

(** *** encodeURIComponent *)

Definition isAlnum (u : N) : bool :=
  ((0x41 <=? u) && (u <=? 0x5A)) || ((0x61 <=? u) && (u <=? 0x7A)) || isDigit u.

(** The characters [encodeURIComponent] leaves alone: letters, digits and
    [- _ . ! ~ * ' ( )]. *)
Definition uriUnreserved (u : N) : bool :=
  isAlnum u
  || existsb (N.eqb u) [0x2D; 0x5F; 0x2E; 0x21; 0x7E; 0x2A; 0x27; 0x28; 0x29].

Definition hexDigit (n : N) : N :=
  if n <? 10 then 0x30 + n else 0x41 + (n - 10).

Definition percent (b : N) : jsstring :=
  [0x25; hexDigit (N.shiftr b 4); hexDigit (N.land b 0xF)].

Definition utf8_of_codepoint (cp : N) : list N :=
  if cp <? 0x80 then [cp]
  else if cp <? 0x800 then
    [0xC0 + N.shiftr cp 6; 0x80 + cont cp]
  else if cp <? 0x10000 then
    [0xE0 + N.shiftr cp 12; 0x80 + cont (N.shiftr cp 6); 0x80 + cont cp]
  else
    [0xF0 + N.shiftr cp 18; 0x80 + cont (N.shiftr cp 12);
     0x80 + cont (N.shiftr cp 6); 0x80 + cont cp].

Definition escapeCodepoint (cp : N) : jsstring :=
  flat_map percent (utf8_of_codepoint cp).

Definition isHighSurrogate (u : N) : bool := (0xD800 <=? u) && (u <=? 0xDBFF).
Definition isLowSurrogate (u : N) : bool := (0xDC00 <=? u) && (u <=? 0xDFFF).

Definition prepend (s : jsstring) (c : Completion jsstring) : Completion jsstring :=
  match c with
  | Normal r => Normal (s ++ r)
  | Throw e => Throw e
  end.

(** ECMAScript's Encode: an unreserved unit is copied, any other code point
    is written as the percent-escapes of its UTF-8 bytes, and a surrogate
    that is not part of a pair makes the call throw a URIError. *)
Fixpoint encodeURIComponent (s : jsstring) : Completion jsstring :=
  match s with
  | [] => Normal []
  | u :: r =>
    if uriUnreserved u then prepend [u] (encodeURIComponent r)
    else if isLowSurrogate u then Throw URIError
    else if isHighSurrogate u then
      match r with
      | l :: r' =>
        if isLowSurrogate l then
          prepend
            (escapeCodepoint ((u - 0xD800) * 0x400 + (l - 0xDC00) + 0x10000))
            (encodeURIComponent r')
        else Throw URIError
      | [] => Throw URIError
      end
    else prepend (escapeCodepoint u) (encodeURIComponent r)
  end.

(** [wellFormed s]: every surrogate of [s] is half of a pair. *)
Fixpoint wellFormed (s : jsstring) : bool :=
  match s with
  | [] => true
  | u :: r =>
    if isLowSurrogate u then false
    else if isHighSurrogate u then
      match r with
      | l :: r' => isLowSurrogate l && wellFormed r'
      | [] => false
      end
    else wellFormed r
  end.

(** *** Base64, as [Buffer.prototype.toString('base64')] writes it *)

Definition b64char (i : N) : N :=
  if i <? 26 then 0x41 + i
  else if i <? 52 then 0x61 + (i - 26)
  else if i <? 62 then 0x30 + (i - 52)
  else if i =? 62 then 0x2B else 0x2F.

Fixpoint base64 (bs : list N) : jsstring :=
  match bs with
  | [] => []
  | [a] =>
    [b64char (N.shiftr a 2); b64char (N.shiftl (N.land a 3) 4); 0x3D; 0x3D]
  | [a; b] =>
    [b64char (N.shiftr a 2);
     b64char (N.shiftl (N.land a 3) 4 + N.shiftr b 4);
     b64char (N.shiftl (N.land b 15) 2); 0x3D]
  | a :: b :: c :: r =>
    [b64char (N.shiftr a 2);
     b64char (N.shiftl (N.land a 3) 4 + N.shiftr b 4);
     b64char (N.shiftl (N.land b 15) 2 + N.shiftr c 6);
     b64char (N.land c 63)] ++ base64 r
  end.

(** *** Values read from JSON

    What [JSON.parse] can return, plus [undefined] for a missing property. *)
Inductive value :=
| VUndefined
| VNull
| VBool (b : bool)
| VNum (n : Z)
| VStr (s : jsstring)
| VArr (xs : list value)
| VObj (fields : list (jsstring * value)).

(** ToBoolean.  Numbers matter here only through being zero or not; the
    model carries integers (a fraction behaves as any non-zero number). *)
Definition truthy (v : value) : bool :=
  match v with
  | VUndefined | VNull => false
  | VBool b => b
  | VNum n => negb (n =? 0)%Z
  | VStr s => match s with [] => false | _ => true end
  | VArr _ | VObj _ => true
  end.

(** A later duplicate of a key overwrites an earlier one in [JSON.parse]. *)
Fixpoint lookupLast (k : jsstring) (fs : list (jsstring * value)) : option value :=
  match fs with
  | [] => None
  | (k', v) :: r =>
    match lookupLast k r with
    | Some v' => Some v'
    | None => if string_eqb k k' then Some v else None
    end
  end.

Fixpoint digitsValue (acc : N) (s : jsstring) : option N :=
  match s with
  | [] => Some acc
  | u :: r => if isDigit u then digitsValue (acc * 10 + (u - 0x30)) r else None
  end.

(** A property name that is a canonical array index. *)
Definition parseIndex (s : jsstring) : option N :=
  match s with
  | [] => None
  | u :: r =>
    if (u =? 0x30) && negb (match r with [] => true | _ => false end) then None
    else digitsValue 0 s
  end.

Definition orUndefined (o : option value) : value :=
  match o with
  | Some v => v
  | None => VUndefined
  end.

(** [v[k]] (or [v.k]) for a property name [k] that no prototype defines
    (the program reads [choices], [0], [message] and [content]).  Reading a
    property of [null] or [undefined] throws. *)
Definition getProp (v : value) (k : jsstring) : Completion value :=
  match v with
  | VUndefined | VNull => Throw TypeError
  | VBool _ | VNum _ => Normal VUndefined
  | VStr s =>
    match parseIndex k with
    | Some i => Normal (match nth_error s (N.to_nat i) with
                        | Some u => VStr [u]
                        | None => VUndefined
                        end)
    | None => Normal VUndefined
    end
  | VArr xs =>
    match parseIndex k with
    | Some i => Normal (orUndefined (nth_error xs (N.to_nat i)))
    | None => Normal VUndefined
    end
  | VObj fs => Normal (orUndefined (lookupLast k fs))
  end.

(** [v.trim()]: only a string has the method. *)
Definition callTrim (v : value) : Completion jsstring :=
  match v with
  | VStr s => Normal (trim s)
  | _ => Throw TypeError
  end.

(** *** Number to string

    A Number is carried by its value, and the Numbers of this program (the
    identifiers of users, groups and messages) are integers.  Up to [2^53]
    every integer is a Number and [Number::toString] writes its decimal
    digits.  Above, a Number is [m * 2^e] with [2^52 <= m < 2^53];
    [Number::toString] writes the shortest digit string that reads back as
    the same Number (the nearest to it when there are several), filled up
    with zeros below [10^21] and in exponent notation from there on. *)

Definition decimal (z : Z) : jsstring :=
  lit (DecimalString.NilZero.string_of_int (Z.to_int z)).

Definition maxSafe : Z := 9007199254740992.       (* 2^53 *)

(** The Number an integer above [2^53] is read as: round to nearest, ties
    to even. *)
Definition nearestNumber (v : Z) : Z :=
  let u := (2 ^ (Z.log2 v - 52))%Z in
  let m := (v / u)%Z in
  let r := (v mod u)%Z in
  let half := (u / 2)%Z in
  let m' := if (r <? half)%Z then m
            else if (half <? r)%Z then (m + 1)%Z
            else if Z.even m then m else (m + 1)%Z in
  (m' * u)%Z.

(** The first value that is too large for a Number: [2^1024 - 2^970]
    rounds up to infinity. *)
Definition overflow : Z := (2 ^ 1024 - 2 ^ 970)%Z.

(** The integers that read back as the Number [v] lie between [lo] and
    [hi], bounds included when [incl].  [shortest] looks for the largest
    power of ten [10^p] with a multiple among them, and yields the multiple
    nearest to [v] (the one with the even quotient in a tie) together with
    the power. *)
Fixpoint shortest (v lo hi : Z) (incl : bool) (p : nat) : Z * Z :=
  match p with
  | O => (v, 1%Z)
  | S p' =>
    let u := (10 ^ Z.of_nat p)%Z in
    let inside c := if incl then ((lo <=? c) && (c <=? hi))%Z
                    else ((lo <? c) && (c <? hi))%Z in
    let down := (v / u * u)%Z in
    let up := if (v mod u =? 0)%Z then v else (down + u)%Z in
    if inside down && inside up then
      if (v - down <? up - v)%Z then (down, u)
      else if (up - v <? v - down)%Z then (up, u)
      else if Z.even (down / u) then (down, u) else (up, u)
    else if inside down then (down, u)
    else if inside up then (up, u)
    else shortest v lo hi incl p'
  end.

(** [Number::toString] for a Number [v] above [2^53]. *)
Definition largeToString (v : Z) : jsstring :=
  let e := (Z.log2 v - 52)%Z in
  let m := (v / 2 ^ e)%Z in
  let hi := (v + 2 ^ (e - 1))%Z in
  let lo := if (m =? 2 ^ 52)%Z then (v - 2 ^ (e - 2))%Z else (v - 2 ^ (e - 1))%Z in
  let (c, u) := shortest v lo hi (Z.even m) (Z.to_nat (Z.log2 hi / 3)) in
  let n := Z.of_nat (List.length (decimal c)) in
  if (n <=? 21)%Z then decimal c
  else
    match decimal (c / u) with
    | [] => []
    | d :: ds =>
      d :: match ds with [] => [] | _ => lit "." ++ ds end
        ++ lit "e+" ++ decimal (n - 1)
    end.

Definition positiveToString (v : Z) : jsstring :=
  if (v <=? maxSafe)%Z then decimal v
  else if (overflow <=? v)%Z then lit "Infinity"
  else largeToString (nearestNumber v).

(** Number to string, as a template literal does it. *)
Definition showZ (z : Z) : jsstring :=
  if (z <? 0)%Z then lit "-" ++ positiveToString (- z) else positiveToString z.

Definition showN (n : N) : string :=
  DecimalString.NilZero.string_of_uint (N.to_uint n).

End JS.

Import JS.

(** ** Data model *)

(** Modelled from the spec: the [Message] type of ['@/types/vocechat'], whose
    declaration is not part of the repository's source here.  An inbound
    event carries the sender id, the target (a user or a group), the message
    identifier, the content and optional properties: a mentions list and
    the attachment's content type.  The code tests the latter with [typeof],
    so it is kept as an untyped value. *)
Inductive Target :=
| TargetUid (uid : Z)
| TargetGid (gid : Z).

Record Properties := {
  props_content_type : option value;   (* None: no such key *)
  mentions : option (list Z)           (* None: no such key (or null) *)
}.

Record Detail := {
  content : jsstring;
  content_type : jsstring;
  properties : option Properties       (* None: null or undefined *)
}.

Record Message := {
  from_uid : Z;
  mid : Z;
  target : Target;
  detail : Detail
}.

(** Modelled from the spec: the bot identity of ['@/utils/app/const'].  The
    code compares it to numbers with [==] and splices it into a template
    literal; [id_number] is what [==] compares a number with (None when the
    constant does not convert to an integer) and [id_text] is what the
    template literal prints. *)
Record BotId := {
  id_number : option Z;
  id_text : jsstring
}.

(** The configuration the module reads: the constants imported from
    ['@/utils/app/const'] and the entries of [process.env]. *)
Record Config := {
  VOCECHAT_ORIGIN : jsstring;
  VOCECHAT_BOT_SECRET : jsstring;
  VOCECHAT_BOT_ID : BotId;
  env_DEFAULT_MODEL : option jsstring;
  env_OPENAI_API_HOST : option jsstring;
  env_OPENAI_API_KEY : option jsstring
}.

(** The body of the chat-completion request, before [JSON.stringify]. *)
Inductive UserContent :=
| TextContent (text : jsstring)
| ImageContent (text : jsstring) (image_url : jsstring).

Record ChatRequest := {
  model : jsstring;
  system_content : jsstring;
  user_content : UserContent;
  max_tokens : N;
  temperature : option N;
  stream : bool
}.

Inductive Body :=
| BodyText (text : jsstring)
| BodyJSON (requestBody : ChatRequest).

Record RequestInit := {
  method : option string;
  headers : list (string * jsstring);
  body : option Body
}.

(** A [Response]: the status line has arrived; reading the body is a second
    operation that can fail on its own. *)
Record Response := {
  status : N;
  json : Completion value;             (* what [resp.json()] settles to *)
  arrayBuffer : Completion (list N)    (* what [resp.arrayBuffer()] settles to *)
}.

(** ** Effects

    A task runs against a world: the network, a clock in milliseconds and
    the trace of what the task has done so far.  The network answers the
    [n]-th [fetch] of the task, for the request it is given, after some
    latency, by resolving or by rejecting.  (Every network operation is
    taken to settle; a call with a deadline is aborted when the answer
    would come too late.) *)
Record NetReply := {
  latency : N;
  settled : Completion Response
}.

Definition Network := nat -> jsstring -> RequestInit -> NetReply.

Inductive Event :=
| EvFetch (url : jsstring) (options : RequestInit)
| EvSleep (ms : N)
| EvLog (message : string).

Record World := {
  network : Network;
  now : N;
  fetched : nat;
  trace : list Event
}.

Definition M (A : Type) := World -> Completion A * World.

Definition ret {A} (a : A) : M A := fun w => (Normal a, w).

Definition throw {A} (e : JSError) : M A := fun w => (Throw e, w).

Definition bind {A B} (m : M A) (k : A -> M B) : M B :=
  fun w =>
    match m w with
    | (Normal a, w') => k a w'
    | (Throw e, w') => (Throw e, w')
    end.

(** [try { m } catch (e) { h e }] *)
Definition tryCatch {A} (m : M A) (h : JSError -> M A) : M A :=
  fun w =>
    match m w with
    | (Normal a, w') => (Normal a, w')
    | (Throw e, w') => h e w'
    end.

(** A promise that is already settled one way or the other. *)
Definition await {A} (c : Completion A) : M A := fun w => (c, w).

Declare Scope js_scope.
Delimit Scope js_scope with js.
Notation "x <- m ;; k" := (bind m (fun x => k))
  (at level 61, m at next level, right associativity) : js_scope.
Notation "m ;;; k" := (bind m (fun _ => k))
  (at level 61, right associativity) : js_scope.
Local Open Scope js_scope.

Definition emit (e : Event) : M unit :=
  fun w =>
    (Normal tt,
     {| network := network w; now := now w; fetched := fetched w;
        trace := trace w ++ [e] |}).

Definition advance (ms : N) (w : World) : World :=
  {| network := network w; now := (now w + ms)%N; fetched := fetched w;
     trace := trace w |}.

Definition Date_now : M N := fun w => (Normal (now w), w).

(** [fetch(url, options)]; [signal] is the delay after which the request's
    AbortController fires, when it has one. *)
Definition fetch (url : jsstring) (options : RequestInit) (signal : option N)
  : M Response :=
  fun w =>
    let reply := network w (fetched w) url options in
    let w1 := {| network := network w; now := now w;
                 fetched := S (fetched w);
                 trace := trace w ++ [EvFetch url options] |} in
    match signal with
    | Some timeout =>
      if (latency reply <? timeout)%N
      then (settled reply, advance (latency reply) w1)
      else (Throw AbortError, advance timeout w1)
    | None => (settled reply, advance (latency reply) w1)
    end.

(** [await new Promise(res => setTimeout(res, ms))] *)
Definition sleep (ms : N) : M unit :=
  fun w =>
    (Normal tt,
     {| network := network w; now := (now w + ms)%N; fetched := fetched w;
        trace := trace w ++ [EvSleep ms] |}).

(** ** The program *)

(** [log]: the line goes to the console; the time stamp and the serialised
    data are not kept. *)
Definition log (message : string) : M unit := emit (EvLog message).

Definition measureTime {T} (name : string) (fn : M T) : M T :=
  start <- Date_now ;;
  result <- fn ;;
  stop <- Date_now ;;
  let duration := (stop - start)%N in
  log (name ++ " took " ++ showN duration ++ "ms") ;;;
  ret result.

Definition fetchWithTimeout (url : jsstring) (options : RequestInit) (timeout : N)
  : M Response :=
  tryCatch
    (response <- fetch url options (Some timeout) ;;
     ret response)
    (fun error => throw error).

Definition defaultTimeout : N := 30000.

(** The [for] loop of [fetchWithRetry]: [i] is the loop variable and
    [todo] the number of iterations left, [maxRetries - i].  The test
    [i === maxRetries - 1] is written [S i = maxRetries]. *)
Fixpoint fetchWithRetry_from (url : jsstring) (options : RequestInit)
    (maxRetries : nat) (todo : nat) (i : nat) : M Response :=
  match todo with
  | O => throw (Error "Max retries reached")
  | S todo' =>
    tryCatch
      (fetchWithTimeout url options defaultTimeout)
      (fun error =>
         if Nat.eqb (S i) maxRetries then throw error
         else
           sleep (1000 * 2 ^ N.of_nat i) ;;;
           fetchWithRetry_from url options maxRetries todo' (S i))
  end.

Definition fetchWithRetry (url : jsstring) (options : RequestInit)
    (maxRetries : nat) : M Response :=
  fetchWithRetry_from url options maxRetries maxRetries 0.

Definition defaultMaxRetries : nat := 3.

Section Bot.

Variable cfg : Config.

Definition sendOptions (message : jsstring) : RequestInit :=
  {| method := Some "POST"%string;
     headers := [("content-type"%string, lit "text/markdown");
                 ("x-api-key"%string, VOCECHAT_BOT_SECRET cfg)];
     body := Some (BodyText message) |}.

Definition sendMessageToBot (url : jsstring) (message : jsstring) : M unit :=
  tryCatch
    (resp <- fetchWithRetry url (sendOptions message) defaultMaxRetries ;;
     jsonResp <- await (json resp) ;;
     log "bot: send successfully")
    (fun error =>
       log "bot: send failed" ;;;
       throw error).

Definition processMessageContent (content : jsstring) : jsstring :=
  trim (replaceMentions content).

Definition noOptions : RequestInit :=
  {| method := None; headers := []; body := None |}.

Definition getImageBase64 (imageUrl : jsstring) (contentType : jsstring)
  : M jsstring :=
  response <- fetch imageUrl noOptions None ;;
  arrayBuffer <- await (arrayBuffer response) ;;
  ret (lit "data:" ++ contentType ++ lit ";base64," ++ base64 arrayBuffer).

Definition isImageMessage (message : Message) : bool :=
  string_eqb (content_type (detail message)) (lit "vocechat/file") &&
  match properties (detail message) with
  | None => false
  | Some props =>
    match props_content_type props with
    | None => false
    | Some (VStr ct) => startsWith ct (lit "image/")
    | Some _ => false
    end
  end.

(** [(message.detail.properties as any).content_type] in the branch where
    [isImageMessage] has found a string there. *)
Definition propsContentType (message : Message) : jsstring :=
  match properties (detail message) with
  | Some props =>
    match props_content_type props with
    | Some (VStr ct) => ct
    | _ => []
    end
  | None => []
  end.

(** [x || d] for an entry of [process.env]: a missing or empty entry gives
    the default. *)
Definition orElse (x : option jsstring) (d : jsstring) : jsstring :=
  match x with
  | Some (u :: r) => u :: r
  | _ => d
  end.

(** A missing entry prints as [undefined] in a template literal. *)
Definition printEnv (x : option jsstring) : jsstring :=
  match x with
  | Some s => s
  | None => lit "undefined"
  end.

Definition imageApology : jsstring :=
  lit "抱歉，我在处理图片时遇到了问题。请稍后再试或联系支持人员。".

Definition textApology : jsstring :=
  lit "抱歉，我现在无法处理您的请求。请稍后再试。".

Definition imageRequest (IMAGE_MODEL imageBase64 : jsstring) : ChatRequest :=
  {| max_tokens := 4096;
     model := IMAGE_MODEL;
     system_content :=
       lit "You are GPT, a large language model trained by 探索分享. 回答全部用markdown格式。";
     user_content :=
       ImageContent (lit "这个图片描述了什么？请详细分析。") imageBase64;
     temperature := None;
     stream := false |}.

Definition textRequest (TEXT_MODEL prompt : jsstring) : ChatRequest :=
  {| model := TEXT_MODEL;
     system_content :=
       lit "You are an AI assistant. Answer the user's question concisely and accurately.";
     user_content := TextContent prompt;
     max_tokens := 2000;
     temperature := Some 1%N;
     stream := false |}.

Definition completionOptions (requestBody : ChatRequest) : RequestInit :=
  {| headers := [("Content-Type"%string, lit "application/json");
                 ("Authorization"%string,
                  lit "Bearer " ++ printEnv (env_OPENAI_API_KEY cfg))];
     method := Some "POST"%string;
     body := Some (BodyJSON requestBody) |}.

Definition consoleError (message : string) : M unit := emit (EvLog message).

(** [processMessage].  The first phase builds the request body, or returns
    early from the [catch] of the image branch ([inr]); the second phase
    calls the completion endpoint inside the second [try]. *)
Definition processMessage (message : Message) : M jsstring :=
  let TEXT_MODEL := orElse (env_DEFAULT_MODEL cfg) (lit "gpt-3.5-turbo") in
  let IMAGE_MODEL :=
    orElse (env_DEFAULT_MODEL cfg) (lit "claude-3-5-sonnet-20240620") in
  let API_HOST := orElse (env_OPENAI_API_HOST cfg) (lit "https://api.openai.com") in
  prepared <-
    (if isImageMessage message then
       let filePath := content (detail message) in
       encoded <- await (encodeURIComponent filePath) ;;
       let imageUrl :=
         VOCECHAT_ORIGIN cfg ++ lit "/api/resource/file?file_path=" ++ encoded in
       let contentType := propsContentType message in
       tryCatch
         (imageBase64 <- getImageBase64 imageUrl contentType ;;
          ret (inl (imageRequest IMAGE_MODEL imageBase64)))
         (fun error =>
            log "Error fetching or converting image" ;;;
            ret (inr imageApology))
     else
       let prompt := processMessageContent (content (detail message)) in
       ret (inl (textRequest TEXT_MODEL prompt))) ;;
  match prepared with
  | inr reply => ret reply
  | inl requestBody =>
    tryCatch
      (aiResp <- measureTime "AI API call"
                   (fetchWithRetry (API_HOST ++ lit "/v1/chat/completions")
                      (completionOptions requestBody) defaultMaxRetries) ;;
       aiData <- await (json aiResp) ;;
       choices <- await (getProp aiData (lit "choices")) ;;
       if negb (truthy choices)
       then throw (Error "Unexpected API response format")
       else
         choice0 <- await (getProp choices (lit "0")) ;;
         if negb (truthy choice0)
         then throw (Error "Unexpected API response format")
         else
           msg <- await (getProp choice0 (lit "message")) ;;
           if negb (truthy msg)
           then throw (Error "Unexpected API response format")
           else
             text <- await (getProp msg (lit "content")) ;;
             await (callTrim text))
      (fun error =>
         log "Error calling OpenAI API" ;;;
         consoleError "Full error object:" ;;;
         if isImageMessage message then ret imageApology else ret textApology)
  end.

(** ** The queue and the drain loop *)

Definition replyUrl (message : Message) : jsstring :=
  VOCECHAT_ORIGIN cfg ++ lit "/api/bot/reply/" ++ showZ (mid message).

Definition errorMessage : jsstring :=
  lit "抱歉，处理您的消息时出现了问题。请稍后再试。".

(** The function that [processQueueParallel] maps over a batch. *)
Definition processTask (message : Message) : M unit :=
  tryCatch
    (response <- processMessage message ;;
     let url := replyUrl message in
     sendMessageToBot url response)
    (fun error =>
       log "Error processing message" ;;;
       let url := replyUrl message in
       tryCatch
         (sendMessageToBot url errorMessage)
         (fun sendError => log "Error sending error message to user")).

(** The handle of a spawned drain loop, as [processingPromise] stores it. *)
Inductive Promise := DrainPromise.

(** A drain loop that is suspended at [await Promise.all(...)]: its
    parameter and the batch it is waiting for. *)
Record Loop := {
  maxConcurrent : nat;
  batch : list Message
}.

(** The module's state: its two [let] variables and the drain loops the
    runtime holds suspended.  JavaScript runs each piece of code between two
    [await]s to completion, so the state is observed between such pieces. *)
Record State := {
  messageQueue : list Message;
  processingPromise : option Promise;
  loops : list Loop
}.

Definition initial : State :=
  {| messageQueue := []; processingPromise := None; loops := [] |}.

(** What a piece of code does that an observer can see. *)
Inductive Obs :=
| ObsPush (message : Message)               (* messageQueue.push *)
| ObsBatch (batch : list Message)           (* messageQueue.splice *)
| ObsTask (message : Message) (result : Completion unit) (events : list Event)
| ObsExit                                   (* the loop returns *)
| ObsCrash                                  (* the loop's promise rejects *)
| ObsResponse (status : N) (text : jsstring).

(** [processQueueParallel] from the test of its [while] to the next
    [await] (or to its end).  A call starts here and the loop comes back
    here when the batch it awaited has settled. *)
Definition processQueueParallel (maxConcurrent : nat) (s : State)
  : State * list Obs :=
  match messageQueue s with
  | [] =>
    ({| messageQueue := messageQueue s; processingPromise := None;
        loops := loops s |}, [ObsExit])
  | _ :: _ =>
    let batch := firstn maxConcurrent (messageQueue s) in
    ({| messageQueue := skipn maxConcurrent (messageQueue s);
        processingPromise := processingPromise s;
        loops := loops s ++ [{| maxConcurrent := maxConcurrent;
                                batch := batch |}] |},
     [ObsBatch batch])
  end.

Definition defaultMaxConcurrent : nat := 3.

Definition startWorld (net : Network) : World :=
  {| network := net; now := 0; fetched := 0; trace := [] |}.

(** The tasks of a batch run concurrently; each one is sequential and talks
    to the network on its own, so task number [j] is run against the
    network behaviour [nets j] it meets, whatever the interleaving. *)
Fixpoint runBatch (batch : list Message) (nets : nat -> Network) (j : nat)
  : list Obs :=
  match batch with
  | [] => []
  | message :: rest =>
    let (result, w) := processTask message (startWorld (nets j)) in
    ObsTask message result (trace w) :: runBatch rest nets (S j)
  end.

Definition fulfilled (o : Obs) : bool :=
  match o with
  | ObsTask _ (Throw _) _ => false
  | _ => true
  end.

Definition removeAt {A} (k : nat) (l : list A) : list A :=
  firstn k l ++ skipn (S k) l.

(** The batch awaited by loop number [k] settles.  When every task has
    fulfilled its promise the loop goes on; a rejected one would reject
    [Promise.all], the [await] would throw and the loop would end without
    reaching its last line. *)
Definition settle (k : nat) (nets : nat -> Network) (s : State)
  : State * list Obs :=
  match nth_error (loops s) k with
  | None => (s, [])
  | Some lp =>
    let results := runBatch (batch lp) nets 0 in
    let s' := {| messageQueue := messageQueue s;
                 processingPromise := processingPromise s;
                 loops := removeAt k (loops s) |} in
    if forallb fulfilled results then
      let (s'', obs) := processQueueParallel (maxConcurrent lp) s' in
      (s'', results ++ obs)
    else (s', results ++ [ObsCrash])
  end.

(** ** The webhook handler *)

(** A request whose body, when it can be read, has the shape of a
    [Message].  The handler on any other body is followed by
    [handlerValue], further down. *)
Record HttpRequest := {
  req_method : string;
  req_json : Completion Message   (* [await req.json() as Message] *)
}.

(** [n == VOCECHAT_BOT_ID] for a number [n]. *)
Definition looseEqBot (n : Z) : bool :=
  match id_number (VOCECHAT_BOT_ID cfg) with
  | Some b => (n =? b)%Z
  | None => false
  end.

Definition inGroup (t : Target) : bool :=
  match t with
  | TargetGid _ => true
  | TargetUid _ => false
  end.

Definition mentionsOf (data : Message) : list Z :=
  match properties (detail data) with
  | Some props =>
    match mentions props with
    | Some l => l
    | None => []
    end
  | None => []
  end.

Definition mentionedAtGroup (data : Message) : bool :=
  existsb looseEqBot (mentionsOf data)
  || includes (content (detail data))
       (lit "@" ++ id_text (VOCECHAT_BOT_ID cfg))
  || includes (toLowerCase (content (detail data))) (lit "@chatgpt").

(** [handler], from the moment [req.json()] has settled: what follows runs
    without an [await].  Its log lines are not observed. *)
Definition handler (req : HttpRequest) (s : State) : State * list Obs :=
  if String.eqb (req_method req) "POST" then
    match req_json req with
    | Throw error => (s, [ObsResponse 500 (lit "Error processing request")])
    | Normal data =>
      if looseEqBot (from_uid data) then
        (s, [ObsResponse 200 (lit "ignore sent by bot self")])
      else if inGroup (target data) && negb (mentionedAtGroup data) then
        (s, [ObsResponse 200 (lit "ignore not mention at group")])
      else
        let s1 := {| messageQueue := messageQueue s ++ [data];
                     processingPromise := processingPromise s;
                     loops := loops s |} in
        let (s2, obs) :=
          match processingPromise s1 with
          | None =>
            let (s', obs) := processQueueParallel defaultMaxConcurrent s1 in
            ({| messageQueue := messageQueue s';
                processingPromise := Some DrainPromise;
                loops := loops s' |}, obs)
          | Some _ => (s1, [])
          end in
        (s2, ObsPush data :: obs ++ [ObsResponse 200 (lit "Message queued")])
    end
  else if String.eqb (req_method req) "GET" then
    (s, [ObsResponse 200 (lit "GET: bot resp")])
  else
    (s, [ObsResponse 405 (lit (req_method req ++ ": bot resp"))]).

(** ** Runs of the system *)

Inductive Input :=
| Webhook (req : HttpRequest)
| Settle (k : nat) (nets : nat -> Network).

Definition step (s : State) (i : Input) : State * list Obs :=
  match i with
  | Webhook req => handler req s
  | Settle k nets => settle k nets s
  end.

Fixpoint run (s : State) (inputs : list Input) : State * list Obs :=
  match inputs with
  | [] => (s, [])
  | i :: rest =>
    let (s1, o1) := step s i in
    let (s2, o2) := run s1 rest in
    (s2, o1 ++ o2)
  end.

End Bot.

(** ** Observing a task

    Functions that read a world or a trace; the properties below are stated
    with them. *)

Section Observations.

Variables (url : jsstring) (options : RequestInit).

(** How attempt number [j] (counted from the state of the world [w]) of a
    call with the default deadline ends: with the network's answer when it
    comes in time, with the abort otherwise. *)
Definition attempt (w : World) (j : nat) : Completion Response :=
  let reply := network w (fetched w + j) url options in
  if (latency reply <? defaultTimeout)%N then settled reply else Throw AbortError.

(** The events of [k] failed attempts followed by one more attempt, when
    the first of them is iteration [i] of the loop. *)
Fixpoint backoff (i k : nat) : list Event :=
  match k with
  | O => [EvFetch url options]
  | S k' =>
    EvFetch url options :: EvSleep (1000 * 2 ^ N.of_nat i) :: backoff (S i) k'
  end.

(** The world right after one attempt with the default deadline. *)
Definition afterFetch (w : World) : World :=
  let reply := network w (fetched w) url options in
  {| network := network w;
     now := (now w + (if (latency reply <? defaultTimeout)%N
                      then latency reply else defaultTimeout))%N;
     fetched := S (fetched w);
     trace := trace w ++ [EvFetch url options] |}.

End Observations.

(** For each attempt of a trace, the time the task slept since the previous
    attempt (since the start, for the first). *)
Fixpoint delaysBefore (slept : N) (t : list Event) : list N :=
  match t with
  | [] => []
  | EvFetch _ _ :: r => slept :: delaysBefore 0 r
  | EvSleep ms :: r => delaysBefore (slept + ms) r
  | EvLog _ :: r => delaysBefore slept r
  end.

Definition sleeps (t : list Event) : list N :=
  flat_map (fun e => match e with EvSleep ms => [ms] | _ => [] end) t.

Definition isFetch (e : Event) : bool :=
  match e with
  | EvFetch _ _ => true
  | _ => false
  end.

Definition attempts (t : list Event) : nat := List.length (filter isFetch t).

(** The events a computation adds to the trace of the world it starts in. *)
Definition newEvents (w w' : World) : list Event :=
  skipn (List.length (trace w)) (trace w').

(** A computation [appends P] when all it does to the world is to add
    events that satisfy [P] to the trace (and let the clock and the fetch
    counter run). *)
Definition appends {A} (P : Event -> Prop) (m : M A) : Prop :=
  forall w res w',
    m w = (res, w') ->
    network w' = network w /\
    exists evs, trace w' = trace w ++ evs /\ Forall P evs.

(** The two lines [sendMessageToBot] writes when it is done. *)
Definition isSendLog (e : Event) : bool :=
  match e with
  | EvLog message =>
    String.eqb message "bot: send successfully"
    || String.eqb message "bot: send failed"
  | _ => false
  end.

Definition quiet (e : Event) : Prop := isSendLog e = false.

(** The line the task writes when even the fixed message could not be
    delivered. *)
Definition isFailureLine (e : Event) : bool :=
  match e with
  | EvLog message => String.eqb message "Error sending error message to user"
  | _ => false
  end.

Definition failureLogged (t : list Event) : bool := existsb isFailureLine t.

(** An event of the generator: neither of the dispatcher's lines nor the
    task's. *)
Definition calm (e : Event) : Prop := isSendLog e = false /\ isFailureLine e = false.

Definition sendLine (ok : bool) : string :=
  if ok then "bot: send successfully" else "bot: send failed".

(** A delivery read off a trace: the last request made before
    [sendMessageToBot] wrote its line, and whether it reported success. *)
Definition Delivery : Type := option (jsstring * RequestInit) * bool.

Fixpoint deliveries (last : option (jsstring * RequestInit)) (t : list Event)
  : list Delivery :=
  match t with
  | [] => []
  | EvFetch u o :: r => deliveries (Some (u, o)) r
  | EvSleep _ :: r => deliveries last r
  | EvLog message :: r =>
    if String.eqb message "bot: send successfully"
    then (last, true) :: deliveries last r
    else if String.eqb message "bot: send failed"
         then (last, false) :: deliveries last r
         else deliveries last r
  end.

Section Delivered.

Variable cfg : Config.

(** The delivery of [text] as a reply to [message], with its outcome. *)
Definition delivery (message : Message) (text : jsstring) (ok : bool) : Delivery :=
  (Some (replyUrl cfg message, sendOptions cfg text), ok).

Definition apologyFor (message : Message) : jsstring :=
  if isImageMessage message then imageApology else textApology.

(** The events of one run of [sendMessageToBot] with [text] as the reply to
    [message]: [k] attempts that fail, one more attempt, and the line that
    tells how the run went. *)
Definition sendEvents (message : Message) (text : jsstring) (k : nat) (ok : bool)
  : list Event :=
  backoff (replyUrl cfg message) (sendOptions cfg text) 0 k ++ [EvLog (sendLine ok)].

(** The events of the [catch] branch of a task: its line, one run of
    [sendMessageToBot] with the fixed message and, when that run fails, the
    line of the inner [catch]. *)
Definition fallbackEvents (message : Message) (k : nat) (ok : bool) : list Event :=
  [EvLog "Error processing message"]
  ++ sendEvents message errorMessage k ok
  ++ (if ok then [] else [EvLog "Error sending error message to user"]).

End Delivered.

(** The chat-completion requests of a trace. *)
Definition chatRequests (t : list Event) : list ChatRequest :=
  flat_map (fun e => match e with
                     | EvFetch _ {| body := Some (BodyJSON rb) |} => [rb]
                     | _ => []
                     end) t.

(** What a run has observed. *)
Definition pushes (obs : list Obs) : list Message :=
  flat_map (fun o => match o with ObsPush m => [m] | _ => [] end) obs.

Definition batches (obs : list Obs) : list (list Message) :=
  flat_map (fun o => match o with ObsBatch b => [b] | _ => [] end) obs.

Definition removed (obs : list Obs) : list Message := List.concat (batches obs).

Definition tasks (obs : list Obs) : list (Message * list Event) :=
  flat_map (fun o => match o with ObsTask m _ t => [(m, t)] | _ => [] end) obs.

Definition responses (obs : list Obs) : list (N * jsstring) :=
  flat_map (fun o => match o with ObsResponse st t => [(st, t)] | _ => [] end) obs.

Definition exits (obs : list Obs) : nat :=
  List.length (filter (fun o => match o with ObsExit => true | _ => false end) obs).

(** The number of times [sendMessageToBot] ran in the tasks of a run. *)
Definition deliveryCount (obs : list Obs) : nat :=
  list_sum (map (fun mt => List.length (deliveries None (snd mt))) (tasks obs)).

(** The drain flag and the suspended loops agree: when the flag is clear
    nothing is waiting and no loop exists; when it is set exactly one loop
    exists, the one the handler spawned with the default parameter. *)
Definition owned (s : State) : Prop :=
  match processingPromise s with
  | None => messageQueue s = [] /\ loops s = []
  | Some _ =>
    exists lp, loops s = [lp] /\ maxConcurrent lp = defaultMaxConcurrent
  end.

(** A computation [begins e] when the first thing it adds to the trace is
    the event [e]. *)
Definition begins {A} (e : Event) (m : M A) : Prop :=
  forall w res w',
    m w = (res, w') -> exists evs, trace w' = trace w ++ e :: evs.

Section Requests.

Variable cfg : Config.

Definition completionUrl : jsstring :=
  orElse (env_OPENAI_API_HOST cfg) (lit "https://api.openai.com")
  ++ lit "/v1/chat/completions".

Definition textModel : jsstring :=
  orElse (env_DEFAULT_MODEL cfg) (lit "gpt-3.5-turbo").

(** The request that carries [prompt] as the user's text. *)
Definition textCompletion (prompt : jsstring) : Event :=
  EvFetch completionUrl (completionOptions cfg (textRequest textModel prompt)).

(** The request for the attachment stored under the encoded path. *)
Definition resourceFetch (encoded : jsstring) : Event :=
  EvFetch (VOCECHAT_ORIGIN cfg ++ lit "/api/resource/file?file_path=" ++ encoded)
          noOptions.

(** An event that, if it is a request, is the text completion request for
    [prompt]. *)
Definition asksText (prompt : jsstring) (e : Event) : Prop :=
  forall u o, e = EvFetch u o -> e = textCompletion prompt.

End Requests.

(** ** Concrete inputs

    Small worlds and messages on which the definitions are evaluated. *)

Definition okResponse (st : N) (v : value) : Response :=
  {| status := st; json := Normal v; arrayBuffer := Normal [] |}.

Definition resolves (r : Response) : NetReply :=
  {| latency := 120; settled := Normal r |}.

Definition rejects (code : N) : NetReply :=
  {| latency := 15; settled := Throw (NetworkError code) |}.

(** A network that answers the successive fetches of a task from a script,
    and from [other] once the script is used up. *)
Definition scripted (script : list NetReply) (other : NetReply) : Network :=
  fun n _ _ => nth n script other.

Definition exampleUrl : jsstring := lit "https://chat.example/api/bot/reply/7".

Definition exampleOptions : RequestInit :=
  {| method := Some "POST"%string; headers := []; body := Some (BodyText (lit "hi")) |}.

(** First attempt rejected, second answered. *)
Definition failOnce : World :=
  startWorld (scripted [rejects 1; resolves (okResponse 200 VNull)] (rejects 9)).

(** Two attempts rejected, the third answered. *)
Definition failTwice : World :=
  startWorld
    (scripted [rejects 1; rejects 2; resolves (okResponse 200 VNull)] (rejects 9)).

(** Every attempt rejected, each with an error of its own. *)
Definition alwaysDown : World :=
  startWorld (fun n _ _ => rejects (N.of_nat n)).

(** The server answers at once with a 503 whose body is JSON. *)
Definition unavailable : World :=
  startWorld (fun _ _ _ => resolves (okResponse 503 (VObj []))).

Definition exampleCfg : Config :=
  {| VOCECHAT_ORIGIN := lit "https://chat.example";
     VOCECHAT_BOT_SECRET := lit "s3cr3t-key";
     VOCECHAT_BOT_ID := {| id_number := Some 2%Z; id_text := lit "2" |};
     env_DEFAULT_MODEL := None;
     env_OPENAI_API_HOST := None;
     env_OPENAI_API_KEY := Some (lit "sk-test") |}.

Definition textDetail (text : jsstring) : Detail :=
  {| content := text; content_type := lit "text/plain"; properties := None |}.

(** A direct text message from user 7. *)
Definition directMessage (id : Z) (text : string) : Message :=
  {| from_uid := 7; mid := id; target := TargetUid 2;
     detail := textDetail (lit text) |}.

(** A message to group 5 from [sender]. *)
Definition groupMessage (sender id : Z) (text : string) : Message :=
  {| from_uid := sender; mid := id; target := TargetGid 5;
     detail := textDetail (lit text) |}.

Definition fileDetail (path : jsstring) (mime : string) : Detail :=
  {| content := path; content_type := lit "vocechat/file";
     properties := Some {| props_content_type := Some (VStr (lit mime));
                           mentions := None |} |}.

(** An uploaded file, sent directly. *)
Definition fileMessage (id : Z) (path : jsstring) (mime : string) : Message :=
  {| from_uid := 7; mid := id; target := TargetUid 2;
     detail := fileDetail path mime |}.

(** An image whose path holds a lone high surrogate, as the JSON text
    ["\ud800"] parses to. *)
Definition brokenPathImage : Message := fileMessage 11 [0xD800%N] "image/png".

(** A PDF, sent directly; its path carries an at-sign token. *)
Definition pdfMessage : Message :=
  fileMessage 12 (lit " 2024/7/report@2024.pdf ") "application/pdf".

(** A PNG, sent directly. *)
Definition pngMessage : Message := fileMessage 13 (lit "2024/7/cat.png") "image/png".

(** The completion endpoint answers with JSON of the wrong shape. *)
Definition malformed : Network :=
  fun _ _ _ => resolves (okResponse 200 (VObj [(lit "error", VStr (lit "overloaded"))])).

Definition post (data : Message) : HttpRequest :=
  {| req_method := "POST"; req_json := Normal data |}.

Definition chatAnswer (text : string) : value :=
  VObj [(lit "choices",
         VArr [VObj [(lit "message", VObj [(lit "content", VStr (lit text))])]])].

(** Every request is answered; the completion endpoint says hello. *)
Definition healthy : Network :=
  fun _ _ options =>
    match body options with
    | Some (BodyJSON _) => resolves (okResponse 200 (chatAnswer " Hello! "))
    | _ => resolves (okResponse 200 (VObj []))
    end.

(** Nothing can be reached. *)
Definition down : Network := fun n _ _ => rejects (N.of_nat n).

Definition m1 : Message := directMessage 101 "one".
Definition m2 : Message := directMessage 102 "two".
Definition m3 : Message := directMessage 103 "three".
Definition m4 : Message := directMessage 104 "four".
Definition m5 : Message := directMessage 105 "five".

(** Three events arrive one after the other, then the loop is left to run
    until it returns. *)
Definition threeThenDrain : list Input :=
  [Webhook (post m1); Webhook (post m2); Webhook (post m3);
   Settle 0 (fun _ => healthy); Settle 0 (fun _ => down)].

(** Five messages are waiting when a loop with [maxConcurrent = 3] comes to
    the top of its [while]. *)
Definition fiveWaiting : State :=
  {| messageQueue := [m1; m2; m3; m4; m5];
     processingPromise := Some DrainPromise;
     loops := [] |}.

(** The completion endpoint answers, the chat server cannot be reached. *)
Definition replyDown : Network :=
  fun n _ options =>
    match body options with
    | Some (BodyJSON _) => resolves (okResponse 200 (chatAnswer " Hello! "))
    | _ => rejects (N.of_nat n)
    end.

(** One message is in flight; its batch is about to settle. *)
Definition oneInFlight : State :=
  {| messageQueue := [m2];
     processingPromise := Some DrainPromise;
     loops := [{| maxConcurrent := 3; batch := [m1] |}] |}.

(** The shape of a task's deliveries: one, or a failed one followed by a
    second. *)
Definition oneOrTwo (ds : list Delivery) : Prop :=
  match ds with
  | [(_, _)] => True
  | [(_, false); (_, _)] => True
  | _ => False
  end.

(** The bot is named by a mention, by its inline id or by its alias. *)
Definition mentioned (cfg : Config) (data : Message) : Prop :=
  (exists m, In m (mentionsOf data) /\ looseEqBot cfg m = true) \/
  includes (content (detail data)) (lit "@" ++ id_text (VOCECHAT_BOT_ID cfg)) = true \/
  includes (toLowerCase (content (detail data))) (lit "@chatgpt") = true.

(** ** Further observations *)

(** No at-sign of [s] is directly followed by a digit: [s] holds no match of
    [/@[0-9]+/]. *)
Fixpoint noMention (s : jsstring) : bool :=
  match s with
  | [] => true
  | u :: r => negb ((u =? 0x40)%N && startsWithDigit r) && noMention r
  end.

(** The first, resp. last, code unit of [s], if any, is not white space. *)
Definition noLeadingSpace (s : jsstring) : bool :=
  match s with
  | [] => true
  | u :: _ => negb (isWhiteSpace u)
  end.

Definition noTrailingSpace (s : jsstring) : bool := noLeadingSpace (rev s).

(** A code unit that can stand in a URL query value unescaped, or is part
    of a percent-escape. *)
Definition urlSafe (u : N) : bool := uriUnreserved u || (u =? 0x25)%N.

(** A code unit is a 16-bit number. *)
Definition validUnit (u : N) : Prop := (u < 65536)%N.

(** The longest a run of the retry loop can take from iteration [i] with
    [todo] iterations left: each attempt up to the deadline, each but the
    last followed by its back-off sleep. *)
Fixpoint budget (i todo : nat) : N :=
  match todo with
  | O => 0
  | S t =>
    defaultTimeout
    + match t with
      | O => 0
      | S _ => 1000 * 2 ^ N.of_nat i + budget (S i) t
      end
  end%N.

(** [aiData.choices[0].message.content], when every step of the path is
    there and the content is a string. *)
Definition replyText (aiData : value) : option jsstring :=
  match getProp aiData (lit "choices") with
  | Normal choices =>
    if truthy choices then
      match getProp choices (lit "0") with
      | Normal choice0 =>
        if truthy choice0 then
          match getProp choice0 (lit "message") with
          | Normal msg =>
            if truthy msg then
              match getProp msg (lit "content") with
              | Normal (VStr text) => Some text
              | _ => None
              end
            else None
          | Throw _ => None
          end
        else None
      | Throw _ => None
      end
    else None
  | Throw _ => None
  end.

Definition imageModel (cfg : Config) : jsstring :=
  orElse (env_DEFAULT_MODEL cfg) (lit "claude-3-5-sonnet-20240620").

(** The resource URL of an attachment, from its encoded path. *)
Definition resourceUrl (cfg : Config) (encoded : jsstring) : jsstring :=
  VOCECHAT_ORIGIN cfg ++ lit "/api/resource/file?file_path=" ++ encoded.

(** The completion request for an image given as a data URL. *)
Definition imageCompletion (cfg : Config) (dataUrl : jsstring) : Event :=
  EvFetch (completionUrl cfg)
          (completionOptions cfg (imageRequest (imageModel cfg) dataUrl)).

(** A computation [spends n] when it makes at most [n] requests. *)
Definition spends {A} (n : nat) (m : M A) : Prop :=
  forall w res w',
    m w = (res, w') ->
    exists evs, trace w' = trace w ++ evs /\ attempts evs <= n.

(** The batch of every suspended loop holds between one and
    [defaultMaxConcurrent] messages. *)
Definition capped (s : State) : Prop :=
  Forall (fun lp => 1 <= List.length (batch lp) <= defaultMaxConcurrent) (loops s).

(** The number of messages whose tasks are in flight. *)
Definition inFlight (s : State) : nat :=
  list_sum (map (fun lp => List.length (batch lp)) (loops s)).

(** The messages in flight, and the messages whose task has run. *)
Definition flying (s : State) : list Message := List.concat (map batch (loops s)).

Definition processed (obs : list Obs) : list Message := map fst (tasks obs).

(** An input that lets the batch of the first loop settle. *)
Definition isSettle (i : Input) : Prop := exists nets, i = Settle 0 nets.

(** A message that passes the handler's filters. *)
Definition admissible (cfg : Config) (data : Message) : Prop :=
  looseEqBot cfg (from_uid data) = false /\
  (inGroup (target data) = true -> mentionedAtGroup cfg data = true).

(** Every request goes unanswered until the deadline. *)
Definition stalled : Network :=
  fun _ _ _ => {| latency := 45000; settled := Normal (okResponse 200 VNull) |}.

(** The chat server answers every request with a body that is not JSON. *)
Definition plainTextServer : Network :=
  fun _ _ options =>
    match body options with
    | Some (BodyJSON _) => resolves (okResponse 200 (chatAnswer " Hello! "))
    | _ => resolves {| status := 200; json := Throw SyntaxError;
                       arrayBuffer := Normal [] |}
    end.

(** The attachment cannot be downloaded; everything else works. *)
Definition noAttachment : Network :=
  fun _ _ options =>
    match body options with
    | None => rejects 404
    | Some (BodyJSON _) => resolves (okResponse 200 (chatAnswer " Hello! "))
    | Some (BodyText _) => resolves (okResponse 200 (VObj []))
    end.

(** A loop is waiting for [m1]; [m2] to [m5] are queued. *)
Definition busy : State :=
  {| messageQueue := [m2; m3; m4; m5];
     processingPromise := Some DrainPromise;
     loops := [{| maxConcurrent := 3; batch := [m1] |}] |}.

(** ** The handler on an arbitrary body

    [await req.json() as Message] checks nothing: the handler works on
    whatever [JSON.parse] has returned, and a property read or a method call
    that fails on it ends in the handler's [catch].  The definitions below
    follow the handler on such a value, up to [messageQueue.push(data)]. *)

Definition andThen {A B : Type} (c : Completion A) (k : A -> Completion B)
  : Completion B :=
  match c with
  | Normal a => k a
  | Throw e => Throw e
  end.

(** A test that has completed with [true]; a computation that has thrown. *)
Definition holds (c : Completion bool) : bool :=
  match c with
  | Normal b => b
  | Throw _ => false
  end.

Definition throws {A : Type} (c : Completion A) : bool := negb (isNormal c).

Definition nullish (v : value) : bool :=
  match v with
  | VUndefined | VNull => true
  | _ => false
  end.

(** [v ?? d] *)
Definition orDefault (v d : value) : value := if nullish v then d else v.

Definition hasOwn (k : jsstring) (fs : list (jsstring * value)) : bool :=
  match lookupLast k fs with
  | Some _ => true
  | None => false
  end.

(** ['gid' in v]: the right operand has to be an object; an array is one,
    without such a key. *)
Definition gidIn (v : value) : Completion bool :=
  match v with
  | VObj fs => Normal (hasOwn (lit "gid") fs)
  | VArr _ => Normal false
  | _ => Throw TypeError
  end.

(** [v === s] for a string [s]. *)
Definition isText (s : jsstring) (v : value) : bool :=
  match v with
  | VStr t => string_eqb t s
  | _ => false
  end.

(** [v.includes(s)] for a string [s]: strings and arrays have the method
    (an array looks for an element that is the string [s]). *)
Definition callIncludes (v : value) (s : jsstring) : Completion bool :=
  match v with
  | VStr t => Normal (includes t s)
  | VArr xs => Normal (existsb (isText s) xs)
  | _ => Throw TypeError
  end.

(** [v.toLowerCase()]: only a string has the method. *)
Definition callToLowerCase (v : value) : Completion jsstring :=
  match v with
  | VStr t => Normal (toLowerCase t)
  | _ => Throw TypeError
  end.

(** What the handler is given: [req.method] and what [req.json()] settles
    to. *)
Record Hook := {
  hook_method : string;
  hook_json : Completion value
}.

(** The parsed body that has the shape of a [Message]. *)
Definition targetJSON (t : Target) : value :=
  match t with
  | TargetUid uid => VObj [(lit "uid", VNum uid)]
  | TargetGid gid => VObj [(lit "gid", VNum gid)]
  end.

Definition propertiesJSON (p : option Properties) : value :=
  match p with
  | None => VNull
  | Some props =>
    VObj ((match props_content_type props with
           | Some v => [(lit "content_type", v)]
           | None => []
           end)
          ++ (match mentions props with
              | Some l => [(lit "mentions", VArr (map VNum l))]
              | None => []
              end))
  end.

Definition detailJSON (d : Detail) : value :=
  VObj [(lit "content", VStr (content d));
        (lit "content_type", VStr (content_type d));
        (lit "properties", propertiesJSON (properties d))].

Definition toJSON (data : Message) : value :=
  VObj [(lit "from_uid", VNum (from_uid data));
        (lit "mid", VNum (mid data));
        (lit "target", targetJSON (target data));
        (lit "detail", detailJSON (detail data))].

Definition asHook (req : HttpRequest) : Hook :=
  {| hook_method := req_method req;
     hook_json := match req_json req with
                  | Normal data => Normal (toJSON data)
                  | Throw e => Throw e
                  end |}.

(** [v.k], with [undefined] where the read would throw. *)
Definition read (v : value) (k : string) : value :=
  match getProp v (lit k) with
  | Normal x => x
  | Throw _ => VUndefined
  end.

Definition isObject (v : value) : bool :=
  match v with
  | VObj _ | VArr _ => true
  | _ => false
  end.

Definition isArray (v : value) : bool :=
  match v with
  | VArr _ => true
  | _ => false
  end.

Definition hasGid (v : value) : bool :=
  match v with
  | VObj fs => hasOwn (lit "gid") fs
  | _ => false
  end.

(** [(data.detail.properties ?? {}).mentions ?? []] *)
Definition listedMentions (data : value) : value :=
  orDefault (read (orDefault (read (read data "detail") "properties") (VObj []))
                  "mentions")
            (VArr []).

Section Untyped.

Variable cfg : Config.

(** [v == VOCECHAT_BOT_ID] for a value [v] that is not a number.  What it
    gives depends on the kind of value the constant of
    ['@/utils/app/const'] is, so it is left open: a string is compared with
    a string as it stands and with any other value after conversions, and
    the conversion of an object or an array to a primitive can throw (a
    parsed object can hide both [toString] and [valueOf]). *)
Variable otherEq : value -> Completion bool.

Definition looseEq (v : value) : Completion bool :=
  match v with
  | VNum n => Normal (looseEqBot cfg n)
  | _ => otherEq v
  end.

(** [xs.some(m => m == VOCECHAT_BOT_ID)]: the elements are compared in
    order, up to the first that is equal. *)
Fixpoint someEq (xs : list value) : Completion bool :=
  match xs with
  | [] => Normal false
  | m :: rest =>
    andThen (looseEq m) (fun same => if same then Normal true else someEq rest)
  end.

(** [v.some(...)]: only an array has the method. *)
Definition callSome (v : value) : Completion bool :=
  match v with
  | VArr xs => someEq xs
  | _ => Throw TypeError
  end.

Definition botMention : jsstring := lit "@" ++ id_text (VOCECHAT_BOT_ID cfg).

(** The computation of [mentionedAtGroup]; [||] evaluates its right operand
    only when the left one is false. *)
Definition mentionedValue (data : value) : Completion bool :=
  andThen (getProp data (lit "detail")) (fun detail =>
  andThen (getProp detail (lit "properties")) (fun props =>
  andThen (getProp (orDefault props (VObj [])) (lit "mentions")) (fun listed =>
  let mentions := orDefault listed (VArr []) in
  andThen (callSome mentions) (fun byList =>
  if byList then Normal true
  else
    andThen (getProp detail (lit "content")) (fun content =>
    andThen (callIncludes content botMention) (fun byText =>
    if byText then Normal true
    else
      andThen (callToLowerCase content) (fun lower =>
      Normal (includes lower (lit "@chatgpt"))))))))).

(** The [try] block of the handler from [data.from_uid] to the push: the
    text of an early answer, or nothing when the push is reached. *)
Definition screen (data : value) : Completion (option jsstring) :=
  andThen (getProp data (lit "from_uid")) (fun sender =>
  andThen (looseEq sender) (fun self =>
  if self then Normal (Some (lit "ignore sent by bot self"))
  else
    andThen (getProp data (lit "target")) (fun target =>
    andThen (gidIn target) (fun group =>
    if group then
      andThen (mentionedValue data) (fun mentionedAtGroup =>
      if negb mentionedAtGroup
      then Normal (Some (lit "ignore not mention at group"))
      else Normal None)
    else Normal None)))).

(** [handler] on an arbitrary body: the value it pushes on [messageQueue],
    if any, and the status and text of its answer. *)
Definition handlerValue (req : Hook) : option value * (N * jsstring) :=
  if String.eqb (hook_method req) "POST" then
    match andThen (hook_json req)
            (fun data => andThen (screen data) (fun early => Normal (data, early)))
    with
    | Normal (data, None) => (Some data, (200%N, lit "Message queued"))
    | Normal (_, Some text) => (None, (200%N, text))
    | Throw error => (None, (500%N, lit "Error processing request"))
    end
  else if String.eqb (hook_method req) "GET" then
    (None, (200%N, lit "GET: bot resp"))
  else
    (None, (405%N, lit (hook_method req ++ ": bot resp"))).

(** The tests on the content both fail to answer: the content is neither
    a string nor an array, or it is an array without the inline mention
    (an array has no [toLowerCase]). *)
Definition contentFails (content : value) : bool :=
  match content with
  | VStr _ => false
  | VArr xs => negb (existsb (isText botMention) xs)
  | _ => true
  end.

(** The parsed bodies on which the handler's [try] block throws: [null];
    a sender whose comparison with the bot throws; or, for a sender other
    than the bot, a target that is no object, or a group target together
    with a [detail] that is [null] or missing, a mentions entry that is no
    array or has an element whose comparison throws before the bot is
    found, or, the bot not being listed, a content on which both tests
    fail. *)
Definition illShaped (data : value) : bool :=
  nullish data
  || throws (looseEq (read data "from_uid"))
  || negb (holds (looseEq (read data "from_uid")))
     && (negb (isObject (read data "target"))
         || hasGid (read data "target")
            && (nullish (read data "detail")
                || throws (callSome (listedMentions data))
                || negb (holds (callSome (listedMentions data)))
                   && contentFails (read (read data "detail") "content"))).

(** Whether the content carries a mention, when the tests answer. *)
Definition contentMentions (content : value) : bool :=
  match content with
  | VStr t => includes t botMention || includes (toLowerCase t) (lit "@chatgpt")
  | VArr xs => existsb (isText botMention) xs
  | _ => false
  end.

Definition mentionsBot (data : value) : bool :=
  holds (callSome (listedMentions data))
  || contentMentions (read (read data "detail") "content").

(** The early answer to a body that is not [illShaped], if there is one. *)
Definition earlyAnswer (data : value) : option jsstring :=
  if holds (looseEq (read data "from_uid"))
  then Some (lit "ignore sent by bot self")
  else if hasGid (read data "target") && negb (mentionsBot data)
       then Some (lit "ignore not mention at group")
       else None.

End Untyped.

(** A group message without [detail], and a direct message whose content
    is [null]. *)
Definition noDetail : value :=
  VObj [(lit "from_uid", VNum 7); (lit "mid", VNum 31);
        (lit "target", VObj [(lit "gid", VNum 5)])].

Definition nullContent : value :=
  VObj [(lit "from_uid", VNum 7); (lit "mid", VNum 32);
        (lit "target", VObj [(lit "uid", VNum 2)]);
        (lit "detail", VObj [(lit "content", VNull);
                             (lit "content_type", VStr (lit "text/plain"))])].

(** * Properties *)

Unset Implicit Arguments.

(** ** Resilient transport: [fetchWithRetry] *)

Section Transport.

Variables (url : jsstring) (options : RequestInit).

Lemma fetchWithTimeout_run (w : World) :
  fetchWithTimeout url options defaultTimeout w
  = (attempt url options w 0, afterFetch url options w).
Proof.
  unfold fetchWithTimeout, tryCatch, bind, fetch, attempt, afterFetch, ret, throw.
  rewrite Nat.add_0_r.
  destruct (latency _ <? defaultTimeout)%N; cbn.
  - destruct (settled _); reflexivity.
  - reflexivity.
Qed.

Lemma attempt_shift (w w1 : World) (j : nat) :
  network w1 = network w -> fetched w1 = S (fetched w) ->
  attempt url options w1 j = attempt url options w (S j).
Proof.
  intros Hn Hf. unfold attempt. rewrite Hn, Hf.
  replace (S (fetched w) + j) with (fetched w + S j) by lia. reflexivity.
Qed.

Lemma fetchWithRetry_from_S (maxRetries todo i : nat) :
  fetchWithRetry_from url options maxRetries (S todo) i =
  tryCatch
    (fetchWithTimeout url options defaultTimeout)
    (fun error =>
       if Nat.eqb (S i) maxRetries then throw error
       else
         sleep (1000 * 2 ^ N.of_nat i) ;;;
         fetchWithRetry_from url options maxRetries todo (S i)).
Proof. reflexivity. Qed.

(** What a run of the loop from iteration [i] does: it stops at the first
    attempt [k] that succeeds, or at the last iteration, and before that
    every attempt failed and was followed by its back-off sleep. *)
Lemma fetchWithRetry_from_run (maxRetries : nat) :
  forall todo i w res w',
    i + todo = maxRetries ->
    fetchWithRetry_from url options maxRetries todo i w = (res, w') ->
    network w' = network w /\
    ((todo = 0 /\ res = Throw (Error "Max retries reached") /\ w' = w) \/
     exists k, k < todo /\
       (forall j, j < k -> isNormal (attempt url options w j) = false) /\
       res = attempt url options w k /\
       (isNormal res = true \/ S (i + k) = maxRetries) /\
       trace w' = trace w ++ backoff url options i k /\
       fetched w' = fetched w + S k).
Proof.
  induction todo as [|todo IH]; intros i w res w' Hi Hrun.
  - cbn in Hrun. injection Hrun as <- <-. split; [reflexivity|]. left. auto.
  - rewrite fetchWithRetry_from_S in Hrun. unfold tryCatch in Hrun.
    rewrite fetchWithTimeout_run in Hrun.
    destruct (attempt url options w 0) as [r|e] eqn:Ha.
    + injection Hrun as <- <-. split; [reflexivity|]. right. exists 0.
      rewrite Ha. cbn. repeat split; try lia; auto.
    + destruct (Nat.eqb (S i) maxRetries) eqn:Hlast.
      * unfold throw in Hrun. injection Hrun as <- <-.
        split; [reflexivity|]. right. exists 0.
        apply Nat.eqb_eq in Hlast.
        rewrite Ha. cbn. repeat split; try lia; auto.
      * unfold bind, sleep in Hrun.
        apply IH in Hrun; [|lia].
        destruct Hrun as [Hnet Hrun]. cbn in Hnet. split; [exact Hnet|].
        right.
        destruct Hrun
          as [(Ht & _ & _) | (k & Hk & Hfail & Hres & Hstop & Htr & Hf)].
        { apply Nat.eqb_neq in Hlast. lia. }
        exists (S k). cbn in Htr, Hf.
        repeat split.
        -- lia.
        -- intros j Hj. destruct j as [|j]; [now rewrite Ha|].
           erewrite <- attempt_shift; [apply Hfail; lia | | ]; reflexivity.
        -- rewrite Hres. apply attempt_shift; reflexivity.
        -- destruct Hstop as [Hok | Hend]; [left; exact Hok | right; lia].
        -- rewrite Htr. cbn. rewrite <- !app_assoc. reflexivity.
        -- rewrite Hf. lia.
Qed.

End Transport.

Lemma newEvents_app (w w' : World) (evs : list Event) :
  trace w' = trace w ++ evs -> newEvents w w' = evs.
Proof.
  intros H. unfold newEvents. rewrite H. clear H.
  induction (trace w) as [|e t IH]; [reflexivity | exact IH].
Qed.

Lemma attempts_backoff (url : jsstring) (options : RequestInit) :
  forall k i, attempts (backoff url options i k) = S k.
Proof.
  induction k as [|k IH]; intros i; [reflexivity|].
  unfold attempts in *. cbn. now rewrite IH.
Qed.

Lemma sleeps_backoff (url : jsstring) (options : RequestInit) :
  forall k i,
    sleeps (backoff url options i k)
    = map (fun j => (1000 * 2 ^ N.of_nat (i + j))%N) (seq 0 k).
Proof.
  induction k as [|k IH]; intros i; [reflexivity|].
  cbn [backoff sleeps flat_map app seq map]. fold (sleeps (backoff url options (S i) k)).
  rewrite IH, Nat.add_0_r. f_equal.
  rewrite <- seq_shift, map_map. apply map_ext. intros j.
  now replace (S i + j) with (i + S j) by lia.
Qed.

(** A call of [fetchWithRetry], read off the attempts the network grants
    it. *)
Lemma fetchWithRetry_run (url : jsstring) (options : RequestInit)
    (maxRetries : nat) (w : World) (res : Completion Response) (w' : World) :
  fetchWithRetry url options maxRetries w = (res, w') ->
  network w' = network w /\
  ((maxRetries = 0 /\ res = Throw (Error "Max retries reached") /\ w' = w) \/
   exists k, k < maxRetries /\
     (forall j, j < k -> isNormal (attempt url options w j) = false) /\
     res = attempt url options w k /\
     (isNormal res = true \/ S k = maxRetries) /\
     newEvents w w' = backoff url options 0 k /\
     fetched w' = fetched w + S k).
Proof.
  intros Hrun. unfold fetchWithRetry in Hrun.
  apply fetchWithRetry_from_run in Hrun; [|reflexivity].
  destruct Hrun as [Hnet [H0 | (k & Hk & Hfail & Hres & Hstop & Htr & Hf)]].
  - split; [exact Hnet | left; exact H0].
  - split; [exact Hnet | right]. exists k.
    repeat split; auto. now apply newEvents_app.
Qed.

(** The first attempt that is answered decides the call. *)
Lemma fetchWithRetry_first_answer (url : jsstring) (options : RequestInit)
    (maxRetries : nat) (w : World) (k : nat) (r : Response) :
  k < maxRetries ->
  (forall j, j < k -> isNormal (attempt url options w j) = false) ->
  attempt url options w k = Normal r ->
  exists w', fetchWithRetry url options maxRetries w = (Normal r, w') /\
             network w' = network w /\
             newEvents w w' = backoff url options 0 k /\
             fetched w' = fetched w + S k.
Proof.
  intros Hk Hfail Hok.
  destruct (fetchWithRetry url options maxRetries w) as [res w'] eqn:Hrun.
  exists w'. apply fetchWithRetry_run in Hrun.
  destruct Hrun as [Hnet [(H0 & _) | (k' & Hk' & Hfail' & Hres & Hstop & Htr & Hf)]];
    [lia|].
  assert (k' = k) as ->.
  { destruct (Nat.lt_trichotomy k' k) as [Hlt | [Heq | Hgt]]; [|exact Heq|].
    - specialize (Hfail _ Hlt). rewrite <- Hres in Hfail.
      destruct Hstop as [Hn | Hend]; [congruence | lia].
    - specialize (Hfail' _ Hgt). rewrite Hok in Hfail'. discriminate. }
  rewrite Hres, Hok. auto.
Qed.

(** C3 (as amended) -- With the default [maxRetries = 3], [fetchWithRetry]
    does not sleep before its first attempt, and before retry [i] (the
    attempts counted from 0, so [i >= 1]) it sleeps [1000 * 2^(i-1)]
    milliseconds, the [1000 * 2^j] that follows failed attempt [j = i - 1]:
    1000 before the second attempt, 2000 before the third.  A
    call whose first two attempts fail and whose third is answered returns
    that answer after exactly the two sleeps 1000 and 2000. *)
Theorem fetchWithRetry_delays (url : jsstring) (options : RequestInit)
    (w : World) (res : Completion Response) (w' : World) :
  fetchWithRetry url options defaultMaxRetries w = (res, w') ->
  (exists k, k < 3 /\
     delaysBefore 0 (newEvents w w') = firstn (S k) [0; 1000; 2000]%N) /\
  (forall i d, nth_error (delaysBefore 0 (newEvents w w')) i = Some d ->
     d = match i with
         | O => 0
         | S j => 1000 * 2 ^ N.of_nat j
         end%N) /\
  (forall r,
     isNormal (attempt url options w 0) = false ->
     isNormal (attempt url options w 1) = false ->
     attempt url options w 2 = Normal r ->
     res = Normal r /\ sleeps (newEvents w w') = [1000; 2000]%N).
Proof.
  intros Hrun.
  assert (Hshape : exists k, k < 3 /\
            newEvents w w' = backoff url options 0 k).
  { apply fetchWithRetry_run in Hrun.
    destruct Hrun as [_ [(H0 & _) | (k & Hk & _ & _ & _ & Htr & _)]];
      [discriminate | eauto]. }
  destruct Hshape as (k & Hk & Htr).
  assert (Hd : delaysBefore 0 (newEvents w w') = firstn (S k) [0; 1000; 2000]%N).
  { rewrite Htr. destruct k as [|[|[|k]]]; try lia; reflexivity. }
  split; [eauto|]. split.
  - intros i d Hnth. rewrite Hd in Hnth.
    destruct k as [|[|[|k]]]; try lia;
      destruct i as [|[|[|i]]]; cbn in Hnth;
        try discriminate; try (destruct i; discriminate);
          inversion Hnth; reflexivity.
  - intros r H0 H1 H2.
    destruct (fetchWithRetry_first_answer url options 3 w 2 r)
      as (w2 & Hrun2 & _ & Htr2 & _); auto.
    + intros j Hj. destruct j as [|[|j]]; [exact H0 | exact H1 | lia].
    + unfold defaultMaxRetries in Hrun. rewrite Hrun in Hrun2.
      injection Hrun2 as -> ->. split; [reflexivity|]. now rewrite Htr2.
Qed.

Lemma fetchWithRetry_delays_witness :
  fst (fetchWithRetry exampleUrl exampleOptions defaultMaxRetries failTwice)
    = Normal (okResponse 200 VNull) /\
  sleeps (newEvents failTwice
            (snd (fetchWithRetry exampleUrl exampleOptions defaultMaxRetries failTwice)))
    = [1000; 2000]%N.
Proof.
  destruct (fetchWithRetry_delays exampleUrl exampleOptions failTwice _ _
              (surjective_pairing
                 (fetchWithRetry exampleUrl exampleOptions defaultMaxRetries failTwice)))
    as (_ & _ & Hthird).
  apply (Hthird (okResponse 200 VNull)); reflexivity.
Defined.

(** C3 (as stated) fails: when the first attempt is rejected and the second
    is answered, the sleep before retry 1 is 1000 ms, not [1000 * 2^1]. *)
Lemma fetchWithRetry_delay_before_retry_1 :
  nth_error
    (delaysBefore 0
       (newEvents failOnce
          (snd (fetchWithRetry exampleUrl exampleOptions defaultMaxRetries failOnce))))
    1 = Some 1000%N /\
  1000%N <> (1000 * 2 ^ 1)%N.
Proof. split; [reflexivity | discriminate]. Qed.

(** C4 -- When every one of the [maxRetries] attempts fails, the call fails
    with the error of the last attempt, and it has made [maxRetries]
    attempts; whatever happens, no call makes more than [maxRetries]
    attempts.  (With [maxRetries = 0] there is no attempt at all and the
    call fails with its own error.) *)
Theorem fetchWithRetry_exhausted (url : jsstring) (options : RequestInit)
    (maxRetries : nat) (w : World) (res : Completion Response) (w' : World) :
  fetchWithRetry url options maxRetries w = (res, w') ->
  attempts (newEvents w w') <= maxRetries /\
  fetched w' <= fetched w + maxRetries /\
  ((forall j, j < maxRetries -> isNormal (attempt url options w j) = false) ->
   attempts (newEvents w w') = maxRetries /\
   isNormal res = false /\
   res = match maxRetries with
         | O => Throw (Error "Max retries reached")
         | S last => attempt url options w last
         end).
Proof.
  intros Hrun. apply fetchWithRetry_run in Hrun.
  destruct Hrun as [_ [(H0 & Hres & Hw) | (k & Hk & Hfail & Hres & Hstop & Htr & Hf)]].
  - subst. unfold newEvents. rewrite skipn_all. cbn.
    repeat split; auto; lia.
  - rewrite Htr, attempts_backoff. split; [lia|]. split; [lia|].
    intros Hall.
    destruct Hstop as [Hok | Hend].
    + rewrite Hres, (Hall k Hk) in Hok. discriminate.
    + subst maxRetries. rewrite Hres. auto.
Qed.

Lemma fetchWithRetry_exhausted_witness :
  fst (fetchWithRetry exampleUrl exampleOptions 3 alwaysDown)
    = Throw (NetworkError 2) /\
  attempts (newEvents alwaysDown
              (snd (fetchWithRetry exampleUrl exampleOptions 3 alwaysDown))) = 3.
Proof.
  destruct (fetchWithRetry_exhausted exampleUrl exampleOptions 3 alwaysDown _ _
              (surjective_pairing (fetchWithRetry exampleUrl exampleOptions 3 alwaysDown)))
    as (_ & _ & Hall).
  destruct Hall as (Hn & _ & Hres).
  - intros j Hj. reflexivity.
  - split; [exact Hres | exact Hn].
Defined.

Section Dispatch.

Variable cfg : Config.

(** [sendMessageToBot] succeeds as soon as one of its attempts is answered
    by a response whose body is JSON. *)
Lemma sendMessageToBot_answered (url message : jsstring) (w : World)
    (k : nat) (r : Response) (v : value) :
  k < defaultMaxRetries ->
  (forall j, j < k ->
     isNormal (attempt url (sendOptions cfg message) w j) = false) ->
  attempt url (sendOptions cfg message) w k = Normal r ->
  json r = Normal v ->
  exists w', sendMessageToBot cfg url message w = (Normal tt, w') /\
             newEvents w w'
             = backoff url (sendOptions cfg message) 0 k
               ++ [EvLog "bot: send successfully"].
Proof.
  intros Hk Hfail Hok Hjson.
  destruct (fetchWithRetry_first_answer url (sendOptions cfg message) _ w k r
              Hk Hfail Hok)
    as (w1 & Hrun & _ & Htr & _).
  unfold sendMessageToBot, tryCatch, bind. rewrite Hrun.
  unfold await. rewrite Hjson. cbn.
  eexists. split; [reflexivity|].
  unfold newEvents in *. cbn.
  assert (Hle : List.length (trace w) <= List.length (trace w1)).
  { destruct (Nat.le_gt_cases (List.length (trace w)) (List.length (trace w1)))
      as [Hle | Hgt]; [exact Hle|].
    rewrite skipn_all2 in Htr by lia. destruct k; discriminate. }
  rewrite skipn_app, Htr.
  replace (List.length (trace w) - List.length (trace w1)) with 0 by lia.
  reflexivity.
Qed.

End Dispatch.

(** C9 -- An attempt whose fetch resolves ends the call with that response,
    whatever its status: nothing follows the answered attempt, neither a
    retry nor a sleep.  The call sleeps and retries only after attempts that
    were rejected (or aborted by the deadline).  Hence [sendMessageToBot]
    completes normally on any resolved response whose body parses as
    JSON. *)
Theorem resolved_response_ends_the_call (cfg : Config) (url : jsstring)
    (options : RequestInit) (maxRetries : nat) (w : World) :
  (forall k r,
     k < maxRetries ->
     (forall j, j < k -> isNormal (attempt url options w j) = false) ->
     attempt url options w k = Normal r ->
     exists w', fetchWithRetry url options maxRetries w = (Normal r, w') /\
                newEvents w w' = backoff url options 0 k /\
                attempts (newEvents w w') = S k /\
                List.length (sleeps (newEvents w w')) = k) /\
  (forall res w',
     fetchWithRetry url options maxRetries w = (res, w') ->
     forall j, j < List.length (sleeps (newEvents w w')) ->
               isNormal (attempt url options w j) = false) /\
  (forall message k r v,
     k < defaultMaxRetries ->
     (forall j, j < k ->
        isNormal (attempt url (sendOptions cfg message) w j) = false) ->
     attempt url (sendOptions cfg message) w k = Normal r ->
     json r = Normal v ->
     exists w', sendMessageToBot cfg url message w = (Normal tt, w')).
Proof.
  split; [|split].
  - intros k r Hk Hfail Hok.
    destruct (fetchWithRetry_first_answer url options maxRetries w k r Hk Hfail Hok)
      as (w' & Hrun & _ & Htr & _).
    exists w'. rewrite Htr, attempts_backoff, sleeps_backoff.
    now rewrite length_map, length_seq.
  - intros res w' Hrun j Hj. apply fetchWithRetry_run in Hrun.
    destruct Hrun as [_ [(_ & _ & ->) | (k & _ & Hfail & _ & _ & Htr & _)]].
    + unfold newEvents in Hj. rewrite skipn_all in Hj. cbn in Hj. lia.
    + rewrite Htr, sleeps_backoff, length_map, length_seq in Hj. auto.
  - intros message k r v Hk Hfail Hok Hjson.
    destruct (sendMessageToBot_answered cfg url message w k r v Hk Hfail Hok Hjson)
      as (w' & Hrun & _).
    eauto.
Qed.

(** ** What a computation adds to the trace *)

Create HintDb appends.

Section Appends.

Variable P : Event -> Prop.

Lemma appends_ret {A} (a : A) : appends P (ret a).
Proof.
  intros w res w' H. injection H as <- <-. split; [reflexivity|].
  exists []. now rewrite app_nil_r.
Qed.

Lemma appends_throw {A} (e : JSError) : appends P (@throw A e).
Proof.
  intros w res w' H. injection H as <- <-. split; [reflexivity|].
  exists []. now rewrite app_nil_r.
Qed.

Lemma appends_await {A} (c : Completion A) : appends P (await c).
Proof.
  intros w res w' H. injection H as <- <-. split; [reflexivity|].
  exists []. now rewrite app_nil_r.
Qed.

Lemma appends_Date_now : appends P Date_now.
Proof.
  intros w res w' H. injection H as <- <-. split; [reflexivity|].
  exists []. now rewrite app_nil_r.
Qed.

Lemma appends_bind {A B} (m : M A) (k : A -> M B) :
  appends P m -> (forall a, appends P (k a)) -> appends P (bind m k).
Proof.
  intros Hm Hk w res w' H. unfold bind in H.
  destruct (m w) as [[a|e] w1] eqn:Hmw; apply Hm in Hmw;
    destruct Hmw as (Hn1 & evs1 & Ht1 & HP1).
  - apply Hk in H. destruct H as (Hn2 & evs2 & Ht2 & HP2).
    split; [congruence|]. exists (evs1 ++ evs2).
    rewrite Ht2, Ht1, app_assoc. split; [reflexivity|]. now apply Forall_app.
  - injection H as <- <-. split; [exact Hn1|]. eauto.
Qed.

Lemma appends_tryCatch {A} (m : M A) (h : JSError -> M A) :
  appends P m -> (forall e, appends P (h e)) -> appends P (tryCatch m h).
Proof.
  intros Hm Hh w res w' H. unfold tryCatch in H.
  destruct (m w) as [[a|e] w1] eqn:Hmw; apply Hm in Hmw;
    destruct Hmw as (Hn1 & evs1 & Ht1 & HP1).
  - injection H as <- <-. split; [exact Hn1|]. eauto.
  - apply Hh in H. destruct H as (Hn2 & evs2 & Ht2 & HP2).
    split; [congruence|]. exists (evs1 ++ evs2).
    rewrite Ht2, Ht1, app_assoc. split; [reflexivity|]. now apply Forall_app.
Qed.

Lemma appends_if {A} (b : bool) (m1 m2 : M A) :
  appends P m1 -> appends P m2 -> appends P (if b then m1 else m2).
Proof. now destruct b. Qed.

Lemma appends_emit (e : Event) : P e -> appends P (emit e).
Proof.
  intros He w res w' H. injection H as <- <-. split; [reflexivity|].
  exists [e]. auto.
Qed.

Lemma appends_log (message : string) :
  P (EvLog message) -> appends P (log message).
Proof. apply appends_emit. Qed.

Lemma appends_sleep (ms : N) : P (EvSleep ms) -> appends P (sleep ms).
Proof.
  intros He w res w' H. injection H as <- <-. split; [reflexivity|].
  exists [EvSleep ms]. auto.
Qed.

Lemma appends_fetch (url : jsstring) (options : RequestInit) (signal : option N) :
  P (EvFetch url options) -> appends P (fetch url options signal).
Proof.
  intros He w res w' H. unfold fetch in H.
  assert (network w' = network w /\ trace w' = trace w ++ [EvFetch url options])
    as [Hn Ht].
  { destruct signal as [t|]; [destruct (_ <? t)%N|];
      injection H as <- <-; split; reflexivity. }
  split; [exact Hn|]. exists [EvFetch url options]. auto.
Qed.

Lemma appends_fetchWithTimeout (url : jsstring) (options : RequestInit) (timeout : N) :
  P (EvFetch url options) -> appends P (fetchWithTimeout url options timeout).
Proof.
  intros He. apply appends_tryCatch.
  - apply appends_bind; [now apply appends_fetch | intros; apply appends_ret].
  - intros; apply appends_throw.
Qed.

Lemma appends_fetchWithRetry_from (url : jsstring) (options : RequestInit)
    (maxRetries : nat) :
  P (EvFetch url options) -> (forall ms, P (EvSleep ms)) ->
  forall todo i, appends P (fetchWithRetry_from url options maxRetries todo i).
Proof.
  intros He Hs. induction todo as [|todo IH]; intros i.
  - apply appends_throw.
  - rewrite fetchWithRetry_from_S. apply appends_tryCatch.
    + now apply appends_fetchWithTimeout.
    + intros e. apply appends_if; [apply appends_throw|].
      apply appends_bind; [apply appends_sleep, Hs | intros _; apply IH].
Qed.

Lemma appends_fetchWithRetry (url : jsstring) (options : RequestInit)
    (maxRetries : nat) :
  P (EvFetch url options) -> (forall ms, P (EvSleep ms)) ->
  appends P (fetchWithRetry url options maxRetries).
Proof. intros He Hs. now apply appends_fetchWithRetry_from. Qed.

Lemma appends_measureTime {T} (name : string) (fn : M T) :
  (forall ms, P (EvLog (name ++ " took " ++ showN ms ++ "ms"))) ->
  appends P fn -> appends P (measureTime name fn).
Proof.
  intros Hl Hfn. unfold measureTime.
  apply appends_bind; [apply appends_Date_now | intros start].
  apply appends_bind; [exact Hfn | intros result].
  apply appends_bind; [apply appends_Date_now | intros stop].
  apply appends_bind; [apply appends_log, Hl | intros _; apply appends_ret].
Qed.

End Appends.

#[local] Hint Resolve appends_ret appends_throw appends_await appends_Date_now
  appends_bind appends_tryCatch appends_if appends_emit appends_log
  appends_sleep appends_fetch appends_fetchWithTimeout appends_fetchWithRetry
  appends_measureTime : appends.

Lemma appends_weaken {A} (P Q : Event -> Prop) (m : M A) :
  (forall e, P e -> Q e) -> appends P m -> appends Q m.
Proof.
  intros HPQ Hm w res w' H. apply Hm in H.
  destruct H as (Hn & evs & Ht & HP). split; [exact Hn|].
  exists evs. split; [exact Ht|]. eapply Forall_impl; eauto.
Qed.

Lemma appends_newEvents {A} (P : Event -> Prop) (m : M A) (w : World)
    (res : Completion A) (w' : World) :
  appends P m -> m w = (res, w') ->
  trace w' = trace w ++ newEvents w w' /\ Forall P (newEvents w w').
Proof.
  intros Hm H. apply Hm in H. destruct H as (_ & evs & Ht & HP).
  rewrite (newEvents_app w w' evs Ht). auto.
Qed.

#[local] Hint Extern 1 (quiet _) => reflexivity : appends.
#[local] Hint Extern 1 (calm _) => (split; reflexivity) : appends.
#[local] Hint Extern 1 True => exact I : appends.

(** ** The reply dispatcher and the per-message task *)

Section Task.

Variable cfg : Config.

Lemma fetchWithRetry_trace (url : jsstring) (options : RequestInit)
    (maxRetries : nat) (w : World) (res : Completion Response) (w' : World) :
  fetchWithRetry url options maxRetries w = (res, w') ->
  trace w' = trace w ++ newEvents w w'.
Proof.
  intros H.
  apply (appends_newEvents (fun _ => True)) in H; [tauto|].
  apply appends_fetchWithRetry; auto.
Qed.

(** One run of [sendMessageToBot]: up to three attempts at the same
    request, then the line that tells how it went. *)
Lemma sendMessageToBot_run (url message : jsstring) (w : World)
    (res : Completion unit) (w' : World) :
  sendMessageToBot cfg url message w = (res, w') ->
  network w' = network w /\
  exists k, k < 3 /\
    trace w' = trace w ++ backoff url (sendOptions cfg message) 0 k
                       ++ [EvLog (sendLine (isNormal res))].
Proof.
  unfold sendMessageToBot, tryCatch, bind. intros H.
  destruct (fetchWithRetry url (sendOptions cfg message) defaultMaxRetries w)
    as [r w1] eqn:Hrun.
  pose proof (fetchWithRetry_trace _ _ _ _ _ _ Hrun) as Ht.
  apply fetchWithRetry_run in Hrun.
  destruct Hrun as [Hnet [(H0 & _) | (k & Hk & _ & _ & _ & Htr & _)]];
    [discriminate|].
  rewrite Htr in Ht.
  assert (Hgoal : forall ok w2,
             network w2 = network w1 ->
             trace w2 = trace w1 ++ [EvLog (sendLine ok)] ->
             network w2 = network w /\
             exists k0, k0 < 3 /\
               trace w2 = trace w ++ backoff url (sendOptions cfg message) 0 k0
                                 ++ [EvLog (sendLine ok)]).
  { intros ok w2 Hn2 Ht2. split; [congruence|]. exists k. split; [exact Hk|].
    now rewrite Ht2, Ht, <- app_assoc. }
  destruct r as [resp|e].
  - unfold await in H. destruct (json resp) as [v|e].
    + cbn in H. injection H as <- <-. apply (Hgoal true); reflexivity.
    + cbn in H. injection H as <- <-. apply (Hgoal false); reflexivity.
  - cbn in H. injection H as <- <-. apply (Hgoal false); reflexivity.
Qed.

Lemma deliveries_backoff (url : jsstring) (options : RequestInit) :
  forall k i last rest,
    deliveries last (backoff url options i k ++ rest)
    = deliveries (Some (url, options)) rest.
Proof.
  induction k as [|k IH]; intros i last rest; [reflexivity|].
  cbn. apply IH.
Qed.

Lemma deliveries_quiet (pre : list Event) :
  Forall quiet pre ->
  forall last rest, exists last', deliveries last (pre ++ rest) = deliveries last' rest.
Proof.
  induction 1 as [|e pre He _ IH]; intros last rest; [now exists last|].
  destruct e as [u o|ms|message]; cbn [app deliveries]; try apply IH.
  unfold quiet in He. cbn in He. apply orb_false_elim in He.
  destruct He as [-> ->]. apply IH.
Qed.

(** A quiet stretch followed by one run of the dispatcher reads as one
    delivery. *)
Lemma deliveries_send (pre : list Event) (url : jsstring) (options : RequestInit)
    (k : nat) (ok : bool) (last : option (jsstring * RequestInit))
    (rest : list Event) :
  Forall quiet pre ->
  deliveries last (pre ++ backoff url options 0 k ++ EvLog (sendLine ok) :: rest)
  = (Some (url, options), ok) :: deliveries (Some (url, options)) rest.
Proof.
  intros Hq.
  destruct (deliveries_quiet pre Hq last
              (backoff url options 0 k ++ EvLog (sendLine ok) :: rest))
    as [last' ->].
  rewrite deliveries_backoff. destruct ok; reflexivity.
Qed.

Lemma processMessage_calm (message : Message) :
  appends calm (processMessage cfg message).
Proof.
  unfold processMessage, getImageBase64, consoleError.
  apply appends_bind.
  - apply appends_if; auto 10 with appends.
  - intros [requestBody | reply]; auto 12 with appends.
Qed.

Lemma calm_quiet (evs : list Event) : Forall calm evs -> Forall quiet evs.
Proof. apply Forall_impl. now intros e [H _]. Qed.

Lemma calm_no_failure (evs : list Event) :
  Forall calm evs -> failureLogged evs = false.
Proof.
  induction 1 as [|e evs [_ He] _ IH]; [reflexivity|].
  unfold failureLogged in *. cbn. now rewrite He, IH.
Qed.

Lemma backoff_no_failure (url : jsstring) (options : RequestInit) :
  forall k i, failureLogged (backoff url options i k) = false.
Proof. induction k as [|k IH]; intros i; [reflexivity | apply IH]. Qed.

Lemma failureLogged_app (a b : list Event) :
  failureLogged (a ++ b) = failureLogged a || failureLogged b.
Proof. apply existsb_app. Qed.

(** The [catch] branch of the task: one delivery of the fixed message,
    whose failure is logged and goes no further. *)
Lemma fallback_run (message : Message) (w : World) :
  exists w' k ok,
    (log "Error processing message" ;;;
     tryCatch
       (sendMessageToBot cfg (replyUrl cfg message) errorMessage)
       (fun sendError => log "Error sending error message to user")) w
    = (Normal tt, w') /\
    network w' = network w /\
    trace w' = trace w
               ++ [EvLog "Error processing message"]
               ++ backoff (replyUrl cfg message) (sendOptions cfg errorMessage) 0 k
               ++ EvLog (sendLine ok)
                  :: (if ok then []
                      else [EvLog "Error sending error message to user"]).
Proof.
  unfold bind, tryCatch, log at 1, emit at 1.
  match goal with
  | |- context [sendMessageToBot cfg ?u ?t ?w0] =>
    destruct (sendMessageToBot cfg u t w0) as [res w1] eqn:Hsend
  end.
  apply sendMessageToBot_run in Hsend.
  destruct Hsend as (Hn & k & _ & Ht). cbn [network trace] in Hn, Ht.
  destruct res as [[]|e]; cbn [isNormal] in Ht.
  - exists w1, k, true. split; [reflexivity|]. split; [exact Hn|].
    rewrite Ht, <- app_assoc. reflexivity.
  - eexists _, k, false. split; [reflexivity|]. split; [exact Hn|].
    cbn [trace emit log]. unfold log, emit. cbn [trace].
    rewrite Ht, <- !app_assoc. reflexivity.
Qed.

(** The events of the [catch] branch, read as deliveries. *)
Lemma fallback_deliveries (message : Message) (k : nat) (ok : bool)
    (pre : list Event) (last : option (jsstring * RequestInit)) :
  let evs :=
    [EvLog "Error processing message"]
    ++ backoff (replyUrl cfg message) (sendOptions cfg errorMessage) 0 k
    ++ EvLog (sendLine ok)
       :: (if ok then [] else [EvLog "Error sending error message to user"]) in
  deliveries last evs = [delivery cfg message errorMessage ok] /\
  failureLogged evs = negb ok.
Proof.
  cbn zeta. split.
  - rewrite (deliveries_send [EvLog "Error processing message"]).
    + destruct ok; reflexivity.
    + repeat constructor.
  - rewrite !failureLogged_app, backoff_no_failure. destruct ok; reflexivity.
Qed.

(** The task of a message, case by case: it always completes normally, and
    its deliveries are the generated reply, followed by the fixed message
    when that delivery failed; when the generator itself throws, the fixed
    message is all that is sent.  The failure line is written exactly when
    the fixed message could not be delivered either. *)
Lemma processTask_run (message : Message) (w : World) :
  exists w',
    processTask cfg message w = (Normal tt, w') /\
    network w' = network w /\
    (exists evs, trace w' = trace w ++ evs) /\
    let ds := deliveries None (newEvents w w') in
    let logged := failureLogged (newEvents w w') in
    match fst (processMessage cfg message w) with
    | Normal response =>
      ds = [delivery cfg message response true] /\ logged = false \/
      ds = [delivery cfg message response false;
            delivery cfg message errorMessage true] /\ logged = false \/
      ds = [delivery cfg message response false;
            delivery cfg message errorMessage false] /\ logged = true
    | Throw _ =>
      ds = [delivery cfg message errorMessage true] /\ logged = false \/
      ds = [delivery cfg message errorMessage false] /\ logged = true
    end.
Proof.
  unfold processTask, tryCatch at 1, bind at 1.
  destruct (processMessage cfg message w) as [[response|e] w1] eqn:Hpm;
    pose proof (processMessage_calm message w _ _ Hpm) as (Hn1 & evs1 & Ht1 & Hc1);
    pose proof (calm_quiet _ Hc1) as Hq1;
    pose proof (calm_no_failure _ Hc1) as Hf1;
    cbn [fst].
  - destruct (sendMessageToBot cfg (replyUrl cfg message) response w1)
      as [[[]|e] w2] eqn:Hsend;
      pose proof (sendMessageToBot_run _ _ _ _ _ Hsend) as (Hn2 & k & _ & Ht2);
      cbn [isNormal] in Ht2; rewrite Ht1, <- app_assoc in Ht2.
    + exists w2. split; [reflexivity|]. split; [congruence|].
      split; [eauto|]. rewrite (newEvents_app _ _ _ Ht2). cbn zeta. left. split.
      * apply (deliveries_send evs1 _ _ k true None []); exact Hq1.
      * rewrite !failureLogged_app, Hf1, backoff_no_failure. reflexivity.
    + destruct (fallback_run message w2) as (w3 & k2 & ok & Hrun & Hn3 & Ht3).
      exists w3. split; [exact Hrun|]. split; [congruence|].
      rewrite Ht2, <- !app_assoc in Ht3.
      split; [eauto|]. rewrite (newEvents_app _ _ _ Ht3). cbn zeta.
      destruct (fallback_deliveries message k2 ok []
                  (Some (replyUrl cfg message, sendOptions cfg response)))
        as [Hd Hl]. cbn zeta in Hd, Hl.
      assert (Hds : deliveries None
                (evs1 ++ backoff (replyUrl cfg message) (sendOptions cfg response) 0 k
                 ++ [EvLog (sendLine false)]
                 ++ [EvLog "Error processing message"]
                 ++ backoff (replyUrl cfg message) (sendOptions cfg errorMessage) 0 k2
                 ++ EvLog (sendLine ok)
                    :: (if ok then []
                        else [EvLog "Error sending error message to user"]))
              = [delivery cfg message response false;
                 delivery cfg message errorMessage ok]).
      { change ([EvLog (sendLine false)] ++ ?r) with (EvLog (sendLine false) :: r).
        rewrite (deliveries_send evs1 _ _ k false None _ Hq1), Hd. reflexivity. }
      assert (Hls : failureLogged
                (evs1 ++ backoff (replyUrl cfg message) (sendOptions cfg response) 0 k
                 ++ [EvLog (sendLine false)]
                 ++ [EvLog "Error processing message"]
                 ++ backoff (replyUrl cfg message) (sendOptions cfg errorMessage) 0 k2
                 ++ EvLog (sendLine ok)
                    :: (if ok then []
                        else [EvLog "Error sending error message to user"]))
              = negb ok).
      { rewrite (failureLogged_app evs1), Hf1, (failureLogged_app (backoff _ _ _ _)),
          backoff_no_failure, (failureLogged_app [EvLog (sendLine false)]), Hl.
        reflexivity. }
      rewrite Hds, Hls. destruct ok; auto.
  - destruct (fallback_run message w1) as (w3 & k2 & ok & Hrun & Hn3 & Ht3).
    exists w3. split; [exact Hrun|]. split; [congruence|].
    rewrite Ht1, <- !app_assoc in Ht3.
    split; [eauto|]. rewrite (newEvents_app _ _ _ Ht3). cbn zeta.
    destruct (fallback_deliveries message k2 ok [] None) as [Hd Hl].
    cbn zeta in Hd, Hl.
    destruct (deliveries_quiet evs1 Hq1 None
                ([EvLog "Error processing message"]
                 ++ backoff (replyUrl cfg message) (sendOptions cfg errorMessage) 0 k2
                 ++ EvLog (sendLine ok)
                    :: (if ok then []
                        else [EvLog "Error sending error message to user"])))
      as [last' Hds].
    rewrite Hds, failureLogged_app, Hf1, Hl.
    destruct (fallback_deliveries message k2 ok [] last') as [Hd' _].
    cbn zeta in Hd'. rewrite Hd'. destruct ok; auto.
Qed.

(** The events of a run of the dispatcher read as one delivery. *)
Lemma sendEvents_read (pre : list Event) (message : Message) (text : jsstring)
    (k : nat) (ok : bool) (last : option (jsstring * RequestInit))
    (rest : list Event) :
  Forall quiet pre ->
  deliveries last (pre ++ sendEvents cfg message text k ok ++ rest)
  = delivery cfg message text ok
    :: deliveries (Some (replyUrl cfg message, sendOptions cfg text)) rest.
Proof.
  intros Hq. unfold sendEvents. rewrite <- app_assoc. cbn [app].
  apply deliveries_send. exact Hq.
Qed.

Lemma sendEvents_no_failure (message : Message) (text : jsstring)
    (k : nat) (ok : bool) :
  failureLogged (sendEvents cfg message text k ok) = false.
Proof.
  unfold sendEvents. rewrite failureLogged_app, backoff_no_failure.
  destruct ok; reflexivity.
Qed.

(** The events of the [catch] branch read as one delivery of the fixed
    message; the failure line is there exactly when it failed. *)
Lemma fallbackEvents_read (message : Message) (k : nat) (ok : bool)
    (last : option (jsstring * RequestInit)) :
  deliveries last (fallbackEvents cfg message k ok)
  = [delivery cfg message errorMessage ok] /\
  failureLogged (fallbackEvents cfg message k ok) = negb ok.
Proof.
  unfold fallbackEvents. split.
  - rewrite (sendEvents_read [EvLog "Error processing message"]).
    + destruct ok; reflexivity.
    + repeat constructor.
  - rewrite !failureLogged_app, sendEvents_no_failure. destruct ok; reflexivity.
Qed.

(** The [catch] branch of the task, event by event. *)
Lemma fallback_stage (message : Message) (w : World) :
  exists w' k ok,
    (log "Error processing message" ;;;
     tryCatch
       (sendMessageToBot cfg (replyUrl cfg message) errorMessage)
       (fun sendError => log "Error sending error message to user")) w
    = (Normal tt, w') /\
    k < 3 /\
    trace w' = trace w ++ fallbackEvents cfg message k ok.
Proof.
  unfold bind, tryCatch, log at 1, emit at 1.
  match goal with
  | |- context [sendMessageToBot cfg ?u ?t ?w0] =>
    destruct (sendMessageToBot cfg u t w0) as [res w1] eqn:Hsend
  end.
  apply sendMessageToBot_run in Hsend.
  destruct Hsend as (_ & k & Hk & Ht). cbn [trace] in Ht.
  unfold fallbackEvents, sendEvents.
  destruct res as [[]|e]; cbn [isNormal] in Ht.
  - exists w1, k, true. split; [reflexivity|]. split; [exact Hk|].
    rewrite Ht, <- !app_assoc, app_nil_r. reflexivity.
  - eexists _, k, false. split; [reflexivity|]. split; [exact Hk|].
    unfold log, emit. cbn [trace].
    rewrite Ht, <- !app_assoc. reflexivity.
Qed.

(** The task of a message, stage by stage: the events of the generator,
    then one run of the dispatcher with the reply, then the [catch] branch
    when that run has failed; the [catch] branch alone when the generator
    has thrown. *)
Lemma processTask_stages (message : Message) (w : World) :
  exists w' gen rest,
    processTask cfg message w = (Normal tt, w') /\
    trace (snd (processMessage cfg message w)) = trace w ++ gen /\
    Forall calm gen /\
    trace w' = trace w ++ gen ++ rest /\
    match fst (processMessage cfg message w) with
    | Normal response =>
      exists k, k < 3 /\
        (rest = sendEvents cfg message response k true \/
         exists k2 ok2, k2 < 3 /\
           rest = sendEvents cfg message response k false
                  ++ fallbackEvents cfg message k2 ok2)
    | Throw _ =>
      exists k2 ok2, k2 < 3 /\ rest = fallbackEvents cfg message k2 ok2
    end.
Proof.
  unfold processTask, tryCatch at 1, bind at 1.
  destruct (processMessage cfg message w) as [[response|e] w1] eqn:Hpm;
    pose proof (processMessage_calm message w _ _ Hpm) as (_ & gen & Ht1 & Hc1);
    cbn [fst snd].
  - destruct (sendMessageToBot cfg (replyUrl cfg message) response w1)
      as [[[]|e] w2] eqn:Hsend;
      pose proof (sendMessageToBot_run _ _ _ _ _ Hsend) as (_ & k & Hk & Ht2);
      cbn [isNormal] in Ht2.
    + exists w2, gen, (sendEvents cfg message response k true).
      split; [reflexivity|]. split; [exact Ht1|]. split; [exact Hc1|]. split.
      * unfold sendEvents. rewrite Ht2, Ht1, <- app_assoc. reflexivity.
      * exists k. split; [exact Hk|]. left. reflexivity.
    + destruct (fallback_stage message w2) as (w3 & k2 & ok2 & Hrun & Hk2 & Ht3).
      exists w3, gen, (sendEvents cfg message response k false
                       ++ fallbackEvents cfg message k2 ok2).
      split; [exact Hrun|]. split; [exact Ht1|]. split; [exact Hc1|]. split.
      * unfold sendEvents. rewrite Ht3, Ht2, Ht1, <- !app_assoc. reflexivity.
      * exists k. split; [exact Hk|]. right. exists k2, ok2. auto.
  - destruct (fallback_stage message w1) as (w3 & k2 & ok2 & Hrun & Hk2 & Ht3).
    exists w3, gen, (fallbackEvents cfg message k2 ok2).
    split; [exact Hrun|]. split; [exact Ht1|]. split; [exact Hc1|]. split.
    + rewrite Ht3, Ht1, <- app_assoc. reflexivity.
    + exists k2, ok2. auto.
Qed.

End Task.

(** ** The drain loop and the handler as a state machine *)

Section Machine.

Variable cfg : Config.

Lemma processTask_normal (message : Message) (w : World) :
  fst (processTask cfg message w) = Normal tt.
Proof.
  destruct (processTask_run cfg message w) as (w' & -> & _). reflexivity.
Qed.

Lemma runBatch_cons (message : Message) (rest : list Message)
    (nets : nat -> Network) (j : nat) :
  runBatch cfg (message :: rest) nets j
  = ObsTask message (Normal tt)
      (trace (snd (processTask cfg message (startWorld (nets j)))))
    :: runBatch cfg rest nets (S j).
Proof.
  cbn [runBatch].
  pose proof (processTask_normal message (startWorld (nets j))) as H.
  destruct (processTask cfg message (startWorld (nets j))) as [res w].
  cbn in H. now subst res.
Qed.

Lemma runBatch_fulfilled (batch : list Message) (nets : nat -> Network) :
  forall j, forallb fulfilled (runBatch cfg batch nets j) = true.
Proof.
  induction batch as [|m rest IH]; intros j; [reflexivity|].
  rewrite runBatch_cons. cbn. apply IH.
Qed.

(** A settled batch shows one task per message, in the order of the batch,
    and nothing else. *)
Lemma runBatch_obs (batch : list Message) (nets : nat -> Network) :
  forall j,
    map fst (tasks (runBatch cfg batch nets j)) = batch /\
    pushes (runBatch cfg batch nets j) = [] /\
    batches (runBatch cfg batch nets j) = [] /\
    exits (runBatch cfg batch nets j) = 0 /\
    ~ In ObsCrash (runBatch cfg batch nets j) /\
    ~ In ObsExit (runBatch cfg batch nets j).
Proof.
  induction batch as [|m rest IH]; intros j.
  - cbn. tauto.
  - rewrite runBatch_cons. destruct (IH (S j)) as (Ht & Hp & Hb & He & Hc & Hx).
    generalize (trace (snd (processTask cfg m (startWorld (nets j))))) as t.
    intros t. unfold tasks, pushes, batches, exits in *.
    cbn [flat_map filter app map fst In]. rewrite Ht.
    repeat split; auto; intros [H|H]; try discriminate; auto.
Qed.

(** Task number [j] of a settled batch is the run of [processTask] on
    message number [j], against the network it met. *)
Lemma runBatch_nth (batch : list Message) (nets : nat -> Network) :
  forall j0 j message,
    nth_error batch j = Some message ->
    nth_error (tasks (runBatch cfg batch nets j0)) j
    = Some (message,
            trace (snd (processTask cfg message (startWorld (nets (j0 + j)))))).
Proof.
  induction batch as [|m rest IH]; intros j0 j message Hj.
  - destruct j; discriminate.
  - rewrite runBatch_cons. unfold tasks. cbn [flat_map app].
    destruct j as [|j]; cbn [nth_error] in Hj |- *.
    + injection Hj as <-. now rewrite Nat.add_0_r.
    + rewrite <- Nat.add_succ_comm. apply IH. exact Hj.
Qed.

Lemma task_in_runBatch (batch : list Message) (nets : nat -> Network) :
  forall j0 j message,
    nth_error batch j = Some message ->
    In (ObsTask message (Normal tt)
          (trace (snd (processTask cfg message (startWorld (nets (j0 + j)))))))
       (runBatch cfg batch nets j0).
Proof.
  induction batch as [|m rest IH]; intros j0 j message Hj.
  - destruct j; discriminate.
  - rewrite runBatch_cons. destruct j as [|j]; cbn [nth_error] in Hj.
    + injection Hj as <-. left. now rewrite Nat.add_0_r.
    + right. rewrite <- Nat.add_succ_comm. apply IH. exact Hj.
Qed.

(** Since no task rejects, a settled batch always lets its loop go on. *)
Lemma settle_run (k : nat) (nets : nat -> Network) (s : State) :
  settle cfg k nets s =
  match nth_error (loops s) k with
  | None => (s, [])
  | Some lp =>
    let (s', obs) :=
      processQueueParallel (maxConcurrent lp)
        {| messageQueue := messageQueue s;
           processingPromise := processingPromise s;
           loops := removeAt k (loops s) |} in
    (s', runBatch cfg (batch lp) nets 0 ++ obs)
  end.
Proof.
  unfold settle. destruct (nth_error (loops s) k) as [lp|]; [|reflexivity].
  now rewrite runBatch_fulfilled.
Qed.

Lemma pushes_app (a b : list Obs) : pushes (a ++ b) = pushes a ++ pushes b.
Proof. apply flat_map_app. Qed.

Lemma batches_app (a b : list Obs) : batches (a ++ b) = batches a ++ batches b.
Proof. apply flat_map_app. Qed.

Lemma removed_app (a b : list Obs) : removed (a ++ b) = removed a ++ removed b.
Proof. unfold removed. now rewrite batches_app, concat_app. Qed.

Lemma tasks_app (a b : list Obs) : tasks (a ++ b) = tasks a ++ tasks b.
Proof. apply flat_map_app. Qed.

(** What [processQueueParallel] does at the top of its loop. *)
Lemma processQueueParallel_run (maxConcurrent : nat) (s s' : State) (obs : list Obs) :
  processQueueParallel maxConcurrent s = (s', obs) ->
  (messageQueue s = [] /\ obs = [ObsExit] /\
   messageQueue s' = [] /\ processingPromise s' = None /\ loops s' = loops s) \/
  (messageQueue s <> [] /\
   obs = [ObsBatch (firstn maxConcurrent (messageQueue s))] /\
   messageQueue s' = skipn maxConcurrent (messageQueue s) /\
   processingPromise s' = processingPromise s /\
   loops s' = loops s ++ [{| maxConcurrent := maxConcurrent;
                             batch := firstn maxConcurrent (messageQueue s) |}]).
Proof.
  unfold processQueueParallel. intros H.
  destruct (messageQueue s) as [|m q] eqn:Hq; injection H as <- <-.
  - left. cbn. auto.
  - right. cbn [messageQueue processingPromise loops].
    repeat split; auto. discriminate.
Qed.

(** Every step keeps the books: what was waiting plus what was pushed is
    what was taken out plus what is waiting now, in order. *)
Lemma step_conserves (s : State) (i : Input) (s' : State) (obs : list Obs) :
  step cfg s i = (s', obs) ->
  messageQueue s ++ pushes obs = removed obs ++ messageQueue s'.
Proof.
  destruct i as [req | k nets]; cbn [step].
  - unfold handler.
    destruct (String.eqb (req_method req) "POST");
      [|destruct (String.eqb (req_method req) "GET");
        intros H; injection H as <- <-; cbn; rewrite ?app_nil_r; reflexivity].
    destruct (req_json req) as [data|e];
      [|intros H; injection H as <- <-; cbn; rewrite ?app_nil_r; reflexivity].
    destruct (looseEqBot cfg (from_uid data));
      [intros H; injection H as <- <-; cbn; rewrite ?app_nil_r; reflexivity|].
    destruct (inGroup (target data) && negb (mentionedAtGroup cfg data));
      [intros H; injection H as <- <-; cbn; rewrite ?app_nil_r; reflexivity|].
    cbn [processingPromise].
    destruct (processingPromise s).
    + intros H. injection H as <- <-. cbn. rewrite ?app_nil_r. reflexivity.
    + destruct (processQueueParallel defaultMaxConcurrent _) as [s1 o1] eqn:Hp.
      intros H. injection H as <- <-.
      apply processQueueParallel_run in Hp. cbn [messageQueue] in Hp.
      destruct Hp as [(Hq & _) | (_ & -> & Hq' & _)].
      * destruct (messageQueue s); discriminate.
      * cbn -[firstn skipn]. rewrite Hq', ?app_nil_r. symmetry. apply firstn_skipn.
  - rewrite settle_run. destruct (nth_error (loops s) k) as [lp|];
      [|intros H; injection H as <- <-; cbn; rewrite ?app_nil_r; reflexivity].
    destruct (processQueueParallel (maxConcurrent lp) _) as [s1 o1] eqn:Hp.
    intros H. injection H as <- <-.
    destruct (runBatch_obs (batch lp) nets 0) as (_ & Hpu & Hba & _).
    rewrite pushes_app, removed_app, Hpu. unfold removed at 1. rewrite Hba.
    apply processQueueParallel_run in Hp. cbn [messageQueue] in Hp.
    destruct Hp as [(Hq & -> & Hq' & _) | (_ & -> & Hq' & _)].
    + cbn. now rewrite Hq, Hq'.
    + cbn -[firstn skipn]. rewrite Hq', ?app_nil_r. symmetry. apply firstn_skipn.
Qed.

Lemma run_cons (s : State) (i : Input) (rest : list Input) :
  run cfg s (i :: rest)
  = (fst (run cfg (fst (step cfg s i)) rest),
     snd (step cfg s i) ++ snd (run cfg (fst (step cfg s i)) rest)).
Proof.
  cbn [run]. destruct (step cfg s i) as [s1 o1]. cbn [fst snd].
  now destruct (run cfg s1 rest).
Qed.

Lemma run_app (s : State) (a b : list Input) :
  run cfg s (a ++ b)
  = (fst (run cfg (fst (run cfg s a)) b),
     snd (run cfg s a) ++ snd (run cfg (fst (run cfg s a)) b)).
Proof.
  revert s. induction a as [|i a IH]; intros s.
  - cbn. now destruct (run cfg s b).
  - cbn [app]. rewrite !run_cons, IH. cbn [fst snd]. now rewrite app_assoc.
Qed.

Lemma run_conserves (inputs : list Input) :
  forall s s' obs,
    run cfg s inputs = (s', obs) ->
    messageQueue s ++ pushes obs = removed obs ++ messageQueue s'.
Proof.
  induction inputs as [|i rest IH]; intros s s' obs H.
  - injection H as <- <-. cbn. now rewrite app_nil_r.
  - rewrite run_cons in H. injection H as <- <-.
    pose proof (step_conserves s i _ _ (surjective_pairing _)) as H1.
    pose proof (IH _ _ _ (surjective_pairing (run cfg (fst (step cfg s i)) rest))) as H2.
    rewrite pushes_app, removed_app, app_assoc, H1, <- !app_assoc. now rewrite H2.
Qed.

(** The handler either answers without touching the state, or accepts the
    message: it pushes it and, when the flag is clear, starts a loop, which
    takes its first batch at once. *)
Lemma handler_cases (req : HttpRequest) (s s' : State) (obs : list Obs) :
  handler cfg req s = (s', obs) ->
  (s' = s /\ pushes obs = [] /\ batches obs = [] /\ ~ In ObsExit obs /\
   forall data,
     req_method req = "POST"%string -> req_json req = Normal data ->
     looseEqBot cfg (from_uid data) = true \/
     inGroup (target data) && negb (mentionedAtGroup cfg data) = true) \/
  (exists data,
     req_method req = "POST"%string /\ req_json req = Normal data /\
     looseEqBot cfg (from_uid data) = false /\
     inGroup (target data) && negb (mentionedAtGroup cfg data) = false /\
     ((exists p, processingPromise s = Some p /\
         s' = {| messageQueue := messageQueue s ++ [data];
                 processingPromise := Some p; loops := loops s |} /\
         obs = [ObsPush data; ObsResponse 200 (lit "Message queued")]) \/
      (processingPromise s = None /\
       messageQueue s' = skipn defaultMaxConcurrent (messageQueue s ++ [data]) /\
       processingPromise s' = Some DrainPromise /\
       loops s' = loops s ++
                  [{| maxConcurrent := defaultMaxConcurrent;
                      batch := firstn defaultMaxConcurrent (messageQueue s ++ [data]) |}] /\
       obs = [ObsPush data;
              ObsBatch (firstn defaultMaxConcurrent (messageQueue s ++ [data]));
              ObsResponse 200 (lit "Message queued")]))).
Proof.
  unfold handler.
  destruct (String.eqb (req_method req) "POST") eqn:Hpost.
  2:{ assert (req_method req <> "POST"%string) as Hne
        by (intros E; rewrite E in Hpost; discriminate).
      destruct (String.eqb (req_method req) "GET");
        intros H; injection H as <- <-; left; cbn;
          repeat split; auto; try (intros [E|[]]; discriminate);
            intros; contradiction. }
  apply String.eqb_eq in Hpost.
  destruct (req_json req) as [data|e].
  2:{ intros H; injection H as <- <-; left; cbn.
      repeat split; auto; try (intros [E|[]]; discriminate).
      intros; discriminate. }
  destruct (looseEqBot cfg (from_uid data)) eqn:Hself.
  { intros H; injection H as <- <-; left; cbn.
    repeat split; auto; try (intros [E|[]]; discriminate).
    intros d _ E. injection E as <-. auto. }
  destruct (inGroup (target data) && negb (mentionedAtGroup cfg data)) eqn:Hgrp.
  { intros H; injection H as <- <-; left; cbn.
    repeat split; auto; try (intros [E|[]]; discriminate).
    intros d _ E. injection E as <-. auto. }
  cbn [processingPromise]. intros H. right. exists data.
  repeat (split; [assumption || reflexivity|]).
  destruct (processingPromise s) as [p|] eqn:Hflag.
  - injection H as <- <-. left. exists p. destruct s. cbn in *. subst. auto.
  - right. split; [reflexivity|].
    destruct (processQueueParallel defaultMaxConcurrent _) as [s1 o1] eqn:Hp.
    injection H as <- <-.
    apply processQueueParallel_run in Hp.
    cbn [messageQueue processingPromise loops] in Hp.
    destruct Hp as [(Hq & _) | (_ & -> & Hq' & _ & Hl)].
    + destruct (messageQueue s); discriminate.
    + cbn [messageQueue processingPromise loops]. auto.
Qed.

Lemma settle_cases (k : nat) (nets : nat -> Network) (s s' : State) (obs : list Obs) :
  settle cfg k nets s = (s', obs) ->
  (nth_error (loops s) k = None /\ s' = s /\ obs = []) \/
  (exists lp o,
     nth_error (loops s) k = Some lp /\
     obs = runBatch cfg (batch lp) nets 0 ++ o /\
     processQueueParallel (maxConcurrent lp)
       {| messageQueue := messageQueue s;
          processingPromise := processingPromise s;
          loops := removeAt k (loops s) |} = (s', o)).
Proof.
  rewrite settle_run. destruct (nth_error (loops s) k) as [lp|].
  - destruct (processQueueParallel (maxConcurrent lp) _) as [s1 o1] eqn:Hp.
    intros H. injection H as <- <-. right. exists lp, o1. auto.
  - intros H. injection H as <- <-. left. auto.
Qed.

Lemma nth_error_singleton {A} (x y : A) (k : nat) :
  nth_error [x] k = Some y -> k = 0 /\ y = x.
Proof.
  destruct k as [|k]; cbn.
  - intros H. injection H as <-. auto.
  - destruct k; discriminate.
Qed.

Lemma step_owned (s : State) (i : Input) (s' : State) (obs : list Obs) :
  owned s -> step cfg s i = (s', obs) -> owned s'.
Proof.
  intros Hs. destruct i as [req | k nets]; cbn [step]; intros H.
  - apply handler_cases in H.
    destruct H as [(-> & _) | (data & _ & _ & _ & _ & [(p & Hflag & -> & _) | (Hflag & Hq & Hp & Hl & _)])].
    + exact Hs.
    + unfold owned in *. rewrite Hflag in Hs. exact Hs.
    + unfold owned in *. rewrite Hflag in Hs. destruct Hs as [Hq0 Hl0].
      rewrite Hp, Hl, Hl0. cbn [app]. eauto.
  - apply settle_cases in H.
    destruct H as [(_ & -> & _) | (lp & o & Hk & _ & Hp)]; [exact Hs|].
    unfold owned in Hs. destruct (processingPromise s) as [p|] eqn:Hflag.
    + destruct Hs as (lp0 & Hl0 & Hmc). rewrite Hl0 in Hk.
      apply nth_error_singleton in Hk. destruct Hk as [-> ->].
      apply processQueueParallel_run in Hp.
      cbn [messageQueue processingPromise loops] in Hp. rewrite Hl0 in Hp.
      unfold owned.
      destruct Hp as [(Hq & _ & Hq' & Hf' & Hl') | (_ & _ & _ & Hf' & Hl')];
        rewrite Hf'.
      * rewrite Hl'. auto.
      * rewrite ?Hflag, Hl'. cbn. eauto.
    + destruct Hs as [_ Hl0]. rewrite Hl0 in Hk. destruct k; discriminate.
Qed.

Lemma run_owned (inputs : list Input) :
  forall s s' obs, owned s -> run cfg s inputs = (s', obs) -> owned s'.
Proof.
  induction inputs as [|i rest IH]; intros s s' obs Hs H.
  - injection H as <- <-. exact Hs.
  - rewrite run_cons in H. injection H as <- <-.
    eapply IH; [|apply surjective_pairing].
    eapply step_owned; [exact Hs | apply surjective_pairing].
Qed.

Lemma initial_owned : owned initial.
Proof. cbn. auto. Qed.

(** A loop returns only from a step that found the queue empty, and that
    step clears the flag. *)
Lemma step_exit (s : State) (i : Input) (s' : State) (obs : list Obs) :
  step cfg s i = (s', obs) -> In ObsExit obs ->
  messageQueue s = [] /\ messageQueue s' = [] /\ processingPromise s' = None.
Proof.
  destruct i as [req | k nets]; cbn [step]; intros H Hin.
  - apply handler_cases in H.
    destruct H as [(_ & _ & _ & Hno & _) | (data & _ & _ & _ & _ & [(p & _ & _ & ->) | (_ & _ & _ & _ & ->)])].
    + contradiction.
    + cbn in Hin. destruct Hin as [E|[E|[]]]; discriminate.
    + cbn in Hin. destruct Hin as [E|[E|[E|[]]]]; discriminate.
  - apply settle_cases in H.
    destruct H as [(_ & _ & ->) | (lp & o & _ & -> & Hp)]; [contradiction|].
    apply in_app_or in Hin. destruct Hin as [Hin|Hin].
    + now apply (runBatch_obs (batch lp) nets 0) in Hin.
    + apply processQueueParallel_run in Hp. cbn [messageQueue] in Hp.
      destruct Hp as [(Hq & _ & Hq' & Hf' & _) | (_ & -> & _)]; [auto|].
      destruct Hin as [E|[]]; discriminate.
Qed.

(** The flag goes from set to clear only in a step in which a loop
    returns. *)
Lemma step_clears (s : State) (i : Input) (s' : State) (obs : list Obs) :
  step cfg s i = (s', obs) ->
  processingPromise s <> None -> processingPromise s' = None ->
  In ObsExit obs.
Proof.
  destruct i as [req | k nets]; cbn [step]; intros H Hset Hclear.
  - apply handler_cases in H.
    destruct H as [(-> & _) | (data & _ & _ & _ & _ & [(p & _ & -> & _) | (_ & _ & Hp & _)])].
    + contradiction.
    + discriminate.
    + congruence.
  - apply settle_cases in H.
    destruct H as [(_ & -> & _) | (lp & o & _ & -> & Hp)]; [contradiction|].
    apply in_or_app. right.
    apply processQueueParallel_run in Hp. cbn [processingPromise] in Hp.
    destruct Hp as [(_ & -> & _) | (_ & _ & _ & Hf' & _)]; [now left | congruence].
Qed.

(** A step adds a loop only when the flag was clear. *)
Lemma step_spawns (s : State) (i : Input) (s' : State) (obs : list Obs) :
  owned s -> step cfg s i = (s', obs) ->
  List.length (loops s) < List.length (loops s') ->
  processingPromise s = None.
Proof.
  intros Hs H Hmore. destruct i as [req | k nets]; cbn [step] in H.
  - apply handler_cases in H.
    destruct H as [(-> & _) | (data & _ & _ & _ & _ & [(p & _ & -> & _) | (Hflag & _)])].
    + lia.
    + cbn in Hmore. lia.
    + exact Hflag.
  - apply settle_cases in H.
    destruct H as [(_ & -> & _) | (lp & o & Hk & _ & Hp)]; [lia|].
    unfold owned in Hs. destruct (processingPromise s) as [p|]; [|reflexivity].
    destruct Hs as (lp0 & Hl0 & _). rewrite Hl0 in Hk, Hmore.
    apply nth_error_singleton in Hk. destruct Hk as [-> ->].
    apply processQueueParallel_run in Hp. cbn [loops] in Hp. rewrite Hl0 in Hp.
    destruct Hp as [(_ & _ & _ & _ & Hl') | (_ & _ & _ & _ & Hl')];
      rewrite Hl' in Hmore; cbn in Hmore; lia.
Qed.

End Machine.

(** ** The queue *)

Lemma NoDup_app_l {A} (a b : list A) : NoDup (a ++ b) -> NoDup a.
Proof.
  induction a as [|x a IH]; cbn; intros H; [constructor|].
  inversion H as [|? ? Hx Hnd]; subst. constructor; [|auto].
  intros Hin. apply Hx. apply in_or_app. now left.
Qed.

Lemma NoDup_app_disjoint {A} (a b : list A) (x : A) :
  NoDup (a ++ b) -> In x a -> ~ In x b.
Proof.
  induction a as [|y a IH]; cbn; intros H Hin; [contradiction|].
  inversion H as [|? ? Hy Hnd]; subst. destruct Hin as [-> | Hin]; [|auto].
  intros Hb. apply Hy. apply in_or_app. now right.
Qed.

(** C1 -- In every run of the system from its initial state, the messages
    taken out of the queue so far, followed by the messages still waiting,
    are the messages pushed so far, in the order of the pushes: a message is
    taken out at most once and none is lost.  What has been taken out stays
    so in every continuation of the run (with distinct message ids: it is
    neither waiting nor in a later batch).  A loop returns only from a step
    that found the queue empty, and whenever no loop is active the queue is
    empty and every pushed message has been taken out. *)
Theorem queue_conserved (cfg : Config) (inputs : list Input)
    (s : State) (obs : list Obs) :
  run cfg initial inputs = (s, obs) ->
  pushes obs = removed obs ++ messageQueue s /\
  (processingPromise s = None ->
   messageQueue s = [] /\ removed obs = pushes obs) /\
  (NoDup (map mid (pushes obs)) -> NoDup (map mid (removed obs))) /\
  (forall more s2 obs2,
     run cfg s more = (s2, obs2) ->
     pushes (obs ++ obs2) = removed obs ++ removed obs2 ++ messageQueue s2 /\
     (NoDup (map mid (pushes (obs ++ obs2))) ->
      forall x, In x (map mid (removed obs)) ->
                ~ In x (map mid (removed obs2 ++ messageQueue s2)))) /\
  (forall i s2 o,
     step cfg s i = (s2, o) -> In ObsExit o ->
     messageQueue s = [] /\ messageQueue s2 = []).
Proof.
  intros Hrun.
  pose proof (run_conserves cfg inputs _ _ _ Hrun) as Hc. cbn [initial messageQueue app] in Hc.
  pose proof (run_owned cfg inputs _ _ _ (initial_owned) Hrun) as Ho.
  split; [exact Hc|]. split; [|split; [|split]].
  - intros Hidle. unfold owned in Ho. rewrite Hidle in Ho. destruct Ho as [Hq _].
    rewrite Hq, app_nil_r in Hc. auto.
  - rewrite Hc, map_app. apply NoDup_app_l.
  - intros more s2 obs2 Hmore.
    pose proof (run_conserves cfg more _ _ _ Hmore) as Hc2.
    assert (Hall : pushes (obs ++ obs2)
                   = removed obs ++ removed obs2 ++ messageQueue s2).
    { rewrite pushes_app, Hc, <- app_assoc, Hc2. reflexivity. }
    split; [exact Hall|].
    rewrite Hall, map_app. intros Hnd x Hx.
    eapply NoDup_app_disjoint; eauto.
  - intros i s2 o Hstep Hexit.
    destruct (step_exit cfg s i s2 o Hstep Hexit) as (H1 & H2 & _). auto.
Qed.

Lemma queue_conserved_witness :
  pushes (snd (run exampleCfg initial threeThenDrain)) = [m1; m2; m3] /\
  removed (snd (run exampleCfg initial threeThenDrain)) = [m1; m2; m3] /\
  messageQueue (fst (run exampleCfg initial threeThenDrain)) = [].
Proof.
  destruct (queue_conserved exampleCfg threeThenDrain _ _
              (surjective_pairing (run exampleCfg initial threeThenDrain)))
    as (_ & Hidle & _).
  destruct Hidle as [Hq Hr]; [vm_compute; reflexivity|].
  split; [vm_compute; reflexivity|]. split; [|exact Hq].
  rewrite Hr. vm_compute. reflexivity.
Defined.

(** C2 -- In every state the system can reach, at most one drain loop
    exists, and one exists exactly when [processingPromise] is set.  A step
    adds a loop only from a state in which [processingPromise] is null, and
    [processingPromise] goes back to null only in a step in which the loop
    found the queue empty and returned. *)
Theorem single_drain_loop (cfg : Config) (inputs : list Input)
    (s : State) (obs : list Obs) :
  run cfg initial inputs = (s, obs) ->
  List.length (loops s) <= 1 /\
  (processingPromise s = None <-> loops s = []) /\
  (forall i s2 o,
     step cfg s i = (s2, o) ->
     (List.length (loops s) < List.length (loops s2) ->
      processingPromise s = None) /\
     (processingPromise s <> None -> processingPromise s2 = None ->
      In ObsExit o /\ messageQueue s = [])).
Proof.
  intros Hrun.
  pose proof (run_owned cfg inputs _ _ _ (initial_owned) Hrun) as Ho.
  split; [|split].
  - unfold owned in Ho. destruct (processingPromise s).
    + destruct Ho as (lp & -> & _). cbn. lia.
    + destruct Ho as [_ ->]. cbn. lia.
  - unfold owned in Ho. destruct (processingPromise s).
    + destruct Ho as (lp & -> & _). split; discriminate.
    + destruct Ho as [_ ->]. tauto.
  - intros i s2 o Hstep. split.
    + now apply (step_spawns cfg s i s2 o).
    + intros Hset Hclear.
      pose proof (step_clears cfg s i s2 o Hstep Hset Hclear) as Hexit.
      split; [exact Hexit|].
      now destruct (step_exit cfg s i s2 o Hstep Hexit).
Qed.

Lemma single_drain_loop_witness :
  List.length (loops (fst (run exampleCfg initial [Webhook (post m1)]))) <= 1 /\
  In ObsExit
    (snd (step exampleCfg (fst (run exampleCfg initial [Webhook (post m1)]))
            (Settle 0 (fun _ => healthy)))) /\
  messageQueue (fst (run exampleCfg initial [Webhook (post m1)])) = [].
Proof.
  destruct (single_drain_loop exampleCfg [Webhook (post m1)] _ _
              (surjective_pairing _)) as (Hle & _ & Hstep).
  split; [exact Hle|].
  apply (Hstep (Settle 0 (fun _ => healthy)) _ _ (surjective_pairing _)).
  - vm_compute. discriminate.
  - vm_compute. reflexivity.
Defined.

(** ** The transport seen from the dispatcher *)

Lemma resolved_response_ends_the_call_witness :
  (exists w',
     fetchWithRetry exampleUrl exampleOptions defaultMaxRetries unavailable
     = (Normal (okResponse 503 (VObj [])), w') /\
     newEvents unavailable w' = [EvFetch exampleUrl exampleOptions]) /\
  (exists w',
     sendMessageToBot exampleCfg exampleUrl (lit "hi") unavailable
     = (Normal tt, w')).
Proof.
  destruct (resolved_response_ends_the_call exampleCfg exampleUrl exampleOptions
              defaultMaxRetries unavailable) as (Hfirst & _ & Hsend).
  split.
  - destruct (Hfirst 0 (okResponse 503 (VObj []))) as (w' & Hrun & Hev & _).
    + unfold defaultMaxRetries. lia.
    + intros j Hj. lia.
    + reflexivity.
    + exists w'. split; [exact Hrun | exact Hev].
  - apply (Hsend (lit "hi") 0 (okResponse 503 (VObj [])) (VObj [])).
    + unfold defaultMaxRetries. lia.
    + intros j Hj. lia.
    + reflexivity.
    + reflexivity.
Defined.

(** ** Failure isolation in a batch *)

Lemma runBatch_deliveries (cfg : Config) (batch : list Message)
    (nets : nat -> Network) :
  forall j,
    Forall (fun mt => oneOrTwo (deliveries None (snd mt)))
           (tasks (runBatch cfg batch nets j)).
Proof.
  induction batch as [|m rest IH]; intros j; [constructor|].
  rewrite runBatch_cons. unfold tasks. cbn [flat_map app]. constructor; [|apply IH].
  cbn [snd].
  destruct (processTask_run cfg m (startWorld (nets j)))
    as (w' & Hrun & _ & _ & Hds).
  rewrite Hrun. cbn [snd]. cbn zeta in Hds.
  change (newEvents (startWorld (nets j)) w') with (trace w') in Hds.
  destruct (fst (processMessage cfg m (startWorld (nets j)))).
  - destruct Hds as [[-> _] | [[-> _] | [-> _]]]; exact I.
  - destruct Hds as [[-> _] | [-> _]]; exact I.
Qed.

(** C6 -- The task of a message runs the generator, then the dispatcher
    with the generated reply; when that delivery fails it makes exactly one
    more, of the fixed failure message, to the same reply URL; when that
    fails too the failure line is logged and nothing else happens.  (When
    the generator itself throws, the fixed message is the only delivery.)
    The task always completes normally.  When a batch settles, task number
    [j] is this task run on message number [j] of the batch: its events are
    the generator's, then one run of the dispatcher with the reply, then
    the [catch] branch if that run failed.  So a settled batch never ends
    its loop: every message of the batch has had its task, nothing is
    pushed back, and the queue has only lost what the loop took for its
    next batch. *)
Theorem task_failures_are_isolated (cfg : Config) :
  (forall message w,
     exists w',
       processTask cfg message w = (Normal tt, w') /\
       let ds := deliveries None (newEvents w w') in
       let logged := failureLogged (newEvents w w') in
       match fst (processMessage cfg message w) with
       | Normal response =>
         ds = [delivery cfg message response true] /\ logged = false \/
         ds = [delivery cfg message response false;
               delivery cfg message errorMessage true] /\ logged = false \/
         ds = [delivery cfg message response false;
               delivery cfg message errorMessage false] /\ logged = true
       | Throw _ =>
         ds = [delivery cfg message errorMessage true] /\ logged = false \/
         ds = [delivery cfg message errorMessage false] /\ logged = true
       end) /\
  (forall k nets s s' obs,
     settle cfg k nets s = (s', obs) ->
     ~ In ObsCrash obs /\
     pushes obs = [] /\
     messageQueue s = removed obs ++ messageQueue s' /\
     forall lp, nth_error (loops s) k = Some lp ->
                map fst (tasks obs) = batch lp /\
                List.length (loops s') + exits obs = List.length (loops s) /\
                forall j message,
                  nth_error (batch lp) j = Some message ->
                  let start := startWorld (nets j) in
                  let generated := processMessage cfg message start in
                  exists w' rest,
                    processTask cfg message start = (Normal tt, w') /\
                    nth_error (tasks obs) j = Some (message, trace w') /\
                    In (ObsTask message (Normal tt) (trace w')) obs /\
                    Forall calm (trace (snd generated)) /\
                    trace w' = trace (snd generated) ++ rest /\
                    match fst generated with
                    | Normal response =>
                      exists i, i < 3 /\
                        (rest = sendEvents cfg message response i true /\
                         deliveries None (trace w')
                         = [delivery cfg message response true] \/
                         exists i2 ok2, i2 < 3 /\
                           rest = sendEvents cfg message response i false
                                  ++ fallbackEvents cfg message i2 ok2 /\
                           deliveries None (trace w')
                           = [delivery cfg message response false;
                              delivery cfg message errorMessage ok2] /\
                           failureLogged (trace w') = negb ok2)
                    | Throw _ =>
                      exists i2 ok2, i2 < 3 /\
                        rest = fallbackEvents cfg message i2 ok2 /\
                        deliveries None (trace w')
                        = [delivery cfg message errorMessage ok2] /\
                        failureLogged (trace w') = negb ok2
                    end).
Proof.
  split.
  - intros message w.
    destruct (processTask_run cfg message w) as (w' & Hrun & _ & _ & Hds).
    exists w'. split; [exact Hrun | exact Hds].
  - intros k nets s s' obs Hsettle.
    pose proof (step_conserves cfg s (Settle k nets) s' obs Hsettle) as Hc.
    apply settle_cases in Hsettle.
    destruct Hsettle as [(Hk & -> & ->) | (lp & o & Hk & -> & Hp)].
    + split; [intros []|]. split; [reflexivity|]. split; [reflexivity|].
      intros lp0 Hlp. congruence.
    + destruct (runBatch_obs cfg (batch lp) nets 0) as (Ht & Hpu & Hba & Hex & Hcr & Hxi).
      apply processQueueParallel_run in Hp.
      cbn [messageQueue processingPromise loops] in Hp.
      assert (Hlen : S (List.length (removeAt k (loops s))) = List.length (loops s)).
      { unfold removeAt. apply nth_error_split in Hk.
        destruct Hk as (l1 & l2 & Hl & Hlen). rewrite Hl, <- Hlen.
        rewrite firstn_app, firstn_all, Nat.sub_diag, app_nil_r.
        replace (S (List.length l1)) with (List.length (l1 ++ [lp]))
          by (rewrite length_app; cbn; lia).
        replace (l1 ++ lp :: l2) with ((l1 ++ [lp]) ++ l2)
          by (now rewrite <- app_assoc).
        rewrite skipn_app, skipn_all, Nat.sub_diag. cbn.
        rewrite !length_app. cbn. lia. }
      assert (Hpush : pushes (runBatch cfg (batch lp) nets 0 ++ o) = []).
      { rewrite pushes_app, Hpu.
        destruct Hp as [(_ & -> & _) | (_ & -> & _)]; reflexivity. }
      rewrite Hpush, app_nil_r in Hc.
      split; [|split; [exact Hpush | split; [exact Hc|]]].
      * intros Hin. apply in_app_or in Hin. destruct Hin as [Hin | Hin]; [auto|].
        destruct Hp as [(_ & -> & _) | (_ & -> & _)];
          destruct Hin as [E|[]]; discriminate.
      * intros lp' Hlp'. rewrite Hk in Hlp'. injection Hlp' as <-.
        split; [|split].
        -- rewrite tasks_app, map_app, Ht.
           destruct Hp as [(_ & -> & _) | (_ & -> & _)]; cbn; now rewrite app_nil_r.
        -- unfold exits. rewrite filter_app, length_app.
           fold (exits (runBatch cfg (batch lp) nets 0)). rewrite Hex.
           destruct Hp as [(_ & -> & _ & _ & ->) | (_ & -> & _ & _ & ->)]; cbn.
           ++ lia.
           ++ rewrite length_app. cbn. lia.
        -- intros j message Hj. cbn zeta.
           pose proof (runBatch_nth cfg (batch lp) nets 0 j message Hj) as Hnth.
           cbn [Nat.add] in Hnth.
           destruct (processTask_stages cfg message (startWorld (nets j)))
             as (w' & gen & rest & Hrun & Hgen & Hcalm & Htr & Hst).
           rewrite Hrun in Hnth. cbn [snd] in Hnth.
           cbn [startWorld trace app] in Hgen, Htr.
           exists w', rest. split; [exact Hrun|]. split.
           { rewrite tasks_app. rewrite nth_error_app1; [exact Hnth|].
             apply nth_error_Some. rewrite Hnth. discriminate. }
           split.
           { apply in_or_app. left.
             pose proof (task_in_runBatch cfg (batch lp) nets 0 j message Hj) as Hin.
             cbn [Nat.add] in Hin. rewrite Hrun in Hin. exact Hin. }
           rewrite Hgen. split; [exact Hcalm|]. split; [exact Htr|].
           assert (Hq : Forall quiet gen) by (apply calm_quiet; exact Hcalm).
           assert (Hf : failureLogged gen = false)
             by (apply calm_no_failure; exact Hcalm).
           rewrite Htr.
           destruct (fst (processMessage cfg message (startWorld (nets j))))
             as [response|e].
           ++ destruct Hst as (i & Hi & [-> | (i2 & ok2 & Hi2 & ->)]);
                exists i; (split; [exact Hi|]).
              ** left. split; [reflexivity|].
                 rewrite <- (app_nil_r (sendEvents cfg message response i true)).
                 now rewrite (sendEvents_read cfg gen message response i true None [] Hq).
              ** right. exists i2, ok2. split; [exact Hi2|]. split; [reflexivity|].
                 destruct (fallbackEvents_read cfg message i2 ok2
                             (Some (replyUrl cfg message, sendOptions cfg response)))
                   as [Hd Hl].
                 rewrite (sendEvents_read cfg gen message response i false None _ Hq), Hd.
                 split; [reflexivity|].
                 now rewrite !failureLogged_app, Hf, (sendEvents_no_failure cfg), Hl.
           ++ destruct Hst as (i2 & ok2 & Hi2 & ->).
              exists i2, ok2. split; [exact Hi2|]. split; [reflexivity|].
              destruct (deliveries_quiet gen Hq None
                          (fallbackEvents cfg message i2 ok2)) as [last' Hl'].
              rewrite Hl'.
              destruct (fallbackEvents_read cfg message i2 ok2 last') as [Hd Hl].
              rewrite Hd. split; [reflexivity|].
              now rewrite failureLogged_app, Hf, Hl.
Qed.

Lemma task_failures_are_isolated_witness :
  fst (processTask exampleCfg m1 (startWorld replyDown)) = Normal tt /\
  ~ In ObsCrash (snd (settle exampleCfg 0 (fun _ => replyDown) oneInFlight)) /\
  messageQueue (fst (settle exampleCfg 0 (fun _ => replyDown) oneInFlight)) = [] /\
  exists w',
    processTask exampleCfg m1 (startWorld replyDown) = (Normal tt, w') /\
    nth_error (tasks (snd (settle exampleCfg 0 (fun _ => replyDown) oneInFlight))) 0
    = Some (m1, trace w') /\
    List.length (deliveries None (trace w')) = 2.
Proof.
  destruct (task_failures_are_isolated exampleCfg) as [Htask Hsettle].
  split.
  - destruct (Htask m1 (startWorld replyDown)) as (w' & Hrun & _).
    rewrite Hrun. reflexivity.
  - destruct (Hsettle 0 (fun _ => replyDown) oneInFlight _ _ (surjective_pairing _))
      as (Hcrash & _ & _ & Hloop).
    split; [exact Hcrash|]. split; [vm_compute; reflexivity|].
    destruct (Hloop {| maxConcurrent := 3; batch := [m1] |} eq_refl)
      as (_ & _ & Hbatch).
    destruct (Hbatch 0 m1 eq_refl) as (w' & rest & Hrun & Hnth & _).
    exists w'. split; [exact Hrun|]. split; [exact Hnth|].
    replace w' with (snd (processTask exampleCfg m1 (startWorld replyDown)))
      by (rewrite Hrun; reflexivity).
    vm_compute. reflexivity.
Defined.

(** ** Batches *)

Lemma deliveryCount_bounds (ts : list (Message * list Event)) :
  Forall (fun mt => oneOrTwo (deliveries None (snd mt))) ts ->
  List.length ts
  <= list_sum (map (fun mt => List.length (deliveries None (snd mt))) ts)
  <= 2 * List.length ts.
Proof.
  induction 1 as [|mt ts Hmt _ IH]; [cbn; lia|].
  cbn [map List.length].
  change (list_sum (?x :: ?l)) with (x + list_sum l).
  assert (1 <= List.length (deliveries None (snd mt)) <= 2).
  { destruct (deliveries None (snd mt)) as [|[l1 b1] [|[l2 b2] [|d ds]]];
      cbn in *; try contradiction; try lia.
    destruct b1; [contradiction | lia]. }
  lia.
Qed.

Lemma deliveryCount_exact (ts : list (Message * list Event)) :
  Forall (fun mt => oneOrTwo (deliveries None (snd mt))) ts ->
  Forall (fun mt => exists l, hd_error (deliveries None (snd mt)) = Some (l, true)) ts ->
  list_sum (map (fun mt => List.length (deliveries None (snd mt))) ts)
  = List.length ts.
Proof.
  induction 1 as [|mt ts Hmt _ IH]; intros Hok; [reflexivity|].
  inversion Hok as [|? ? (l & Hhd) Hrest]; subst.
  cbn [map List.length].
  change (list_sum (?x :: ?l)) with (x + list_sum l).
  rewrite (IH Hrest).
  destruct (deliveries None (snd mt)) as [|[l1 b1] [|[l2 b2] [|d ds]]];
    cbn in *; try contradiction; try reflexivity;
    injection Hhd as _ ->; contradiction.
Qed.

(** C7 (as amended) -- At the top of its loop, on a non-empty queue,
    [processQueueParallel] takes the first [min maxConcurrent (length
    queue)] messages, in the order of the queue, as its batch and leaves the
    rest waiting; it returns exactly when it finds the queue empty.  The
    next batch is taken only in the step in which the awaited batch
    settles, after every message of that batch has had its task.  With five
    messages waiting and [maxConcurrent = 3] the batches are the first three
    messages, then the last two, and then the loop returns; each of the five
    messages has one task, which makes one delivery, or two when the first
    one failed: between 5 and 10 deliveries in all, and 5 when every first
    delivery succeeds. *)
Theorem drain_takes_batches (cfg : Config) :
  (forall maxConcurrent s s' obs,
     processQueueParallel maxConcurrent s = (s', obs) ->
     (messageQueue s <> [] ->
      obs = [ObsBatch (firstn maxConcurrent (messageQueue s))] /\
      List.length (firstn maxConcurrent (messageQueue s))
      = Nat.min maxConcurrent (List.length (messageQueue s)) /\
      messageQueue s = firstn maxConcurrent (messageQueue s) ++ messageQueue s' /\
      processingPromise s' = processingPromise s) /\
     (In ObsExit obs <-> messageQueue s = [])) /\
  (forall k nets s lp s' obs,
     nth_error (loops s) k = Some lp ->
     settle cfg k nets s = (s', obs) ->
     exists o,
       obs = runBatch cfg (batch lp) nets 0 ++ o /\
       map fst (tasks (runBatch cfg (batch lp) nets 0)) = batch lp /\
       batches (runBatch cfg (batch lp) nets 0) = [] /\
       tasks o = [] /\
       processQueueParallel (maxConcurrent lp)
         {| messageQueue := messageQueue s;
            processingPromise := processingPromise s;
            loops := removeAt k (loops s) |} = (s', o)) /\
  (forall a b c d e nets1 nets2,
     let waiting :=
       {| messageQueue := [a; b; c; d; e];
          processingPromise := Some DrainPromise;
          loops := [] |} in
     let first := processQueueParallel 3 waiting in
     let rest := run cfg (fst first) [Settle 0 nets1; Settle 0 nets2] in
     batches (snd first ++ snd rest) = [[a; b; c]; [d; e]] /\
     map fst (tasks (snd rest)) = [a; b; c; d; e] /\
     In ObsExit (snd rest) /\
     messageQueue (fst rest) = [] /\
     processingPromise (fst rest) = None /\
     Forall (fun mt => oneOrTwo (deliveries None (snd mt))) (tasks (snd rest)) /\
     5 <= deliveryCount (snd rest) <= 10 /\
     (Forall (fun mt => exists l, hd_error (deliveries None (snd mt)) = Some (l, true))
             (tasks (snd rest)) ->
      deliveryCount (snd rest) = 5)).
Proof.
  split; [|split].
  - intros mc s s' obs Hp. apply processQueueParallel_run in Hp.
    destruct Hp as [(Hq & -> & _) | (Hq & -> & Hq' & Hf & _)].
    + split; [contradiction|]. split; [auto | now left].
    + split.
      * intros _. split; [reflexivity|]. split; [apply length_firstn|].
        split; [|exact Hf]. rewrite Hq'. symmetry. apply firstn_skipn.
      * split; [intros [E|[]]; discriminate | contradiction].
  - intros k nets s lp s' obs Hk Hsettle.
    apply settle_cases in Hsettle.
    destruct Hsettle as [(Hnone & _) | (lp' & o & Hk' & -> & Hp)]; [congruence|].
    rewrite Hk in Hk'. injection Hk' as <-.
    destruct (runBatch_obs cfg (batch lp) nets 0) as (Ht & _ & Hb & _).
    exists o. repeat split; auto.
    apply processQueueParallel_run in Hp.
    destruct Hp as [(_ & -> & _) | (_ & -> & _)]; reflexivity.
  - intros a b c d e nets1 nets2 waiting first rest.
    assert (Hrest : snd rest = (runBatch cfg [a; b; c] nets1 0 ++ [ObsBatch [d; e]])
                               ++ runBatch cfg [d; e] nets2 0 ++ [ObsExit]
                    /\ messageQueue (fst rest) = []
                    /\ processingPromise (fst rest) = None).
    { assert (H1 : first = ({| messageQueue := [d; e];
                               processingPromise := Some DrainPromise;
                               loops := [{| maxConcurrent := 3;
                                            batch := [a; b; c] |}] |},
                            [ObsBatch [a; b; c]])) by reflexivity.
      assert (H2 : settle cfg 0 nets1 (fst first)
                   = ({| messageQueue := [];
                         processingPromise := Some DrainPromise;
                         loops := [{| maxConcurrent := 3; batch := [d; e] |}] |},
                      runBatch cfg [a; b; c] nets1 0 ++ [ObsBatch [d; e]])).
      { rewrite H1, settle_run. reflexivity. }
      assert (H3 : settle cfg 0 nets2 (fst (settle cfg 0 nets1 (fst first)))
                   = ({| messageQueue := [];
                         processingPromise := None;
                         loops := [] |},
                      runBatch cfg [d; e] nets2 0 ++ [ObsExit])).
      { rewrite H2, settle_run. reflexivity. }
      subst rest. rewrite !run_cons. cbn [step run fst snd].
      rewrite H3, H2. cbn [fst snd]. rewrite app_nil_r. auto. }
    destruct Hrest as (Hobs & Hq & Hf).
    destruct (runBatch_obs cfg [a; b; c] nets1 0) as (Ht1 & _ & Hb1 & _).
    destruct (runBatch_obs cfg [d; e] nets2 0) as (Ht2 & _ & Hb2 & _).
    assert (Htasks : tasks (snd rest)
                     = tasks (runBatch cfg [a; b; c] nets1 0)
                       ++ tasks (runBatch cfg [d; e] nets2 0)).
    { rewrite Hobs, !tasks_app. cbn. now rewrite !app_nil_r. }
    assert (Hshape : Forall (fun mt => oneOrTwo (deliveries None (snd mt)))
                            (tasks (snd rest))).
    { rewrite Htasks. apply Forall_app. split; apply runBatch_deliveries. }
    assert (Hmsgs : map fst (tasks (snd rest)) = [a; b; c; d; e]).
    { now rewrite Htasks, map_app, Ht1, Ht2. }
    split; [|split; [exact Hmsgs | split; [|split; [exact Hq | split; [exact Hf|]]]]].
    + rewrite Hobs, !batches_app, Hb1, Hb2. reflexivity.
    + rewrite Hobs. apply in_or_app. right. apply in_or_app. right. now left.
    + split; [exact Hshape|].
      pose proof (deliveryCount_bounds _ Hshape) as Hb.
      assert (Hlen : List.length (tasks (snd rest)) = 5).
      { rewrite <- (length_map fst), Hmsgs. reflexivity. }
      unfold deliveryCount. rewrite Hlen in Hb. split; [exact Hb|].
      intros Hok. rewrite (deliveryCount_exact _ Hshape Hok). exact Hlen.
Qed.

Lemma drain_takes_batches_witness :
  batches (snd (processQueueParallel 3 fiveWaiting)
           ++ snd (run exampleCfg (fst (processQueueParallel 3 fiveWaiting))
                     [Settle 0 (fun _ => healthy); Settle 0 (fun _ => down)]))
  = [[m1; m2; m3]; [m4; m5]] /\
  List.length (firstn 3 (messageQueue fiveWaiting)) = 3.
Proof.
  destruct (drain_takes_batches exampleCfg) as (Htop & _ & Hfive).
  split.
  - exact (proj1 (Hfive m1 m2 m3 m4 m5 (fun _ => healthy) (fun _ => down))).
  - destruct (Htop 3 fiveWaiting _ _ (surjective_pairing _)) as [Hne _].
    destruct Hne as (_ & Hlen & _); [discriminate|]. exact Hlen.
Defined.

(** C7 (as stated) fails: when the chat server is down, each of the five
    messages gets two delivery attempts, the reply and the fixed message,
    ten in all and not five. *)
Lemma ten_deliveries_when_down :
  deliveryCount
    (snd (run exampleCfg (fst (processQueueParallel 3 fiveWaiting))
            [Settle 0 (fun _ => down); Settle 0 (fun _ => down)])) = 10 /\
  10 <> 5.
Proof. split; [vm_compute; reflexivity | discriminate]. Qed.

(** ** Admission *)

Lemma mentionedAtGroup_true (cfg : Config) (data : Message) :
  mentionedAtGroup cfg data = true <-> mentioned cfg data.
Proof.
  unfold mentionedAtGroup, mentioned.
  rewrite !orb_true_iff, existsb_exists. tauto.
Qed.

Lemma handler_enqueues (cfg : Config) (req : HttpRequest) (data : Message) (s : State) :
  req_method req = "POST"%string -> req_json req = Normal data ->
  looseEqBot cfg (from_uid data) = false ->
  inGroup (target data) && negb (mentionedAtGroup cfg data) = false ->
  pushes (snd (handler cfg req s)) = [data] /\
  responses (snd (handler cfg req s)) = [(200%N, lit "Message queued")].
Proof.
  intros Hm Hj Hself Hgrp.
  destruct (handler_cases cfg req s _ _ (surjective_pairing (handler cfg req s)))
    as [(_ & _ & _ & _ & Hno)
       | (data' & _ & Hj' & _ & _ & [(p & _ & _ & ->) | (_ & _ & _ & _ & ->)])].
  - destruct (Hno data Hm Hj); congruence.
  - rewrite Hj in Hj'. injection Hj' as <-. split; reflexivity.
  - rewrite Hj in Hj'. injection Hj' as <-. split; reflexivity.
Qed.

(** C8 (as amended) -- For a POST event whose sender is not the bot: when
    it targets a group it is enqueued if and only if the bot is mentioned
    (its id is in the mentions list, or the content contains ['@<bot id>'],
    or the lower-cased content contains ['@chatgpt']), and otherwise it is
    dropped with a 200 response and the state is left as it was; when it is
    direct it is always enqueued. *)
Theorem admission (cfg : Config) (req : HttpRequest) (data : Message) (s : State) :
  req_method req = "POST"%string -> req_json req = Normal data ->
  looseEqBot cfg (from_uid data) = false ->
  match target data with
  | TargetGid _ =>
    (pushes (snd (handler cfg req s)) = [data] <-> mentioned cfg data) /\
    (mentioned cfg data ->
     responses (snd (handler cfg req s)) = [(200%N, lit "Message queued")]) /\
    (~ mentioned cfg data ->
     pushes (snd (handler cfg req s)) = [] /\
     fst (handler cfg req s) = s /\
     responses (snd (handler cfg req s))
     = [(200%N, lit "ignore not mention at group")])
  | TargetUid _ =>
    pushes (snd (handler cfg req s)) = [data] /\
    responses (snd (handler cfg req s)) = [(200%N, lit "Message queued")]
  end.
Proof.
  intros Hm Hj Hself.
  destruct (target data) as [uid | gid] eqn:Htarget.
  - apply handler_enqueues; auto. now rewrite Htarget.
  - destruct (mentionedAtGroup cfg data) eqn:Hmen.
    + assert (Hyes : mentioned cfg data) by now apply mentionedAtGroup_true.
      destruct (handler_enqueues cfg req data s Hm Hj Hself) as [Hp Hr].
      { rewrite Hmen. apply andb_false_r. }
      repeat split; auto; tauto.
    + assert (Hno : ~ mentioned cfg data).
      { intros H. apply mentionedAtGroup_true in H. congruence. }
      assert (Hdrop : handler cfg req s
                      = (s, [ObsResponse 200 (lit "ignore not mention at group")])).
      { unfold handler. rewrite Hm, Hj, Hself, Htarget, Hmen. reflexivity. }
      rewrite Hdrop. cbn [fst snd]. split; [|split].
      * split; [discriminate | contradiction].
      * contradiction.
      * intros _. repeat split; reflexivity.
Qed.

Lemma admission_witness :
  pushes (snd (handler exampleCfg (post (groupMessage 7 31 "hey @ChatGPT, hi")) initial))
  = [groupMessage 7 31 "hey @ChatGPT, hi"] /\
  pushes (snd (handler exampleCfg (post (groupMessage 7 32 "hello all")) initial)) = [] /\
  pushes (snd (handler exampleCfg (post m1) initial)) = [m1].
Proof.
  split; [|split].
  - pose proof (admission exampleCfg (post (groupMessage 7 31 "hey @ChatGPT, hi"))
                  (groupMessage 7 31 "hey @ChatGPT, hi") initial
                  eq_refl eq_refl eq_refl) as H.
    cbn [target groupMessage] in H. destruct H as ([_ Hif] & _).
    apply Hif. right. right. vm_compute. reflexivity.
  - pose proof (admission exampleCfg (post (groupMessage 7 32 "hello all"))
                  (groupMessage 7 32 "hello all") initial
                  eq_refl eq_refl eq_refl) as H.
    cbn [target groupMessage] in H. destruct H as (_ & _ & Hdrop).
    apply Hdrop. intros [(m & [] & _) | [H | H]]; vm_compute in H; discriminate.
  - pose proof (admission exampleCfg (post m1) m1 initial eq_refl eq_refl eq_refl) as H.
    cbn [target m1 directMessage] in H. exact (proj1 H).
Defined.

(** C8 (as stated) fails: a group event that mentions the bot is still
    dropped when its sender is the bot itself. *)
Lemma own_mention_is_dropped :
  mentionedAtGroup exampleCfg (groupMessage 2 33 "as @chatgpt said") = true /\
  pushes (snd (handler exampleCfg (post (groupMessage 2 33 "as @chatgpt said")) initial))
  = [] /\
  responses (snd (handler exampleCfg (post (groupMessage 2 33 "as @chatgpt said")) initial))
  = [(200%N, lit "ignore sent by bot self")].
Proof. repeat split; vm_compute; reflexivity. Qed.

(** ** The response generator *)

Lemma string_eqb_eq (a b : jsstring) : string_eqb a b = true <-> a = b.
Proof.
  revert b. induction a as [|x a IH]; intros [|y b]; cbn;
    try (split; congruence).
  unfold unit_eqb. rewrite andb_true_iff, N.eqb_eq, IH. split.
  - intros [-> ->]. reflexivity.
  - intros H. injection H as -> ->. auto.
Qed.

(** *** The regular expression, by cases *)

Lemma removeMentions_digits (ds rest : jsstring) :
  Forall (fun u => isDigit u = true) ds -> startsWithDigit rest = false ->
  removeMentions true (ds ++ rest) = removeMentions false rest.
Proof.
  intros Hds Hrest. induction Hds as [|d ds Hd _ IH].
  - destruct rest as [|u r]; [reflexivity|].
    cbn in Hrest. cbn [app removeMentions]. now rewrite Hrest.
  - cbn [app removeMentions]. rewrite Hd. exact IH.
Qed.

(** A mention token, an at-sign and its digits, is deleted whole. *)
Lemma replaceMentions_token (d : N) (ds rest : jsstring) :
  Forall (fun u => isDigit u = true) (d :: ds) -> startsWithDigit rest = false ->
  replaceMentions (0x40%N :: (d :: ds) ++ rest) = replaceMentions rest.
Proof.
  intros Hds Hrest. unfold replaceMentions.
  change (0x40%N :: (d :: ds) ++ rest) with (0x40%N :: d :: ds ++ rest).
  rewrite <- (removeMentions_digits (d :: ds) rest Hds Hrest).
  inversion Hds as [|? ? Hd _]; subst.
  cbn [removeMentions app andb startsWithDigit N.eqb Pos.eqb].
  rewrite Hd. reflexivity.
Qed.

(** Text without an at-sign is kept as it is. *)
Lemma replaceMentions_plain (pre s : jsstring) :
  Forall (fun u => u <> 0x40%N) pre ->
  replaceMentions (pre ++ s) = pre ++ replaceMentions s.
Proof.
  unfold replaceMentions. induction 1 as [|u pre Hu _ IH]; [reflexivity|].
  cbn [app removeMentions andb]. apply N.eqb_neq in Hu. rewrite Hu.
  cbn [andb]. now rewrite IH.
Qed.

(** *** The first request of the generator *)

Lemma begins_fetch (url : jsstring) (options : RequestInit) (signal : option N) :
  begins (EvFetch url options) (fetch url options signal).
Proof.
  intros w res w' H. exists []. unfold fetch in H.
  destruct signal as [t|];
    [destruct (N.ltb (latency (network w (fetched w) url options)) t)|];
    injection H as _ <-; reflexivity.
Qed.

Lemma begins_bind {A B} (e : Event) (m : M A) (k : A -> M B) :
  begins e m -> (forall a, appends (fun _ => True) (k a)) -> begins e (bind m k).
Proof.
  intros Hm Hk w res w' H. unfold bind in H.
  destruct (m w) as [[a|err] w1] eqn:Hmw; apply Hm in Hmw; destruct Hmw as (evs & Ht).
  - apply Hk in H. destruct H as (_ & evs2 & Ht2 & _).
    exists (evs ++ evs2). rewrite Ht2, Ht, <- app_assoc. reflexivity.
  - injection H as <- <-. eauto.
Qed.

Lemma begins_tryCatch {A} (e : Event) (m : M A) (h : JSError -> M A) :
  begins e m -> (forall err, appends (fun _ => True) (h err)) ->
  begins e (tryCatch m h).
Proof.
  intros Hm Hh w res w' H. unfold tryCatch in H.
  destruct (m w) as [[a|err] w1] eqn:Hmw; apply Hm in Hmw; destruct Hmw as (evs & Ht).
  - injection H as <- <-. eauto.
  - apply Hh in H. destruct H as (_ & evs2 & Ht2 & _).
    exists (evs ++ evs2). rewrite Ht2, Ht, <- app_assoc. reflexivity.
Qed.

Lemma begins_fetchWithRetry (url : jsstring) (options : RequestInit) :
  begins (EvFetch url options) (fetchWithRetry url options defaultMaxRetries).
Proof.
  unfold fetchWithRetry, defaultMaxRetries. rewrite fetchWithRetry_from_S.
  apply begins_tryCatch.
  - unfold fetchWithTimeout. apply begins_tryCatch.
    + apply begins_bind; [apply begins_fetch | auto with appends].
    + auto with appends.
  - intros err. apply appends_if; [auto with appends|].
    apply appends_bind; [auto with appends|]. intros _.
    apply appends_fetchWithRetry_from; auto.
Qed.

Lemma begins_Date_now_bind {B} (e : Event) (k : N -> M B) :
  (forall a, begins e (k a)) -> begins e (bind Date_now k).
Proof. intros Hk w res w' H. exact (Hk _ _ _ _ H). Qed.

Lemma begins_await_bind {A B} (e : Event) (a : A) (k : A -> M B) :
  begins e (k a) -> begins e (bind (await (Normal a)) k).
Proof. intros Hk w res w' H. exact (Hk _ _ _ H). Qed.

Lemma begins_measureTime {T} (e : Event) (name : string) (fn : M T) :
  begins e fn -> begins e (measureTime name fn).
Proof.
  intros Hfn. unfold measureTime. apply begins_Date_now_bind. intros start.
  apply begins_bind; [exact Hfn | auto 8 with appends].
Qed.

#[local] Hint Extern 1 (asksText _ _ (EvFetch _ _)) =>
  (intros ? ? _; reflexivity) : appends.
#[local] Hint Extern 1 (asksText _ _ (EvSleep _)) =>
  (intros ? ? ?; discriminate) : appends.
#[local] Hint Extern 1 (asksText _ _ (EvLog _)) =>
  (intros ? ? ?; discriminate) : appends.

Section Generator.

Variable cfg : Config.

(** The [catch] of the second [try] always ends with an apology. *)
Lemma apology_run (message : Message) (w : World) :
  exists w',
    (log "Error calling OpenAI API" ;;;
     consoleError "Full error object:" ;;;
     if isImageMessage message then ret imageApology else ret textApology) w
    = (Normal (apologyFor message), w').
Proof.
  unfold bind, log, consoleError, emit, apologyFor.
  destruct (isImageMessage message); eexists; reflexivity.
Qed.

(** A message that is not an image goes straight to the completion
    endpoint, with its stripped and trimmed content as the prompt, and asks
    for nothing else. *)
Lemma processMessage_text (message : Message) (w : World) :
  isImageMessage message = false ->
  exists r w' evs,
    processMessage cfg message w = (Normal r, w') /\
    newEvents w w'
    = textCompletion cfg (trim (replaceMentions (content (detail message)))) :: evs /\
    Forall (asksText cfg (trim (replaceMentions (content (detail message)))))
           (newEvents w w').
Proof.
  intros Hnot.
  destruct (processMessage cfg message w) as [res w'] eqn:H.
  unfold processMessage in H. rewrite Hnot in H.
  unfold bind at 1, ret at 1 in H. cbv beta iota in H.
  assert (Hres : exists r, res = Normal r).
  { unfold tryCatch in H.
    match type of H with
    | context [match ?body w with _ => _ end] =>
      destruct (body w) as [[a|e] w1]
    end.
    - injection H as <- _. eauto.
    - destruct (apology_run message w1) as (w2 & Hap).
      rewrite Hnot in *. rewrite Hap in H. injection H as <- _. eauto. }
  destruct Hres as [r ->]. exists r, w'.
  pose proof H as Hb.
  apply (begins_tryCatch
           (textCompletion cfg (trim (replaceMentions (content (detail message))))))
    in Hb.
  2:{ apply begins_bind; [|auto 12 with appends].
      apply begins_measureTime, begins_fetchWithRetry. }
  2:{ auto 8 with appends. }
  destruct Hb as (evs & Hb). exists evs. split; [reflexivity|].
  apply (appends_tryCatch
           (asksText cfg (trim (replaceMentions (content (detail message)))))) in H.
  2:{ unfold processMessageContent. auto 14 with appends. }
  2:{ auto 8 with appends. }
  destruct H as (_ & evs' & Ht & Hall).
  rewrite (newEvents_app _ _ _ Hb). split; [reflexivity|].
  rewrite Hb in Ht. apply app_inv_head in Ht. now rewrite Ht.
Qed.

(** An image message whose path can be encoded starts by fetching the
    attachment. *)
Lemma processMessage_image (message : Message) (encoded : jsstring) (w : World) :
  isImageMessage message = true ->
  encodeURIComponent (content (detail message)) = Normal encoded ->
  exists evs,
    newEvents w (snd (processMessage cfg message w))
    = resourceFetch cfg encoded :: evs.
Proof.
  intros Himg Henc.
  destruct (processMessage cfg message w) as [res w'] eqn:H. cbn [snd].
  unfold processMessage in H. rewrite Himg, Henc in H.
  apply (begins_bind (resourceFetch cfg encoded)) in H.
  - destruct H as (evs & Ht). exists evs. now apply newEvents_app.
  - apply begins_await_bind. apply begins_tryCatch; [|auto with appends].
    unfold getImageBase64.
    apply begins_bind; [|auto with appends].
    apply begins_bind; [apply begins_fetch | auto with appends].
  - intros [requestBody | reply]; unfold consoleError; auto 14 with appends.
Qed.

Lemma encodeURIComponent_wellFormed (n : nat) :
  forall s, List.length s <= n ->
            wellFormed s = isNormal (encodeURIComponent s).
Proof.
  induction n as [|n IH]; intros s Hlen.
  - destruct s; [reflexivity | cbn in Hlen; lia].
  - destruct s as [|u r]; [reflexivity|].
    cbn [List.length] in Hlen.
    assert (Hprep : forall p c, isNormal (prepend p c) = isNormal c)
      by (intros p [c|e]; reflexivity).
    cbn [wellFormed encodeURIComponent].
    destruct (uriUnreserved u) eqn:Hun.
    + assert (isLowSurrogate u = false /\ isHighSurrogate u = false) as [-> ->].
      { unfold uriUnreserved, isAlnum, isDigit in Hun.
        unfold isLowSurrogate, isHighSurrogate. cbn [existsb] in Hun.
        rewrite !orb_true_iff, !andb_true_iff, !N.leb_le, !N.eqb_eq in Hun.
        split; apply andb_false_iff; rewrite !N.leb_gt; lia. }
      rewrite Hprep. apply IH. lia.
    + destruct (isLowSurrogate u); [reflexivity|].
      destruct (isHighSurrogate u).
      * destruct r as [|l r']; [reflexivity|].
        destruct (isLowSurrogate l); [|reflexivity].
        cbn [andb]. rewrite Hprep. apply IH. cbn [List.length] in Hlen. lia.
      * rewrite Hprep. apply IH. lia.
Qed.

(** Away from the ill-formed image paths, the generator always returns a
    string. *)
Lemma processMessage_returns (message : Message) (w : World) :
  isImageMessage message = false \/ wellFormed (content (detail message)) = true ->
  exists r w', processMessage cfg message w = (Normal r, w').
Proof.
  intros [Hnot | Hwf].
  - destruct (processMessage_text message w Hnot) as (r & w' & _ & H & _). eauto.
  - destruct (isImageMessage message) eqn:Himg.
    2:{ destruct (processMessage_text message w Himg) as (r & w' & _ & H & _). eauto. }
    rewrite (encodeURIComponent_wellFormed _ _ (Nat.le_refl _)) in Hwf.
    destruct (encodeURIComponent (content (detail message))) as [encoded|] eqn:Henc;
      [|discriminate].
    unfold processMessage. rewrite Himg, Henc.
    unfold bind at 1. unfold bind at 1. unfold await at 1.
    unfold tryCatch at 1.
    match goal with
    | |- context [match ?body w with _ => _ end] =>
      destruct (body w) as [[[requestBody | reply]|e] w1]
    end.
    + unfold tryCatch.
      match goal with
      | |- context [match ?body w1 with _ => _ end] =>
        destruct (body w1) as [[a|e] w2]
      end; [eauto|].
      destruct (apology_run message w2) as (w3 & Hap).
      rewrite Himg in *. rewrite Hap. eauto.
    + unfold ret. eauto.
    + unfold bind, log, emit, ret. eauto.
Qed.

End Generator.

(** The generator on a healthy network and on failing ones. *)
Example generated_reply_is_trimmed :
  fst (processMessage exampleCfg m1 (startWorld healthy)) = Normal (lit "Hello!").
Proof. vm_compute. reflexivity. Qed.

Example text_apology_when_down :
  fst (processMessage exampleCfg m1 (startWorld down)) = Normal textApology.
Proof. vm_compute. reflexivity. Qed.

Example text_apology_when_malformed :
  fst (processMessage exampleCfg m1 (startWorld malformed)) = Normal textApology.
Proof. vm_compute. reflexivity. Qed.

Example image_apology_when_down :
  fst (processMessage exampleCfg pngMessage (startWorld down)) = Normal imageApology.
Proof. vm_compute. reflexivity. Qed.

Example image_apology_when_malformed :
  fst (processMessage exampleCfg pngMessage (startWorld malformed))
  = Normal imageApology.
Proof. vm_compute. reflexivity. Qed.

Example apologies_differ : imageApology <> textApology.
Proof. vm_compute. discriminate. Qed.

(** The only way out of [processMessage] by an exception: an image message
    whose path is not well-formed UTF-16. *)
Lemma processMessage_throws_iff (cfg : Config) (message : Message) (w : World) :
  isNormal (fst (processMessage cfg message w)) = false <->
  isImageMessage message = true /\ wellFormed (content (detail message)) = false.
Proof.
  split.
  - intros Hthrow.
    destruct (isImageMessage message) eqn:Himg;
      destruct (wellFormed (content (detail message))) eqn:Hwf; auto;
        [destruct (processMessage_returns cfg message w (or_intror Hwf)) as (r & w' & H)
        |destruct (processMessage_returns cfg message w (or_introl Himg)) as (r & w' & H)
        |destruct (processMessage_returns cfg message w (or_introl Himg)) as (r & w' & H)];
        rewrite H in Hthrow; discriminate.
  - intros [Himg Hwf].
    rewrite (encodeURIComponent_wellFormed _ _ (Nat.le_refl _)) in Hwf.
    unfold processMessage. rewrite Himg.
    destruct (encodeURIComponent (content (detail message))); [discriminate|].
    reflexivity.
Qed.

(** C5 -- The code falls short of the claim on an image message whose file
    path holds a lone surrogate: [encodeURIComponent] is called before the
    first [try], so its URIError leaves [processMessage], which returns no
    apology. *)
Theorem processMessage_throws_on_lone_surrogate (cfg : Config) (w : World) :
  isImageMessage brokenPathImage = true /\
  processMessage cfg brokenPathImage w = (Throw URIError, w).
Proof. split; reflexivity. Qed.

(** C10 -- [isImageMessage] holds exactly for a ['vocechat/file'] message
    whose properties carry a string [content_type] that starts with
    ['image/'].  When it holds, [processMessage] takes the image branch: its
    first request fetches the attachment (the path encoded into the resource
    URL).  When it does not hold -- also for a file that is not an image --
    [processMessage] takes the text branch: it returns a string, its first
    request is the completion request whose user prompt is the content with
    the ['@<digits>'] tokens removed and the white space trimmed, and it
    makes no other kind of request.  Removing the tokens deletes an at-sign
    together with the digits that follow it and keeps text without at-signs
    as it is. *)
Theorem image_branch_only_for_images (cfg : Config) (message : Message) :
  (isImageMessage message = true <->
   content_type (detail message) = lit "vocechat/file" /\
   exists props ct,
     properties (detail message) = Some props /\
     props_content_type props = Some (VStr ct) /\
     startsWith ct (lit "image/") = true) /\
  (isImageMessage message = true ->
   forall w encoded,
     encodeURIComponent (content (detail message)) = Normal encoded ->
     exists evs,
       newEvents w (snd (processMessage cfg message w))
       = resourceFetch cfg encoded :: evs) /\
  (isImageMessage message = false ->
   forall w,
     exists r w' evs,
       processMessage cfg message w = (Normal r, w') /\
       newEvents w w'
       = textCompletion cfg (trim (replaceMentions (content (detail message))))
           :: evs /\
       Forall (asksText cfg (trim (replaceMentions (content (detail message)))))
              (newEvents w w')) /\
  (forall pre d ds post,
     Forall (fun u => u <> 0x40%N) pre ->
     Forall (fun u => isDigit u = true) (d :: ds) ->
     startsWithDigit post = false ->
     replaceMentions (pre ++ 0x40%N :: (d :: ds) ++ post)
     = pre ++ replaceMentions post).
Proof.
  split; [|split; [|split]].
  - unfold isImageMessage. rewrite andb_true_iff, string_eqb_eq.
    split.
    + intros [Hct Hp]. split; [exact Hct|].
      destruct (properties (detail message)) as [props|]; [|discriminate].
      destruct (props_content_type props) as [[| | | |ct| |]|] eqn:Hpc;
        try discriminate.
      exists props, ct. auto.
    + intros [Hct (props & ct & -> & -> & Hs)]. auto.
  - intros Himg w encoded Henc. now apply processMessage_image.
  - intros Hnot w. now apply processMessage_text.
  - intros pre d ds post Hpre Hds Hpost.
    rewrite replaceMentions_plain by exact Hpre.
    now rewrite replaceMentions_token.
Qed.

Lemma image_branch_only_for_images_witness :
  exists r w' evs,
    processMessage exampleCfg pdfMessage (startWorld healthy) = (Normal r, w') /\
    newEvents (startWorld healthy) w'
    = textCompletion exampleCfg (lit "2024/7/report.pdf") :: evs.
Proof.
  destruct (image_branch_only_for_images exampleCfg pdfMessage)
    as (_ & _ & Htext & _).
  destruct (Htext eq_refl (startWorld healthy)) as (r & w' & evs & Hrun & Hfirst & _).
  exists r, w', evs. split; [exact Hrun | exact Hfirst].
Defined.

(** * Further properties *)

(** ** The prompt of a text message *)

Lemma removeMentions_clean (s : jsstring) :
  forall inMatch,
    noMention (removeMentions inMatch s) = true /\
    (inMatch = true \/ startsWithDigit s = false ->
     startsWithDigit (removeMentions inMatch s) = false).
Proof.
  induction s as [|u r IH]; intros inMatch; [split; reflexivity|].
  cbn [removeMentions].
  destruct (inMatch && isDigit u) eqn:Hskip.
  { destruct (IH true) as [Hn Hd]. split; [exact Hn | intros _; apply Hd; now left]. }
  destruct ((u =? 0x40)%N && startsWithDigit r) eqn:Htok.
  { destruct (IH true) as [Hn Hd]. split; [exact Hn | intros _; apply Hd; now left]. }
  destruct (IH false) as [Hn Hd]. split.
  - cbn [noMention]. rewrite Hn, andb_true_r.
    destruct (u =? 0x40)%N; [|reflexivity].
    cbn [andb] in Htok |- *. rewrite Hd; [reflexivity | now right].
  - cbn [startsWithDigit]. intros [-> | Hu]; [|exact Hu].
    exact Hskip.
Qed.

Lemma removeMentions_fixed (s : jsstring) :
  noMention s = true -> removeMentions false s = s.
Proof.
  induction s as [|u r IH]; [reflexivity|].
  cbn [noMention removeMentions andb]. intros H.
  apply andb_true_iff in H. destruct H as [Hu Hr].
  apply negb_true_iff in Hu. rewrite Hu. now rewrite IH.
Qed.

Lemma noMention_app (a b : jsstring) :
  noMention (a ++ b) = true -> noMention a = true /\ noMention b = true.
Proof.
  induction a as [|u a IH]; [auto|].
  cbn [app noMention]. intros H. apply andb_true_iff in H. destruct H as [Hu Hr].
  destruct (IH Hr) as [Ha Hb]. split; [|exact Hb].
  rewrite Ha, andb_true_r. apply negb_true_iff. apply negb_true_iff in Hu.
  destruct (u =? 0x40)%N; [|reflexivity]. cbn [andb] in *.
  destruct a as [|v a']; [reflexivity | exact Hu].
Qed.

Lemma trimStart_suffix (s : jsstring) : exists ws, s = ws ++ trimStart s.
Proof.
  induction s as [|u r [ws IH]]; [now exists []|].
  cbn [trimStart]. destruct (isWhiteSpace u).
  - exists (u :: ws). cbn. now rewrite <- IH.
  - now exists [].
Qed.

Lemma trimEnd_prefix (s : jsstring) : exists ws, s = trimEnd s ++ ws.
Proof.
  unfold trimEnd. destruct (trimStart_suffix (rev s)) as [ws H].
  exists (rev ws). rewrite <- rev_app_distr, <- H. now rewrite rev_involutive.
Qed.

Lemma trim_noMention (s : jsstring) : noMention s = true -> noMention (trim s) = true.
Proof.
  intros H. unfold trim.
  destruct (trimStart_suffix s) as [ws Hs]. rewrite Hs in H.
  apply noMention_app in H. destruct H as [_ H].
  destruct (trimEnd_prefix (trimStart s)) as [ws' Hs']. rewrite Hs' in H.
  now apply noMention_app in H.
Qed.

Lemma trimStart_noLeadingSpace (s : jsstring) : noLeadingSpace (trimStart s) = true.
Proof.
  induction s as [|u r IH]; [reflexivity|]. cbn [trimStart].
  destruct (isWhiteSpace u) eqn:Hu; [exact IH|]. cbn. now rewrite Hu.
Qed.

Lemma trimStart_fixed (s : jsstring) : noLeadingSpace s = true -> trimStart s = s.
Proof.
  destruct s as [|u r]; [reflexivity|]. cbn. intros H.
  apply negb_true_iff in H. now rewrite H.
Qed.

Lemma trimStart_snoc (x : jsstring) (c : N) :
  isWhiteSpace c = false -> exists y, trimStart (x ++ [c]) = y ++ [c].
Proof.
  intros Hc. induction x as [|u x [y IH]].
  - exists []. cbn. now rewrite Hc.
  - cbn [app trimStart]. destruct (isWhiteSpace u).
    + now exists y.
    + now exists (u :: x).
Qed.

Lemma trimEnd_noLeadingSpace (s : jsstring) :
  noLeadingSpace s = true -> noLeadingSpace (trimEnd s) = true.
Proof.
  destruct s as [|c r]; [reflexivity|]. cbn [noLeadingSpace]. intros Hc.
  apply negb_true_iff in Hc. unfold trimEnd. cbn [rev].
  destruct (trimStart_snoc (rev r) c Hc) as [y ->].
  rewrite rev_app_distr. cbn. now rewrite Hc.
Qed.

Lemma trim_fixed (s : jsstring) :
  noLeadingSpace s = true -> noTrailingSpace s = true -> trim s = s.
Proof.
  intros Hl Ht. unfold trim, trimEnd. rewrite (trimStart_fixed s Hl).
  rewrite (trimStart_fixed (rev s) Ht). apply rev_involutive.
Qed.

Lemma trim_bare (s : jsstring) :
  noLeadingSpace (trim s) = true /\ noTrailingSpace (trim s) = true.
Proof.
  split.
  - unfold trim. apply trimEnd_noLeadingSpace, trimStart_noLeadingSpace.
  - unfold noTrailingSpace, trim, trimEnd. rewrite rev_involutive.
    apply trimStart_noLeadingSpace.
Qed.

(** X1 -- The prompt [processMessageContent] builds holds no mention token
    (no at-sign directly followed by a digit) and neither starts nor ends
    with white space; building the prompt of a prompt changes nothing. *)
Theorem prompt_is_normalised (text : jsstring) :
  noMention (processMessageContent text) = true /\
  noLeadingSpace (processMessageContent text) = true /\
  noTrailingSpace (processMessageContent text) = true /\
  processMessageContent (processMessageContent text) = processMessageContent text.
Proof.
  unfold processMessageContent, replaceMentions.
  assert (Hn : noMention (trim (removeMentions false text)) = true).
  { apply trim_noMention. apply (removeMentions_clean text false). }
  destruct (trim_bare (removeMentions false text)) as [Hl Ht].
  repeat split; auto.
  rewrite (removeMentions_fixed _ Hn). now apply trim_fixed.
Qed.

(** ** How long the transport can take *)

Lemma afterFetch_now (url : jsstring) (options : RequestInit) (w : World) :
  (now w <= now (afterFetch url options w) <= now w + defaultTimeout)%N /\
  ((defaultTimeout <= latency (network w (fetched w) url options))%N ->
   now (afterFetch url options w) = (now w + defaultTimeout)%N).
Proof.
  unfold afterFetch. cbn [now].
  destruct (latency (network w (fetched w) url options) <? defaultTimeout)%N eqn:Hl.
  - apply N.ltb_lt in Hl. split; lia.
  - split; [lia | reflexivity].
Qed.

Lemma budget_S (i todo : nat) :
  budget i (S (S todo))
  = (defaultTimeout + (1000 * 2 ^ N.of_nat i + budget (S i) (S todo)))%N.
Proof. reflexivity. Qed.

Lemma fetchWithRetry_from_time (url : jsstring) (options : RequestInit)
    (maxRetries : nat) :
  forall todo i w res w',
    i + todo = maxRetries ->
    fetchWithRetry_from url options maxRetries todo i w = (res, w') ->
    (now w <= now w' <= now w + budget i todo)%N /\
    ((forall j, j < todo ->
        (defaultTimeout <= latency (network w (fetched w + j)%nat url options))%N) ->
     now w' = (now w + budget i todo)%N).
Proof.
  induction todo as [|todo IH]; intros i w res w' Hi Hrun.
  - cbn in Hrun. injection Hrun as _ <-. cbn. split; [lia | intros _; lia].
  - rewrite fetchWithRetry_from_S in Hrun. unfold tryCatch in Hrun.
    rewrite fetchWithTimeout_run in Hrun.
    destruct (afterFetch_now url options w) as [Hbound Hlate].
    assert (Hone : (defaultTimeout <= budget i (S todo))%N).
    { destruct todo; cbn [budget]; lia. }
    destruct (attempt url options w 0) as [r|e] eqn:Ha.
    + injection Hrun as _ <-. split; [lia|].
      intros Hall. exfalso.
      specialize (Hall 0 (Nat.lt_0_succ _)). rewrite Nat.add_0_r in Hall.
      unfold attempt in Ha. rewrite Nat.add_0_r in Ha.
      apply N.ltb_ge in Hall. rewrite Hall in Ha. discriminate.
    + destruct (Nat.eqb (S i) maxRetries) eqn:Hlast.
      * unfold throw in Hrun. injection Hrun as _ <-.
        apply Nat.eqb_eq in Hlast. assert (todo = 0) as -> by lia.
        split; [cbn [budget] in *; lia|].
        intros Hall. cbn [budget]. rewrite N.add_0_r. apply Hlate.
        specialize (Hall 0 (Nat.lt_0_succ _)). now rewrite Nat.add_0_r in Hall.
      * apply Nat.eqb_neq in Hlast.
        destruct todo as [|todo]; [lia|].
        unfold bind, sleep in Hrun.
        apply IH in Hrun; [|lia]. cbn [now network fetched] in Hrun.
        destruct Hrun as [Hb Ht]. rewrite budget_S. split; [lia|].
        intros Hall. rewrite Ht.
        -- rewrite Hlate; [lia|].
           specialize (Hall 0 (Nat.lt_0_succ _)). now rewrite Nat.add_0_r in Hall.
        -- intros j Hj. cbn [afterFetch network fetched].
           replace (S (fetched w) + j) with (fetched w + S j) by lia.
           apply Hall. lia.
Qed.

(** X2 -- A call of [fetchWithRetry] settles within the time of its
    attempts, 30 s each at most, plus the back-off sleeps between them:
    within 93 s for the default three attempts.  The bound is reached when
    no attempt is answered before its deadline. *)
Theorem fetchWithRetry_settles_in_time (url : jsstring) (options : RequestInit)
    (maxRetries : nat) (w : World) (res : Completion Response) (w' : World) :
  fetchWithRetry url options maxRetries w = (res, w') ->
  (now w <= now w' <= now w + budget 0 maxRetries)%N /\
  budget 0 defaultMaxRetries = 93000%N /\
  ((forall j, j < maxRetries ->
      (defaultTimeout <= latency (network w (fetched w + j)%nat url options))%N) ->
   now w' = (now w + budget 0 maxRetries)%N).
Proof.
  intros Hrun. unfold fetchWithRetry in Hrun.
  apply fetchWithRetry_from_time in Hrun; [|reflexivity].
  destruct Hrun as [Hb Ht]. split; [exact Hb|]. split; [reflexivity | exact Ht].
Qed.

Lemma fetchWithRetry_settles_in_time_witness :
  now (snd (fetchWithRetry exampleUrl exampleOptions defaultMaxRetries
              (startWorld stalled))) = 93000%N /\
  fst (fetchWithRetry exampleUrl exampleOptions defaultMaxRetries
         (startWorld stalled)) = Throw AbortError.
Proof.
  destruct (fetchWithRetry_settles_in_time exampleUrl exampleOptions
              defaultMaxRetries (startWorld stalled) _ _ (surjective_pairing _))
    as (_ & _ & Htight).
  split; [|vm_compute; reflexivity].
  rewrite Htight; [reflexivity|].
  intros j Hj. vm_compute. discriminate.
Defined.

(** ** More on the drain loop *)

Section Drain.

Variable cfg : Config.

Lemma firstn_cap {A} (n : nat) (q : list A) :
  q <> [] -> 1 <= n -> 1 <= List.length (firstn n q) <= n.
Proof.
  intros Hq Hn. rewrite length_firstn.
  destruct q as [|x q]; [contradiction|]. cbn [List.length]. lia.
Qed.

(** A step keeps every suspended batch within the cap, and so is every
    batch it takes. *)
Lemma step_capped (s : State) (i : Input) (s' : State) (obs : list Obs) :
  owned s -> capped s -> step cfg s i = (s', obs) ->
  capped s' /\
  Forall (fun b => 1 <= List.length b <= defaultMaxConcurrent) (batches obs).
Proof.
  intros Ho Hc Hstep. destruct i as [req | k nets]; cbn [step] in Hstep.
  - apply handler_cases in Hstep.
    destruct Hstep
      as [(-> & _ & -> & _)
         | (data & _ & _ & _ & _ & [(p & _ & -> & ->) | (Hflag & _ & _ & Hl & ->)])].
    + split; [exact Hc | constructor].
    + split; [exact Hc | constructor].
    + assert (Hsize : 1 <= List.length (firstn defaultMaxConcurrent (messageQueue s ++ [data]))
                      <= defaultMaxConcurrent).
      { apply firstn_cap; [|unfold defaultMaxConcurrent; lia].
        destruct (messageQueue s); discriminate. }
      split.
      * unfold capped. rewrite Hl. apply Forall_app. split; [exact Hc|].
        constructor; [exact Hsize | constructor].
      * cbn. constructor; [exact Hsize | constructor].
  - apply settle_cases in Hstep.
    destruct Hstep as [(_ & -> & ->) | (lp & o & Hk & -> & Hp)];
      [split; [exact Hc | constructor]|].
    destruct (runBatch_obs cfg (batch lp) nets 0) as (_ & _ & Hb & _).
    rewrite batches_app, Hb. cbn [app].
    unfold owned in Ho. destruct (processingPromise s) as [p|].
    2:{ destruct Ho as [_ Hl0]. rewrite Hl0 in Hk. destruct k; discriminate. }
    destruct Ho as (lp0 & Hl0 & Hmc). rewrite Hl0 in Hk.
    apply nth_error_singleton in Hk. destruct Hk as [-> ->].
    apply processQueueParallel_run in Hp.
    cbn [messageQueue processingPromise loops] in Hp. rewrite Hl0 in Hp.
    destruct Hp as [(_ & -> & _ & _ & Hl') | (Hq & -> & _ & _ & Hl')].
    + split; [|constructor]. unfold capped. rewrite Hl'. constructor.
    + assert (Hsize : 1 <= List.length (firstn (maxConcurrent lp0) (messageQueue s))
                      <= defaultMaxConcurrent).
      { rewrite Hmc. apply firstn_cap; [exact Hq | unfold defaultMaxConcurrent; lia]. }
      split.
      * unfold capped. rewrite Hl'. cbn. constructor; [exact Hsize | constructor].
      * cbn. constructor; [exact Hsize | constructor].
Qed.

Lemma run_capped (inputs : list Input) :
  forall s s' obs,
    owned s -> capped s -> run cfg s inputs = (s', obs) ->
    capped s' /\
    Forall (fun b => 1 <= List.length b <= defaultMaxConcurrent) (batches obs).
Proof.
  induction inputs as [|i rest IH]; intros s s' obs Ho Hc H.
  - injection H as <- <-. split; [exact Hc | constructor].
  - rewrite run_cons in H. injection H as <- <-.
    destruct (step_capped s i _ _ Ho Hc (surjective_pairing _)) as [Hc1 Hb1].
    pose proof (step_owned cfg s i _ _ Ho (surjective_pairing _)) as Ho1.
    destruct (IH _ _ _ Ho1 Hc1 (surjective_pairing _)) as [Hc2 Hb2].
    split; [exact Hc2|]. rewrite batches_app. now apply Forall_app.
Qed.

(** X3 -- The concurrency cap.  In every run from the initial state, each
    batch the loop takes holds between one and three messages, and in every
    state reached at most three messages are in flight. *)
Theorem at_most_three_in_flight (inputs : list Input) (s : State) (obs : list Obs) :
  run cfg initial inputs = (s, obs) ->
  inFlight s <= defaultMaxConcurrent /\
  (processingPromise s <> None -> 1 <= inFlight s) /\
  Forall (fun b => 1 <= List.length b <= defaultMaxConcurrent) (batches obs).
Proof.
  intros Hrun.
  assert (Hc0 : capped initial) by constructor.
  destruct (run_capped inputs _ _ _ initial_owned Hc0 Hrun) as [Hc Hb].
  pose proof (run_owned cfg inputs _ _ _ initial_owned Hrun) as Ho.
  split; [|split; [|exact Hb]].
  - unfold owned in Ho. unfold inFlight, capped in *.
    destruct (processingPromise s).
    + destruct Ho as (lp & Hl & _). rewrite Hl in *.
      inversion Hc; subst. cbn. lia.
    + destruct Ho as [_ Hl]. rewrite Hl. cbn. unfold defaultMaxConcurrent. lia.
  - intros Hset. unfold owned in Ho. unfold inFlight, capped in *.
    destruct (processingPromise s); [|contradiction].
    destruct Ho as (lp & Hl & _). rewrite Hl in *.
    inversion Hc; subst. cbn. lia.
Qed.

End Drain.

Lemma at_most_three_in_flight_witness :
  inFlight (fst (run exampleCfg initial
                   [Webhook (post m1); Webhook (post m2); Webhook (post m3);
                    Webhook (post m4); Webhook (post m5);
                    Settle 0 (fun _ => healthy)])) <= 3 /\
  batches (snd (run exampleCfg initial
                  [Webhook (post m1); Webhook (post m2); Webhook (post m3);
                   Webhook (post m4); Webhook (post m5);
                   Settle 0 (fun _ => healthy)]))
  = [[m1]; [m2; m3; m4]].
Proof.
  split.
  - exact (proj1 (at_most_three_in_flight exampleCfg _ _ _ (surjective_pairing _))).
  - vm_compute. reflexivity.
Defined.

Section Progress.

Variable cfg : Config.

Lemma exits_app (a b : list Obs) : exits (a ++ b) = exits a + exits b.
Proof. unfold exits. now rewrite filter_app, length_app. Qed.

(** Once no loop is suspended, a settling batch is nobody's. *)
Lemma idle_settles (inputs : list Input) (s : State) :
  loops s = [] -> Forall isSettle inputs -> run cfg s inputs = (s, []).
Proof.
  intros Hl Hall. induction Hall as [|i rest [nets ->] _ IH]; [reflexivity|].
  rewrite run_cons. cbn [step]. rewrite settle_run, Hl. cbn [nth_error fst snd].
  rewrite IH. reflexivity.
Qed.

(** X4 -- The drain loop finishes.  From a state with an active loop and
    [q] messages waiting, if no further event arrives, then once [n + 1]
    batches have settled, for any [n] with [q <= 3 n], the loop has returned
    exactly once, the flag is clear, and all the waiting messages have been
    taken, in their order. *)
Theorem drain_finishes (n : nat) (inputs : list Input) (s : State) :
  owned s -> processingPromise s <> None ->
  Forall isSettle inputs -> List.length inputs = S n ->
  List.length (messageQueue s) <= 3 * n ->
  processingPromise (fst (run cfg s inputs)) = None /\
  messageQueue (fst (run cfg s inputs)) = [] /\
  loops (fst (run cfg s inputs)) = [] /\
  removed (snd (run cfg s inputs)) = messageQueue s /\
  exits (snd (run cfg s inputs)) = 1.
Proof.
  revert inputs s.
  induction n as [|n IH]; intros inputs s Ho Hset Hall Hlen Hq;
    (destruct inputs as [|i rest]; [discriminate|]);
    inversion Hall as [|? ? [nets ->] Hrest]; subst;
    cbn [List.length] in Hlen; injection Hlen as Hlen;
    rewrite run_cons; cbn [step fst snd];
    destruct (settle cfg 0 nets s) as [s1 o1] eqn:Hsettle;
    pose proof (step_owned cfg s (Settle 0 nets) s1 o1 Ho Hsettle) as Ho1;
    apply settle_cases in Hsettle;
    unfold owned in Ho;
    (destruct (processingPromise s) as [p|] eqn:Hflag; [|contradiction]);
    destruct Ho as (lp & Hl & Hmc);
    (destruct Hsettle as [(Hk & _) | (lp' & o & Hk & -> & Hp)];
     [rewrite Hl in Hk; discriminate|]);
    rewrite Hl in Hk; injection Hk as <-;
    destruct (runBatch_obs cfg (batch lp) nets 0) as (_ & _ & Hb & Hex & _);
    apply processQueueParallel_run in Hp;
    cbn [messageQueue processingPromise loops] in Hp; rewrite Hl in Hp;
    cbn [fst snd].
  - (* nothing is waiting: the loop returns *)
    destruct Hp as [(Hq0 & -> & Hq1 & Hf1 & Hl1) | (Hq0 & _)].
    2:{ destruct (messageQueue s); [contradiction | cbn in Hq; lia]. }
    rewrite (idle_settles rest s1 Hl1 Hrest). cbn [fst snd].
    rewrite app_nil_r, removed_app, exits_app, Hex. unfold removed at 1.
    rewrite Hb, Hq0. repeat split; auto.
  - destruct Hp as [(Hq0 & -> & Hq1 & Hf1 & Hl1) | (Hq0 & -> & Hq1 & Hf1 & Hl1)].
    + (* the queue is empty already *)
      assert (Hrun : run cfg s1 rest = (s1, [])) by now apply idle_settles.
      rewrite Hrun. cbn [fst snd].
      rewrite app_nil_r, removed_app, exits_app, Hex. unfold removed at 1.
      rewrite Hb, Hq0. repeat split; auto.
    + (* a batch is taken and the rest is drained by the steps that follow *)
      destruct (IH rest s1) as (Hf & Hqe & Hle & Hrem & Hexit); auto.
      * rewrite Hf1. discriminate.
      * rewrite Hq1, length_skipn, Hmc. unfold defaultMaxConcurrent. lia.
      * repeat split; auto.
        -- rewrite !removed_app, Hrem, Hq1. unfold removed at 1. rewrite Hb.
           cbn. rewrite app_nil_r. apply firstn_skipn.
        -- rewrite !exits_app, Hex, Hexit. reflexivity.
Qed.


End Progress.

Lemma drain_finishes_witness :
  processingPromise
    (fst (run exampleCfg busy
            [Settle 0 (fun _ => healthy); Settle 0 (fun _ => down);
             Settle 0 (fun _ => healthy)])) = None /\
  removed
    (snd (run exampleCfg busy
            [Settle 0 (fun _ => healthy); Settle 0 (fun _ => down);
             Settle 0 (fun _ => healthy)])) = [m2; m3; m4; m5].
Proof.
  destruct (drain_finishes exampleCfg 2
              [Settle 0 (fun _ => healthy); Settle 0 (fun _ => down);
               Settle 0 (fun _ => healthy)] busy)
    as (Hflag & _ & _ & Hrem & _).
  - cbn. eauto.
  - discriminate.
  - repeat constructor; eexists; reflexivity.
  - reflexivity.
  - cbn. lia.
  - split; [exact Hflag | exact Hrem].
Defined.

(** ** More on the handler *)

Section Ingress.

Variable cfg : Config.

Lemma step_pushes_admissible (s : State) (i : Input) :
  Forall (admissible cfg) (pushes (snd (step cfg s i))).
Proof.
  destruct (step cfg s i) as [s' obs] eqn:Hstep. cbn [snd].
  destruct i as [req | k nets]; cbn [step] in Hstep.
  - apply handler_cases in Hstep.
    destruct Hstep
      as [(_ & -> & _)
         | (data & _ & _ & Hself & Hgrp & [(p & _ & _ & ->) | (_ & _ & _ & _ & ->)])];
      [constructor| |];
      (assert (Hadm : admissible cfg data);
       [split; [exact Hself|];
        intros Hin; rewrite Hin in Hgrp; cbn in Hgrp;
        now apply negb_false_iff in Hgrp
       |cbn; constructor; [exact Hadm | constructor]]).
  - pose proof (step_conserves cfg s (Settle k nets) s' obs Hstep) as Hc.
    apply settle_cases in Hstep.
    destruct Hstep as [(_ & _ & ->) | (lp & o & _ & -> & Hp)]; [constructor|].
    destruct (runBatch_obs cfg (batch lp) nets 0) as (_ & Hpu & _).
    rewrite pushes_app, Hpu. apply processQueueParallel_run in Hp.
    destruct Hp as [(_ & -> & _) | (_ & -> & _)]; constructor.
Qed.

Lemma run_pushes_admissible (inputs : list Input) :
  forall s, Forall (admissible cfg) (pushes (snd (run cfg s inputs))).
Proof.
  induction inputs as [|i rest IH]; intros s; [constructor|].
  rewrite run_cons. cbn [snd]. rewrite pushes_app. apply Forall_app.
  split; [apply step_pushes_admissible | apply IH].
Qed.

(** X5 -- Only messages that passed the filters are ever queued or taken
    for processing: in every run from the initial state, every message
    pushed, every message waiting and every message taken into a batch was
    sent by someone other than the bot and, if sent to a group, mentions
    the bot. *)
Theorem only_admissible_messages_are_processed (inputs : list Input)
    (s : State) (obs : list Obs) :
  run cfg initial inputs = (s, obs) ->
  Forall (admissible cfg) (pushes obs) /\
  Forall (admissible cfg) (removed obs) /\
  Forall (admissible cfg) (messageQueue s).
Proof.
  intros Hrun.
  pose proof (run_pushes_admissible inputs initial) as Hp.
  rewrite Hrun in Hp. cbn [snd] in Hp.
  pose proof (run_conserves cfg inputs _ _ _ Hrun) as Hc.
  cbn [initial messageQueue app] in Hc. rewrite Hc in Hp.
  apply Forall_app in Hp. destruct Hp as [Hr Hq].
  split; [|split; [exact Hr | exact Hq]].
  rewrite Hc. now apply Forall_app.
Qed.

(** X6 -- Where an accepted message goes.  In a state reached from the
    initial one, a POST event that passes the filters is, when no loop is
    active, put in flight at once as a batch of its own (nothing is left
    waiting and the flag is set); when a loop is active it is appended to
    the end of the queue and nothing else changes. *)
Theorem accepted_message_placement (inputs : list Input) (s : State)
    (obs : list Obs) (req : HttpRequest) (data : Message) :
  run cfg initial inputs = (s, obs) ->
  req_method req = "POST"%string -> req_json req = Normal data ->
  admissible cfg data ->
  (processingPromise s = None ->
   batches (snd (handler cfg req s)) = [[data]] /\
   messageQueue (fst (handler cfg req s)) = [] /\
   processingPromise (fst (handler cfg req s)) = Some DrainPromise /\
   inFlight (fst (handler cfg req s)) = 1) /\
  (processingPromise s <> None ->
   batches (snd (handler cfg req s)) = [] /\
   messageQueue (fst (handler cfg req s)) = messageQueue s ++ [data] /\
   processingPromise (fst (handler cfg req s)) = processingPromise s /\
   loops (fst (handler cfg req s)) = loops s).
Proof.
  intros Hrun Hm Hj [Hself Hgrp].
  pose proof (run_owned cfg inputs _ _ _ initial_owned Hrun) as Ho.
  destruct (handler cfg req s) as [s' o] eqn:Hh. cbn [fst snd].
  apply handler_cases in Hh.
  destruct Hh
    as [(_ & _ & _ & _ & Hno)
       | (data' & _ & Hj' & _ & _ & [(p & Hflag & -> & ->) | (Hflag & Hq & Hp & Hl & ->)])].
  - exfalso. destruct (Hno data Hm Hj) as [H | H]; [congruence|].
    apply andb_true_iff in H. destruct H as [Hin Hmen].
    rewrite (Hgrp Hin) in Hmen. discriminate.
  - rewrite Hj in Hj'. injection Hj' as <-. split.
    + intros Hidle. congruence.
    + intros _. cbn. auto.
  - rewrite Hj in Hj'. injection Hj' as <-. split.
    + intros _. unfold owned in Ho. rewrite Hflag in Ho. destruct Ho as [Hq0 Hl0].
      rewrite Hq0 in *. rewrite Hl0 in Hl. cbn in Hq, Hl |- *.
      unfold inFlight. rewrite Hl. cbn. auto.
    + intros Hset. contradiction.
Qed.

End Ingress.

(** ** The handler on an arbitrary body *)

Section UntypedHandler.

Variable cfg : Config.
Variable otherEq : value -> Completion bool.

Lemma getProp_read (v : value) (k : string) :
  nullish v = false -> getProp v (lit k) = Normal (read v k).
Proof.
  unfold read. destruct v; try discriminate; intros _; cbn [getProp];
    try reflexivity; destruct (parseIndex (lit k)); reflexivity.
Qed.

Lemma getProp_nullish (v : value) (k : jsstring) :
  nullish v = true -> getProp v k = Throw TypeError.
Proof. destruct v; try discriminate; reflexivity. Qed.

Lemma read_nullish (v : value) (k : string) :
  nullish v = true -> read v k = VUndefined.
Proof. destruct v; try discriminate; reflexivity. Qed.

Lemma orDefault_object (v : value) (fs : list (jsstring * value)) :
  nullish (orDefault v (VObj fs)) = false.
Proof. unfold orDefault. destruct (nullish v) eqn:H; [reflexivity | exact H]. Qed.

Lemma gidIn_cases (v : value) :
  gidIn v = if isObject v then Normal (hasGid v) else Throw TypeError.
Proof. destruct v; reflexivity. Qed.

Lemma callSome_no_array (v : value) :
  isArray v = false -> callSome cfg otherEq v = Throw TypeError.
Proof. destruct v; try discriminate; reflexivity. Qed.

(** The two tests on the content throw exactly when [contentFails]. *)
Lemma content_tests (c : value) :
  andThen (callIncludes c (botMention cfg)) (fun byText =>
  if byText then Normal true
  else andThen (callToLowerCase c) (fun lower =>
       Normal (includes lower (lit "@chatgpt"))))
  = if contentFails cfg c then Throw TypeError
    else Normal (contentMentions cfg c).
Proof.
  destruct c; try reflexivity.
  - cbn [callIncludes andThen callToLowerCase contentFails contentMentions].
    destruct (includes s (botMention cfg)); reflexivity.
  - cbn [callIncludes andThen callToLowerCase contentFails contentMentions].
    destruct (existsb (isText (botMention cfg)) xs); reflexivity.
Qed.

Lemma mentionedValue_cases (data : value) :
  nullish data = false ->
  match mentionedValue cfg otherEq data with
  | Normal mentioned =>
    nullish (read data "detail")
    || throws (callSome cfg otherEq (listedMentions data))
    || negb (holds (callSome cfg otherEq (listedMentions data)))
       && contentFails cfg (read (read data "detail") "content") = false /\
    mentioned = mentionsBot cfg otherEq data
  | Throw _ =>
    nullish (read data "detail")
    || throws (callSome cfg otherEq (listedMentions data))
    || negb (holds (callSome cfg otherEq (listedMentions data)))
       && contentFails cfg (read (read data "detail") "content") = true
  end.
Proof.
  intros Hdata. unfold mentionedValue, mentionsBot, listedMentions.
  rewrite (getProp_read data "detail" Hdata). cbn [andThen].
  destruct (nullish (read data "detail")) eqn:Hdetail.
  - rewrite (getProp_nullish _ _ Hdetail). reflexivity.
  - rewrite (getProp_read _ "properties" Hdetail). cbn [andThen].
    rewrite (getProp_read _ "mentions" (orDefault_object _ [])). cbn [andThen].
    destruct (callSome cfg otherEq _) as [[|]|e]; cbn [andThen];
      [split; reflexivity | | reflexivity].
    rewrite (getProp_read _ "content" Hdetail). cbn [andThen].
    rewrite content_tests. cbn [throws isNormal holds negb orb andb].
    destruct (contentFails cfg _); [reflexivity | split; reflexivity].
Qed.

(** The [try] block on an arbitrary body: it throws exactly on the bodies
    that [illShaped] describes, and otherwise gives the answer that
    [earlyAnswer] reads off the body. *)
Lemma screen_cases (data : value) :
  match screen cfg otherEq data with
  | Normal early =>
    illShaped cfg otherEq data = false /\ early = earlyAnswer cfg otherEq data
  | Throw _ => illShaped cfg otherEq data = true
  end.
Proof.
  unfold screen, illShaped, earlyAnswer.
  destruct (nullish data) eqn:Hdata.
  - rewrite (getProp_nullish _ _ Hdata). reflexivity.
  - rewrite (getProp_read data "from_uid" Hdata). cbn [andThen orb].
    destruct (looseEq cfg otherEq (read data "from_uid")) as [[|]|e];
      cbn [andThen throws isNormal holds negb orb andb];
      [split; reflexivity | | reflexivity].
    rewrite (getProp_read data "target" Hdata). cbn [andThen].
    rewrite gidIn_cases.
    destruct (isObject (read data "target")); [|reflexivity].
    cbn [andThen negb orb].
    destruct (hasGid (read data "target")); [|split; reflexivity]. cbn [andb].
    pose proof (mentionedValue_cases data Hdata) as Hm.
    destruct (mentionedValue cfg otherEq data) as [mentioned|e]; cbn [andThen].
    + destruct Hm as [-> ->].
      destruct (mentionsBot cfg otherEq data); split; reflexivity.
    + exact Hm.
Qed.

Lemma someEq_numbers (l : list Z) :
  someEq cfg otherEq (map VNum l) = Normal (existsb (looseEqBot cfg) l).
Proof.
  induction l as [|z l IH]; [reflexivity|].
  cbn [map someEq looseEq andThen existsb].
  destruct (looseEqBot cfg z); [reflexivity | exact IH].
Qed.

Lemma mentions_toJSON (p : option Properties) :
  andThen (getProp (orDefault (propertiesJSON p) (VObj [])) (lit "mentions"))
          (fun listed => callSome cfg otherEq (orDefault listed (VArr [])))
  = Normal (existsb (looseEqBot cfg)
              (match p with
               | Some props => match mentions props with Some l => l | None => [] end
               | None => []
               end)).
Proof.
  destruct p as [[ct [l|]]|]; [| |reflexivity].
  - destruct ct as [v|];
      (transitivity (someEq cfg otherEq (map VNum l));
       [reflexivity | apply someEq_numbers]).
  - destruct ct as [v|]; reflexivity.
Qed.

(** On the body that has the shape of a message, the computation of
    [mentionedAtGroup] gives what it gives on the message. *)
Lemma mentionedValue_toJSON (data : Message) :
  mentionedValue cfg otherEq (toJSON data) = Normal (mentionedAtGroup cfg data).
Proof.
  unfold mentionedValue, mentionedAtGroup, mentionsOf.
  change (getProp (toJSON data) (lit "detail")) with (Normal (detailJSON (detail data))).
  cbn [andThen].
  change (getProp (detailJSON (detail data)) (lit "properties"))
    with (Normal (propertiesJSON (properties (detail data)))).
  cbn [andThen].
  pose proof (mentions_toJSON (properties (detail data))) as Hm.
  destruct (getProp (orDefault (propertiesJSON (properties (detail data))) (VObj []))
              (lit "mentions")) as [listed|e]; [|discriminate].
  cbn [andThen] in Hm |- *. rewrite Hm. cbn [andThen].
  destruct (existsb (looseEqBot cfg) _); [reflexivity|].
  change (getProp (detailJSON (detail data)) (lit "content"))
    with (Normal (VStr (content (detail data)))).
  cbn [andThen callIncludes callToLowerCase orb]. unfold botMention.
  destruct (includes (content (detail data)) _); reflexivity.
Qed.

Lemma screen_toJSON (data : Message) :
  screen cfg otherEq (toJSON data)
  = Normal (if looseEqBot cfg (from_uid data)
            then Some (lit "ignore sent by bot self")
            else if inGroup (target data) && negb (mentionedAtGroup cfg data)
                 then Some (lit "ignore not mention at group")
                 else None).
Proof.
  unfold screen.
  change (getProp (toJSON data) (lit "from_uid")) with (Normal (VNum (from_uid data))).
  cbn [andThen looseEq].
  destruct (looseEqBot cfg (from_uid data)); [reflexivity|].
  change (getProp (toJSON data) (lit "target")) with (Normal (targetJSON (target data))).
  cbn [andThen].
  assert (Hg : gidIn (targetJSON (target data)) = Normal (inGroup (target data)))
    by (destruct (target data); reflexivity).
  rewrite Hg. cbn [andThen].
  destruct (inGroup (target data)); [|reflexivity].
  rewrite mentionedValue_toJSON. cbn [andThen andb].
  destruct (mentionedAtGroup cfg data); reflexivity.
Qed.

(** What the handler on messages answers and pushes, in every state. *)
Lemma handler_obs (req : HttpRequest) (s : State) :
  responses (snd (handler cfg req s))
  = [snd (handlerValue cfg otherEq (asHook req))] /\
  match fst (handlerValue cfg otherEq (asHook req)) with
  | Some v =>
    exists data, req_json req = Normal data /\ v = toJSON data /\
                 pushes (snd (handler cfg req s)) = [data]
  | None => fst (handler cfg req s) = s /\ pushes (snd (handler cfg req s)) = []
  end.
Proof.
  unfold handler, handlerValue, asHook. cbn [hook_method hook_json].
  destruct (String.eqb (req_method req) "POST").
  - destruct (req_json req) as [data|e]; cbn [andThen];
      [|cbn [fst snd]; split; [reflexivity | split; reflexivity]].
    rewrite screen_toJSON. cbn [andThen].
    destruct (looseEqBot cfg (from_uid data));
      [cbn [fst snd]; split; [reflexivity | split; reflexivity]|].
    destruct (inGroup (target data) && negb (mentionedAtGroup cfg data));
      [cbn [fst snd]; split; [reflexivity | split; reflexivity]|].
    cbn [fst snd processingPromise].
    destruct (processingPromise s).
    + split; [reflexivity|]. exists data. auto.
    + unfold processQueueParallel. cbn [messageQueue].
      destruct (messageQueue s); (split; [reflexivity|]; exists data; auto).
  - destruct (String.eqb (req_method req) "GET"); cbn [fst snd];
      (split; [reflexivity | split; reflexivity]).
Qed.

(** X7 -- The handler answers every request once, whatever its body, and
    its answer does not depend on the state of the queue.  The status is
    405 exactly for a method other than POST and GET; 500 exactly for a
    POST whose body is not JSON or is one of the parsed bodies on which
    the [try] block throws (see [illShaped]); 200 otherwise.  A body is
    pushed exactly when it is a well-shaped one of a POST, its sender is
    not the bot and, if its target is a group, it mentions the bot; the
    answer is then ['Message queued'].  On a body that has the shape of a
    message the [try] block never throws, and the handler on messages
    answers and pushes what the handler on that body does; unless it
    pushes, it leaves the state as it was. *)
Theorem handler_answer :
  (forall hook : Hook,
     let pushed := fst (handlerValue cfg otherEq hook) in
     let st := fst (snd (handlerValue cfg otherEq hook)) in
     let text := snd (snd (handlerValue cfg otherEq hook)) in
     (st = 405%N <->
      hook_method hook <> "POST"%string /\ hook_method hook <> "GET"%string) /\
     (st = 500%N <->
      hook_method hook = "POST"%string /\
      match hook_json hook with
      | Normal data => illShaped cfg otherEq data = true
      | Throw _ => True
      end) /\
     (st = 200%N \/ st = 405%N \/ st = 500%N) /\
     (forall data,
        pushed = Some data <->
        hook_method hook = "POST"%string /\
        hook_json hook = Normal data /\
        illShaped cfg otherEq data = false /\
        holds (looseEq cfg otherEq (read data "from_uid")) = false /\
        (hasGid (read data "target") = true ->
         mentionsBot cfg otherEq data = true)) /\
     (pushed <> None -> st = 200%N /\ text = lit "Message queued")) /\
  (forall (req : HttpRequest) (s : State),
     responses (snd (handler cfg req s))
     = [snd (handlerValue cfg otherEq (asHook req))] /\
     match fst (handlerValue cfg otherEq (asHook req)) with
     | Some v =>
       exists data, req_json req = Normal data /\ v = toJSON data /\
                    pushes (snd (handler cfg req s)) = [data]
     | None =>
       fst (handler cfg req s) = s /\ pushes (snd (handler cfg req s)) = []
     end) /\
  (forall data : Message, illShaped cfg otherEq (toJSON data) = false).
Proof.
  split; [|split].
  - intros hook. unfold handlerValue.
    destruct (String.eqb (hook_method hook) "POST") eqn:Hpost.
    + apply String.eqb_eq in Hpost.
      destruct (hook_json hook) as [data|e]; cbn [andThen].
      * pose proof (screen_cases data) as Hscreen.
        destruct (screen cfg otherEq data) as [early|e]; cbn [andThen].
        2:{ cbn [fst snd]. split; [|split; [|split; [|split]]].
            - split; [discriminate | intros [H _]; contradiction].
            - split; auto.
            - auto.
            - intros data0. split; [discriminate|].
              intros (_ & E & H & _). injection E as <-. congruence.
            - intros H. contradiction. }
        destruct Hscreen as [Hill ->]. unfold earlyAnswer.
        destruct (holds (looseEq cfg otherEq (read data "from_uid"))) eqn:Hself.
        { cbn [fst snd]. split; [|split; [|split; [|split]]].
          - split; [discriminate | intros [H _]; contradiction].
          - split; [discriminate | intros [_ H]; congruence].
          - auto.
          - intros data0. split; [discriminate|].
            intros (_ & E & _ & H & _). injection E as <-. congruence.
          - intros H. contradiction. }
        destruct (hasGid (read data "target") && negb (mentionsBot cfg otherEq data))
          eqn:Hdrop.
        { apply andb_true_iff in Hdrop. destruct Hdrop as [Hgid Hmen].
          apply negb_true_iff in Hmen.
          cbn [fst snd]. split; [|split; [|split; [|split]]].
          - split; [discriminate | intros [H _]; contradiction].
          - split; [discriminate | intros [_ H]; congruence].
          - auto.
          - intros data0. split; [discriminate|].
            intros (_ & E & _ & _ & H). injection E as <-.
            specialize (H Hgid). congruence.
          - intros H. contradiction. }
        cbn [fst snd]. split; [|split; [|split; [|split]]].
        { split; [discriminate | intros [H _]; contradiction]. }
        { split; [discriminate | intros [_ H]; congruence]. }
        { auto. }
        { intros data0. split.
          - intros E. injection E as <-.
            split; [exact Hpost|]. split; [reflexivity|].
            split; [exact Hill|]. split; [exact Hself|].
            intros Hgid. rewrite Hgid in Hdrop. cbn [andb] in Hdrop.
            now apply negb_false_iff in Hdrop.
          - intros (_ & E & _). injection E as <-. reflexivity. }
        { intros _. split; reflexivity. }
      * cbn [fst snd]. split; [|split; [|split; [|split]]].
        { split; [discriminate | intros [H _]; contradiction]. }
        { split; auto. }
        { auto. }
        { intros data0. split; [discriminate|].
          intros (_ & E & _). discriminate. }
        { intros H. contradiction. }
    + assert (Hne : hook_method hook <> "POST"%string)
        by (intros E; rewrite E in Hpost; discriminate).
      destruct (String.eqb (hook_method hook) "GET") eqn:Hget.
      * apply String.eqb_eq in Hget.
        cbn [fst snd]. split; [|split; [|split; [|split]]].
        { split; [discriminate | intros [_ H]; contradiction]. }
        { split; [discriminate | intros [H _]; contradiction]. }
        { auto. }
        { intros data0. split; [discriminate|].
          intros (H & _). contradiction. }
        { intros H. contradiction. }
      * assert (Hng : hook_method hook <> "GET"%string)
          by (intros E; rewrite E in Hget; discriminate).
        cbn [fst snd]. split; [|split; [|split; [|split]]].
        { split; auto. }
        { split; [discriminate | intros [H _]; contradiction]. }
        { auto. }
        { intros data0. split; [discriminate|].
          intros (H & _). contradiction. }
        { intros H. contradiction. }
  - intros req s. apply handler_obs.
  - intros data.
    pose proof (screen_cases (toJSON data)) as H.
    rewrite screen_toJSON in H. exact (proj1 H).
Qed.

End UntypedHandler.


(** ** More on the dispatcher and the generator *)

Section Replies.

Variable cfg : Config.

(** A resolved response whose body is not JSON makes [sendMessageToBot]
    fail on the spot: the request is not made again. *)
Lemma sendMessageToBot_bad_body (url message : jsstring) (w : World)
    (k : nat) (r : Response) (e : JSError) :
  k < defaultMaxRetries ->
  (forall j, j < k ->
     isNormal (attempt url (sendOptions cfg message) w j) = false) ->
  attempt url (sendOptions cfg message) w k = Normal r ->
  json r = Throw e ->
  exists w', sendMessageToBot cfg url message w = (Throw e, w') /\
             newEvents w w'
             = backoff url (sendOptions cfg message) 0 k
               ++ [EvLog "bot: send failed"].
Proof.
  intros Hk Hfail Hok Hjson.
  destruct (fetchWithRetry_first_answer url (sendOptions cfg message) _ w k r
              Hk Hfail Hok)
    as (w1 & Hrun & _ & Htr & _).
  pose proof (fetchWithRetry_trace _ _ _ _ _ _ Hrun) as Ht. rewrite Htr in Ht.
  unfold sendMessageToBot, tryCatch, bind. rewrite Hrun.
  unfold await. rewrite Hjson. cbn [log emit throw].
  eexists. split; [reflexivity|].
  apply newEvents_app. cbn [trace]. rewrite Ht, <- app_assoc. reflexivity.
Qed.

(** X8 -- An answered reply request whose response body is not JSON counts
    as a failed delivery: [sendMessageToBot] throws the parse error without
    retrying, and the task goes on to deliver the fixed failure message as
    well, so the conversation is sent both. *)
Theorem unreadable_answer_sends_both (message : Message) (w w1 : World)
    (response : jsstring) (k : nat) (r : Response) (e : JSError) :
  processMessage cfg message w = (Normal response, w1) ->
  k < defaultMaxRetries ->
  (forall j, j < k ->
     isNormal (attempt (replyUrl cfg message) (sendOptions cfg response) w1 j)
     = false) ->
  attempt (replyUrl cfg message) (sendOptions cfg response) w1 k = Normal r ->
  json r = Throw e ->
  (exists w2,
     sendMessageToBot cfg (replyUrl cfg message) response w1 = (Throw e, w2) /\
     attempts (newEvents w1 w2) = S k) /\
  exists w' ok,
    processTask cfg message w = (Normal tt, w') /\
    deliveries None (newEvents w w')
    = [delivery cfg message response false;
       delivery cfg message errorMessage ok].
Proof.
  intros Hpm Hk Hfail Hok Hjson.
  destruct (sendMessageToBot_bad_body (replyUrl cfg message) response w1 k r e
              Hk Hfail Hok Hjson) as (w2 & Hsend & Hev).
  split.
  { exists w2. split; [exact Hsend|].
    rewrite Hev. unfold attempts. rewrite filter_app, length_app.
    fold (attempts (backoff (replyUrl cfg message) (sendOptions cfg response) 0 k)).
    rewrite attempts_backoff. cbn. lia. }
  pose proof (processMessage_calm cfg message w _ _ Hpm) as (_ & evs1 & Ht1 & Hc1).
  pose proof (calm_quiet _ Hc1) as Hq1.
  pose proof (sendMessageToBot_run cfg _ _ _ _ _ Hsend) as (_ & k' & _ & Ht2).
  cbn [isNormal] in Ht2. rewrite Ht1, <- app_assoc in Ht2.
  destruct (fallback_run cfg message w2) as (w3 & k2 & ok & Hrun & _ & Ht3).
  exists w3, ok. split.
  - unfold processTask, tryCatch at 1, bind at 1. rewrite Hpm, Hsend. exact Hrun.
  - rewrite Ht2, <- !app_assoc in Ht3. rewrite (newEvents_app _ _ _ Ht3).
    destruct (fallback_deliveries cfg message k2 ok []
                (Some (replyUrl cfg message, sendOptions cfg response)))
      as [Hd _]. cbn zeta in Hd.
    change ([EvLog (sendLine false)] ++ ?r) with (EvLog (sendLine false) :: r).
    rewrite (deliveries_send evs1 _ _ k' false None _ Hq1), Hd. reflexivity.
Qed.

End Replies.

Lemma unreadable_answer_sends_both_witness :
  exists w' ok,
    processTask exampleCfg m1 (startWorld plainTextServer) = (Normal tt, w') /\
    deliveries None (newEvents (startWorld plainTextServer) w')
    = [delivery exampleCfg m1 (lit "Hello!") false;
       delivery exampleCfg m1 errorMessage ok].
Proof.
  refine (proj2 (unreadable_answer_sends_both exampleCfg m1
                   (startWorld plainTextServer)
                   (snd (processMessage exampleCfg m1 (startWorld plainTextServer)))
                   (lit "Hello!") 0
                   {| status := 200; json := Throw SyntaxError;
                      arrayBuffer := Normal [] |}
                   SyntaxError _ _ _ _ _)).
  - vm_compute. reflexivity.
  - unfold defaultMaxRetries. lia.
  - intros j Hj. lia.
  - vm_compute. reflexivity.
  - reflexivity.
Defined.

Section Answers.

Variable cfg : Config.

(** [measureTime] hands on what the measured call returns. *)
Lemma measureTime_answered {T} (name : string) (fn : M T) (w w1 : World) (a : T) :
  fn w = (Normal a, w1) ->
  exists w2, measureTime name fn w = (Normal a, w2).
Proof.
  intros H. unfold measureTime, bind, Date_now. rewrite H.
  unfold log, emit, ret. eexists. reflexivity.
Qed.

Lemma measureTime_failed {T} (name : string) (fn : M T) (w w1 : World) (e : JSError) :
  fn w = (Throw e, w1) -> measureTime name fn w = (Throw e, w1).
Proof. intros H. unfold measureTime, bind, Date_now. now rewrite H. Qed.

(** The second phase of [processMessage], on the completion endpoint's
    answer. *)
Lemma completion_answered (message : Message) (requestBody : ChatRequest)
    (w : World) (k : nat) (resp : Response) :
  k < defaultMaxRetries ->
  (forall j, j < k ->
     isNormal (attempt (completionUrl cfg) (completionOptions cfg requestBody) w j)
     = false) ->
  attempt (completionUrl cfg) (completionOptions cfg requestBody) w k = Normal resp ->
  fst (tryCatch
         (aiResp <- measureTime "AI API call"
                      (fetchWithRetry (completionUrl cfg)
                         (completionOptions cfg requestBody) defaultMaxRetries) ;;
          aiData <- await (json aiResp) ;;
          choices <- await (getProp aiData (lit "choices")) ;;
          if negb (truthy choices)
          then throw (Error "Unexpected API response format")
          else
            choice0 <- await (getProp choices (lit "0")) ;;
            if negb (truthy choice0)
            then throw (Error "Unexpected API response format")
            else
              msg <- await (getProp choice0 (lit "message")) ;;
              if negb (truthy msg)
              then throw (Error "Unexpected API response format")
              else
                text <- await (getProp msg (lit "content")) ;;
                await (callTrim text))
         (fun error =>
            log "Error calling OpenAI API" ;;;
            consoleError "Full error object:" ;;;
            if isImageMessage message then ret imageApology else ret textApology)
         w)
  = Normal match json resp with
           | Normal aiData =>
             match replyText aiData with
             | Some text => trim text
             | None => apologyFor message
             end
           | Throw _ => apologyFor message
           end.
Proof.
  intros Hk Hfail Hok.
  destruct (fetchWithRetry_first_answer _ _ _ w k resp Hk Hfail Hok)
    as (w1 & Hrun & _).
  destruct (measureTime_answered "AI API call" _ _ _ _ Hrun) as (w2 & Hm).
  unfold tryCatch, bind at 1. rewrite Hm.
  assert (Hap : forall w0,
             fst ((log "Error calling OpenAI API" ;;;
                   consoleError "Full error object:" ;;;
                   if isImageMessage message then ret imageApology
                   else ret textApology) w0)
             = Normal (apologyFor message)).
  { intros w0. destruct (apology_run message w0) as (w3 & ->). reflexivity. }
  unfold bind at 1, await at 1.
  destruct (json resp) as [aiData|e]; [|apply Hap].
  unfold replyText. unfold bind at 1, await at 1.
  destruct (getProp aiData (lit "choices")) as [choices|]; [|apply Hap].
  destruct (truthy choices); cbn [negb]; [|apply Hap].
  unfold bind at 1, await at 1.
  destruct (getProp choices (lit "0")) as [choice0|]; [|apply Hap].
  destruct (truthy choice0); cbn [negb]; [|apply Hap].
  unfold bind at 1, await at 1.
  destruct (getProp choice0 (lit "message")) as [msg|]; [|apply Hap].
  destruct (truthy msg); cbn [negb]; [|apply Hap].
  unfold bind at 1, await at 1.
  destruct (getProp msg (lit "content")) as [text|]; [|apply Hap].
  unfold await, callTrim.
  destruct text; try apply Hap. reflexivity.
Qed.

Lemma completion_unreachable (message : Message) (requestBody : ChatRequest)
    (w : World) :
  (forall j, j < defaultMaxRetries ->
     isNormal (attempt (completionUrl cfg) (completionOptions cfg requestBody) w j)
     = false) ->
  forall rest,
    fst (tryCatch
           (aiResp <- measureTime "AI API call"
                        (fetchWithRetry (completionUrl cfg)
                           (completionOptions cfg requestBody) defaultMaxRetries) ;;
            rest aiResp)
           (fun error =>
              log "Error calling OpenAI API" ;;;
              consoleError "Full error object:" ;;;
              if isImageMessage message then ret imageApology else ret textApology)
           w)
    = Normal (apologyFor message).
Proof.
  intros Hall rest.
  destruct (fetchWithRetry (completionUrl cfg) (completionOptions cfg requestBody)
              defaultMaxRetries w) as [res w1] eqn:Hrun.
  assert (Hthrow : isNormal res = false).
  { apply fetchWithRetry_run in Hrun.
    destruct Hrun as [_ [(H0 & _) | (k & Hk & _ & -> & _)]];
      [discriminate | now apply Hall]. }
  destruct res as [r|e]; [discriminate|].
  unfold tryCatch, bind at 1. rewrite (measureTime_failed _ _ _ _ _ Hrun).
  destruct (apology_run message w1) as (w3 & ->). reflexivity.
Qed.

(** X9 -- What a text message is answered with.  When the completion
    endpoint is reached within the three attempts, the reply is the trimmed
    [choices[0].message.content] of the first answer if that answer is JSON
    with a string there, and the text apology otherwise; when none of the
    three attempts is answered, the reply is the text apology. *)
Theorem text_reply (message : Message) (w : World) :
  isImageMessage message = false ->
  let request :=
    completionOptions cfg
      (textRequest (textModel cfg) (processMessageContent (content (detail message)))) in
  (forall k resp,
     k < defaultMaxRetries ->
     (forall j, j < k ->
        isNormal (attempt (completionUrl cfg) request w j) = false) ->
     attempt (completionUrl cfg) request w k = Normal resp ->
     fst (processMessage cfg message w)
     = Normal match json resp with
              | Normal aiData =>
                match replyText aiData with
                | Some text => trim text
                | None => textApology
                end
              | Throw _ => textApology
              end) /\
  ((forall j, j < defaultMaxRetries ->
      isNormal (attempt (completionUrl cfg) request w j) = false) ->
   fst (processMessage cfg message w) = Normal textApology).
Proof.
  intros Hnot request.
  assert (Hap : apologyFor message = textApology)
    by (unfold apologyFor; now rewrite Hnot).
  split.
  - intros k resp Hk Hfail Hok.
    pose proof (completion_answered message _ w k resp Hk Hfail Hok) as H.
    rewrite Hap, Hnot in H. unfold processMessage. rewrite Hnot. exact H.
  - intros Hall.
    pose proof (completion_unreachable message _ w Hall) as H.
    rewrite Hap in H. unfold processMessage. rewrite Hnot.
    specialize (H (fun aiResp =>
      aiData <- await (json aiResp) ;;
      choices <- await (getProp aiData (lit "choices")) ;;
      if negb (truthy choices)
      then throw (Error "Unexpected API response format")
      else
        choice0 <- await (getProp choices (lit "0")) ;;
        if negb (truthy choice0)
        then throw (Error "Unexpected API response format")
        else
          msg <- await (getProp choice0 (lit "message")) ;;
          if negb (truthy msg)
          then throw (Error "Unexpected API response format")
          else
            text <- await (getProp msg (lit "content")) ;;
            await (callTrim text))).
    rewrite Hnot in H. exact H.
Qed.

End Answers.

Lemma text_reply_witness :
  fst (processMessage exampleCfg m1 (startWorld healthy)) = Normal (lit "Hello!") /\
  fst (processMessage exampleCfg m1 (startWorld down)) = Normal textApology.
Proof.
  destruct (text_reply exampleCfg m1 (startWorld healthy) eq_refl) as [Hans _].
  destruct (text_reply exampleCfg m1 (startWorld down) eq_refl) as [_ Hdown].
  split.
  - apply (Hans 0 (okResponse 200 (chatAnswer " Hello! "))).
    + unfold defaultMaxRetries. lia.
    + intros j Hj. lia.
    + reflexivity.
  - apply Hdown. intros j Hj. reflexivity.
Defined.

Section Attachment.

Variable cfg : Config.

(** X10 -- The attachment of an image message.  When the download fails --
    the request is rejected or the body cannot be read -- [processMessage]
    returns the image apology after that one request and never calls the
    completion endpoint.  When it succeeds, the next request is the
    completion request whose image is the data URL made of the
    attachment's declared content type and the Base64 of its bytes. *)
Theorem attachment_download (message : Message) (encoded : jsstring) (w : World) :
  isImageMessage message = true ->
  encodeURIComponent (content (detail message)) = Normal encoded ->
  let reply := network w (fetched w) (resourceUrl cfg encoded) noOptions in
  (forall e,
     settled reply = Throw e \/
     (exists resp, settled reply = Normal resp /\ arrayBuffer resp = Throw e) ->
     exists w',
       processMessage cfg message w = (Normal imageApology, w') /\
       newEvents w w'
       = [resourceFetch cfg encoded; EvLog "Error fetching or converting image"]) /\
  (forall resp bytes,
     settled reply = Normal resp -> arrayBuffer resp = Normal bytes ->
     exists evs,
       newEvents w (snd (processMessage cfg message w))
       = resourceFetch cfg encoded
         :: imageCompletion cfg
              (lit "data:" ++ propsContentType message ++ lit ";base64,"
               ++ base64 bytes)
         :: evs).
Proof.
  intros Himg Henc reply. split.
  - intros e Hfail.
    unfold processMessage. rewrite Himg, Henc.
    unfold bind at 1. unfold bind at 1. unfold await at 1.
    unfold tryCatch at 1. unfold bind at 1.
    unfold getImageBase64. unfold bind at 1. unfold fetch.
    fold (resourceUrl cfg encoded). fold reply.
    destruct Hfail as [Hrej | (resp & Hres & Hbuf)].
    + rewrite Hrej. unfold advance, log, emit, bind, ret. cbn [trace network now fetched].
      eexists. split; [reflexivity|].
      apply newEvents_app. cbn [trace]. rewrite <- app_assoc. reflexivity.
    + rewrite Hres. unfold bind at 1, await at 1. rewrite Hbuf.
      unfold advance, log, emit, bind, ret. cbn [trace network now fetched].
      eexists. split; [reflexivity|].
      apply newEvents_app. cbn [trace]. rewrite <- app_assoc. reflexivity.
  - intros resp bytes Hres Hbuf.
    destruct (processMessage cfg message w) as [res w'] eqn:H. cbn [snd].
    unfold processMessage in H. rewrite Himg, Henc in H.
    unfold bind at 1 in H. unfold bind at 1 in H. unfold await at 1 in H.
    unfold tryCatch at 1 in H. unfold bind at 1 in H.
    unfold getImageBase64 in H. unfold bind at 1 in H. unfold fetch in H.
    fold (resourceUrl cfg encoded) in H. fold reply in H.
    rewrite Hres in H. unfold bind at 1, await at 1 in H. rewrite Hbuf in H.
    unfold ret at 1 in H. unfold ret at 1 in H. cbv beta iota in H.
    apply (begins_tryCatch
             (imageCompletion cfg
                (lit "data:" ++ propsContentType message ++ lit ";base64,"
                 ++ base64 bytes))) in H.
    + destruct H as (evs & Ht). exists evs. apply newEvents_app.
      rewrite Ht. unfold advance. cbn [trace]. rewrite <- app_assoc. reflexivity.
    + apply begins_bind; [|auto 12 with appends].
      apply begins_measureTime, begins_fetchWithRetry.
    + unfold consoleError. auto 8 with appends.
Qed.

End Attachment.

Lemma attachment_download_witness :
  exists w',
    processMessage exampleCfg pngMessage (startWorld noAttachment)
    = (Normal imageApology, w') /\
    newEvents (startWorld noAttachment) w'
    = [resourceFetch exampleCfg (lit "2024%2F7%2Fcat.png");
       EvLog "Error fetching or converting image"].
Proof.
  destruct (attachment_download exampleCfg pngMessage (lit "2024%2F7%2Fcat.png")
              (startWorld noAttachment) eq_refl eq_refl) as [Hfail _].
  apply (Hfail (NetworkError 404)). left. reflexivity.
Defined.

(** ** How many requests a message costs *)

Lemma attempts_app (a b : list Event) : attempts (a ++ b) = attempts a + attempts b.
Proof. unfold attempts. now rewrite filter_app, length_app. Qed.

Lemma spends_silent {A} (m : M A) :
  (forall w res w', m w = (res, w') ->
     exists evs, trace w' = trace w ++ evs /\ attempts evs = 0) ->
  forall n, spends n m.
Proof.
  intros H n w res w' Hm. destruct (H _ _ _ Hm) as (evs & Ht & Ha).
  exists evs. split; [exact Ht | lia].
Qed.

Lemma spends_ret {A} (a : A) (n : nat) : spends n (ret a).
Proof.
  apply spends_silent. intros w res w' H. injection H as _ <-.
  exists []. now rewrite app_nil_r.
Qed.

Lemma spends_throw {A} (e : JSError) (n : nat) : spends n (@throw A e).
Proof.
  apply spends_silent. intros w res w' H. injection H as _ <-.
  exists []. now rewrite app_nil_r.
Qed.

Lemma spends_await {A} (c : Completion A) (n : nat) : spends n (await c).
Proof.
  apply spends_silent. intros w res w' H. injection H as _ <-.
  exists []. now rewrite app_nil_r.
Qed.

Lemma spends_Date_now (n : nat) : spends n Date_now.
Proof.
  apply spends_silent. intros w res w' H. injection H as _ <-.
  exists []. now rewrite app_nil_r.
Qed.

Lemma spends_log (message : string) (n : nat) : spends n (log message).
Proof.
  apply spends_silent. intros w res w' H. injection H as _ <-.
  exists [EvLog message]. auto.
Qed.

Lemma spends_sleep (ms : N) (n : nat) : spends n (sleep ms).
Proof.
  apply spends_silent. intros w res w' H. injection H as _ <-.
  exists [EvSleep ms]. auto.
Qed.

Lemma spends_fetch (url : jsstring) (options : RequestInit) (signal : option N)
    (n : nat) :
  1 <= n -> spends n (fetch url options signal).
Proof.
  intros Hn w res w' H. exists [EvFetch url options]. split; [|exact Hn].
  unfold fetch in H.
  destruct signal as [t|];
    [destruct (N.ltb (latency (network w (fetched w) url options)) t)|];
    injection H as _ <-; reflexivity.
Qed.

Lemma spends_bind {A B} (a b n : nat) (m : M A) (k : A -> M B) :
  spends a m -> (forall x, spends b (k x)) -> a + b <= n -> spends n (bind m k).
Proof.
  intros Hm Hk Hn w res w' H. unfold bind in H.
  destruct (m w) as [[x|e] w1] eqn:Hmw; apply Hm in Hmw;
    destruct Hmw as (evs1 & Ht1 & Ha1).
  - apply Hk in H. destruct H as (evs2 & Ht2 & Ha2).
    exists (evs1 ++ evs2). rewrite Ht2, Ht1, app_assoc, attempts_app.
    split; [reflexivity | lia].
  - injection H as _ <-. exists evs1. split; [exact Ht1 | lia].
Qed.

Lemma spends_tryCatch {A} (a b n : nat) (m : M A) (h : JSError -> M A) :
  spends a m -> (forall e, spends b (h e)) -> a + b <= n -> spends n (tryCatch m h).
Proof.
  intros Hm Hh Hn w res w' H. unfold tryCatch in H.
  destruct (m w) as [[x|e] w1] eqn:Hmw; apply Hm in Hmw;
    destruct Hmw as (evs1 & Ht1 & Ha1).
  - injection H as _ <-. exists evs1. split; [exact Ht1 | lia].
  - apply Hh in H. destruct H as (evs2 & Ht2 & Ha2).
    exists (evs1 ++ evs2). rewrite Ht2, Ht1, app_assoc, attempts_app.
    split; [reflexivity | lia].
Qed.

Lemma spends_fetchWithRetry (url : jsstring) (options : RequestInit)
    (maxRetries : nat) :
  spends maxRetries (fetchWithRetry url options maxRetries).
Proof.
  intros w res w' H.
  pose proof (fetchWithRetry_trace _ _ _ _ _ _ H) as Ht.
  exists (newEvents w w'). split; [exact Ht|].
  apply fetchWithRetry_run in H.
  destruct H as [_ [(_ & _ & ->) | (k & Hk & _ & _ & _ & -> & _)]].
  - unfold newEvents. rewrite skipn_all. cbn. lia.
  - rewrite attempts_backoff. lia.
Qed.

Lemma spends_measureTime {T} (name : string) (fn : M T) (n : nat) :
  spends n fn -> spends n (measureTime name fn).
Proof.
  intros Hfn. unfold measureTime.
  apply (spends_bind 0 n); [apply spends_Date_now | intros start | lia].
  apply (spends_bind n 0); [exact Hfn | intros result | lia].
  apply (spends_bind 0 0); [apply spends_Date_now | intros stop | lia].
  apply (spends_bind 0 0); [apply spends_log | intros _; apply spends_ret | lia].
Qed.

Section Cost.

Variable cfg : Config.

Lemma spends_sendMessageToBot (url message : jsstring) :
  spends 3 (sendMessageToBot cfg url message).
Proof.
  unfold sendMessageToBot.
  apply (spends_tryCatch 3 0); [|intros e|lia].
  - apply (spends_bind 3 0); [apply spends_fetchWithRetry | intros resp | lia].
    apply (spends_bind 0 0); [apply spends_await | intros v; apply spends_log | lia].
  - apply (spends_bind 0 0); [apply spends_log | intros _; apply spends_throw | lia].
Qed.

Lemma spends_completion (message : Message) (requestBody : ChatRequest) :
  spends 3
    (tryCatch
       (aiResp <- measureTime "AI API call"
                    (fetchWithRetry
                       (orElse (env_OPENAI_API_HOST cfg) (lit "https://api.openai.com")
                        ++ lit "/v1/chat/completions")
                       (completionOptions cfg requestBody) defaultMaxRetries) ;;
        aiData <- await (json aiResp) ;;
        choices <- await (getProp aiData (lit "choices")) ;;
        if negb (truthy choices)
        then throw (Error "Unexpected API response format")
        else
          choice0 <- await (getProp choices (lit "0")) ;;
          if negb (truthy choice0)
          then throw (Error "Unexpected API response format")
          else
            msg <- await (getProp choice0 (lit "message")) ;;
            if negb (truthy msg)
            then throw (Error "Unexpected API response format")
            else
              text <- await (getProp msg (lit "content")) ;;
              await (callTrim text))
       (fun error =>
          log "Error calling OpenAI API" ;;;
          consoleError "Full error object:" ;;;
          if isImageMessage message then ret imageApology else ret textApology)).
Proof.
  apply (spends_tryCatch 3 0); [|intros e|lia].
  - apply (spends_bind 3 0);
      [apply spends_measureTime, spends_fetchWithRetry | intros aiResp | lia].
    apply (spends_bind 0 0); [apply spends_await | intros aiData | lia].
    apply (spends_bind 0 0); [apply spends_await | intros choices | lia].
    destruct (negb (truthy choices)); [apply spends_throw|].
    apply (spends_bind 0 0); [apply spends_await | intros choice0 | lia].
    destruct (negb (truthy choice0)); [apply spends_throw|].
    apply (spends_bind 0 0); [apply spends_await | intros msg | lia].
    destruct (negb (truthy msg)); [apply spends_throw|].
    apply (spends_bind 0 0); [apply spends_await | intros text; apply spends_await | lia].
  - apply (spends_bind 0 0); [apply spends_log | intros _ | lia].
    apply (spends_bind 0 0); [apply spends_log | intros _ | lia].
    destruct (isImageMessage message); apply spends_ret.
Qed.

Lemma spends_processMessage (message : Message) :
  spends (if isImageMessage message then 4 else 3) (processMessage cfg message).
Proof.
  unfold processMessage. destruct (isImageMessage message) eqn:Himg.
  - apply (spends_bind 1 3); [|intros [requestBody | reply]|lia].
    + apply (spends_bind 0 1); [apply spends_await | intros encoded | lia].
      apply (spends_tryCatch 1 0); [|intros e|lia].
      * unfold getImageBase64.
        apply (spends_bind 1 0); [|intros b; apply spends_ret|lia].
        apply (spends_bind 1 0); [apply spends_fetch; lia | intros resp | lia].
        apply (spends_bind 0 0); [apply spends_await | intros b; apply spends_ret | lia].
      * apply (spends_bind 0 0); [apply spends_log | intros _; apply spends_ret | lia].
    + pose proof (spends_completion message requestBody) as H.
      rewrite Himg in H. exact H.
    + apply spends_ret.
  - apply (spends_bind 0 3); [apply spends_ret | intros [requestBody | reply] | lia].
    + pose proof (spends_completion message requestBody) as H.
      rewrite Himg in H. exact H.
    + apply spends_ret.
Qed.

(** X11 -- What a message can cost.  [processMessage] makes at most three
    requests for a text message and four for an image (the download and up
    to three completion attempts); the whole task of a message, with the
    delivery of the reply and of the fixed failure message, makes at most
    nine, resp. ten, requests. *)
Theorem request_budget (message : Message) (w : World) :
  attempts (newEvents w (snd (processMessage cfg message w)))
  <= (if isImageMessage message then 4 else 3) /\
  attempts (newEvents w (snd (processTask cfg message w)))
  <= (if isImageMessage message then 10 else 9).
Proof.
  split.
  - destruct (spends_processMessage message w _ _ (surjective_pairing _))
      as (evs & Ht & Ha).
    now rewrite (newEvents_app _ _ _ Ht).
  - assert (Htask : spends ((if isImageMessage message then 4 else 3) + 3 + 3)
                      (processTask cfg message)).
    { unfold processTask.
      apply (spends_tryCatch ((if isImageMessage message then 4 else 3) + 3) 3);
        [|intros e|lia].
      - apply (spends_bind (if isImageMessage message then 4 else 3) 3);
          [apply spends_processMessage
          |intros response; apply spends_sendMessageToBot | lia].
      - apply (spends_bind 0 3); [apply spends_log | intros _ | lia].
        apply (spends_tryCatch 3 0);
          [apply spends_sendMessageToBot | intros e'; apply spends_log | lia]. }
    destruct (Htask w _ _ (surjective_pairing _)) as (evs & Ht & Ha).
    rewrite (newEvents_app _ _ _ Ht).
    destruct (isImageMessage message); cbn in Ha; lia.
Qed.

End Cost.

(** The budget of a text message is used up when nothing can be reached. *)
Example nine_requests_when_down :
  attempts (trace (snd (processTask exampleCfg m1 (startWorld down)))) = 9.
Proof. vm_compute. reflexivity. Qed.

(** ** The resource URL of an attachment *)

Lemma hexDigit_unreserved (n : N) : (n < 16)%N -> uriUnreserved (hexDigit n) = true.
Proof.
  intros Hn.
  assert (Hin : In n (map N.of_nat (seq 0 16))).
  { rewrite <- (N2Nat.id n). apply in_map. apply in_seq. lia. }
  revert n Hn Hin.
  assert (Hall : forallb (fun n => uriUnreserved (hexDigit n)) (map N.of_nat (seq 0 16))
                 = true) by (vm_compute; reflexivity).
  rewrite forallb_forall in Hall. intros n _ Hin. now apply Hall.
Qed.

Lemma shiftr_lt (a k q : N) : (a < 2 ^ k * q)%N -> (N.shiftr a k < q)%N.
Proof.
  intros H. rewrite N.shiftr_div_pow2.
  apply N.Div0.div_lt_upper_bound. exact H.
Qed.

Lemma cont_lt (x : N) : (JS.cont x < 64)%N.
Proof.
  unfold JS.cont. change 0x3F%N with (N.ones 6). rewrite N.land_ones.
  apply N.mod_lt. discriminate.
Qed.

Lemma percent_safe (b : N) :
  (b < 256)%N -> Forall (fun u => urlSafe u = true) (percent b).
Proof.
  intros Hb. unfold percent, urlSafe. repeat constructor.
  - rewrite hexDigit_unreserved; [reflexivity|]. apply shiftr_lt. exact Hb.
  - rewrite hexDigit_unreserved; [reflexivity|].
    change 0xF%N with (N.ones 4). rewrite N.land_ones. apply N.mod_lt. discriminate.
Qed.

Lemma utf8_bytes (cp : N) :
  (cp < 0x110000)%N -> Forall (fun b => (b < 256)%N) (utf8_of_codepoint cp).
Proof.
  intros Hcp. unfold utf8_of_codepoint.
  destruct (cp <? 0x80)%N eqn:H1; [apply N.ltb_lt in H1; repeat constructor; lia|].
  destruct (cp <? 0x800)%N eqn:H2.
  { apply N.ltb_lt in H2.
    pose proof (shiftr_lt cp 6 32 H2). pose proof (cont_lt cp).
    repeat constructor; lia. }
  destruct (cp <? 0x10000)%N eqn:H3.
  { apply N.ltb_lt in H3.
    pose proof (shiftr_lt cp 12 16 H3).
    pose proof (cont_lt (N.shiftr cp 6)). pose proof (cont_lt cp).
    repeat constructor; lia. }
  assert (H4 : (cp < 2 ^ 18 * 8)%N) by (cbn; lia).
  pose proof (shiftr_lt cp 18 8 H4).
  pose proof (cont_lt (N.shiftr cp 12)).
  pose proof (cont_lt (N.shiftr cp 6)). pose proof (cont_lt cp).
  repeat constructor; lia.
Qed.

Lemma escapeCodepoint_safe (cp : N) :
  (cp < 0x110000)%N -> Forall (fun u => urlSafe u = true) (escapeCodepoint cp).
Proof.
  intros Hcp. unfold escapeCodepoint.
  pose proof (utf8_bytes cp Hcp) as Hb.
  induction Hb as [|b bs Hb _ IH]; [constructor|].
  cbn [flat_map]. apply Forall_app. split; [now apply percent_safe | exact IH].
Qed.

Lemma encodeURIComponent_safe (n : nat) :
  forall s encoded,
    List.length s <= n -> Forall validUnit s ->
    encodeURIComponent s = Normal encoded ->
    Forall (fun u => urlSafe u = true) encoded.
Proof.
  induction n as [|n IH]; intros s encoded Hlen Hvalid Henc.
  - destruct s; [|cbn in Hlen; lia]. injection Henc as <-. constructor.
  - destruct s as [|u r]; [injection Henc as <-; constructor|].
    cbn [List.length] in Hlen. inversion Hvalid as [|? ? Hu Hr]; subst.
    unfold validUnit in Hu.
    assert (Hprep : forall p c e,
               Forall (fun x => urlSafe x = true) p ->
               (forall e', c = Normal e' -> Forall (fun x => urlSafe x = true) e') ->
               prepend p c = Normal e -> Forall (fun x => urlSafe x = true) e).
    { intros p [c|err] e Hp Hc H; [|discriminate].
      injection H as <-. apply Forall_app. split; [exact Hp | now apply Hc]. }
    cbn [encodeURIComponent] in Henc.
    destruct (uriUnreserved u) eqn:Hun.
    { apply (Hprep _ _ _ ltac:(constructor; [unfold urlSafe; now rewrite Hun | constructor])
                   ltac:(intros e' He'; apply (IH r e'); [lia | exact Hr | exact He'])
                   Henc). }
    destruct (isLowSurrogate u); [discriminate|].
    destruct (isHighSurrogate u) eqn:Hhigh.
    + destruct r as [|l r']; [discriminate|].
      destruct (isLowSurrogate l) eqn:Hlow; [|discriminate].
      inversion Hr as [|? ? Hl Hr']; subst. cbn [List.length] in Hlen.
      refine (Hprep _ _ _ _ _ Henc).
      * apply escapeCodepoint_safe.
        unfold isHighSurrogate, isLowSurrogate in *.
        apply andb_true_iff in Hhigh, Hlow.
        rewrite !N.leb_le in Hhigh, Hlow. lia.
      * intros e' He'. apply (IH r' e'); [lia | exact Hr' | exact He'].
    + refine (Hprep _ _ _ _ _ Henc).
      * apply escapeCodepoint_safe. lia.
      * intros e' He'. apply (IH r e'); [lia | exact Hr | exact He'].
Qed.

(** X12 -- The path of an attachment cannot change the shape of the
    resource URL.  For an image message whose path is a well-formed string,
    the first request of [processMessage] goes to the platform origin
    followed by ['/api/resource/file?file_path='] and the encoded path, and
    the encoded path consists of letters, digits, [- _ . ! ~ * ' ( )] and
    percent signs only: no [&], [=], [?], [#] or [/] of the path reaches
    the URL as such. *)
Theorem resource_url_is_escaped (cfg : Config) (message : Message) (w : World) :
  isImageMessage message = true ->
  Forall validUnit (content (detail message)) ->
  wellFormed (content (detail message)) = true ->
  exists encoded evs,
    encodeURIComponent (content (detail message)) = Normal encoded /\
    Forall (fun u => urlSafe u = true) encoded /\
    newEvents w (snd (processMessage cfg message w))
    = EvFetch (resourceUrl cfg encoded) noOptions :: evs.
Proof.
  intros Himg Hvalid Hwf.
  rewrite (encodeURIComponent_wellFormed _ _ (Nat.le_refl _)) in Hwf.
  destruct (encodeURIComponent (content (detail message))) as [encoded|] eqn:Henc;
    [|discriminate].
  destruct (processMessage_image cfg message encoded w Himg Henc) as (evs & Hev).
  exists encoded, evs. split; [reflexivity|]. split; [|exact Hev].
  exact (encodeURIComponent_safe _ _ _ (Nat.le_refl _) Hvalid Henc).
Qed.

Lemma resource_url_is_escaped_witness :
  exists evs,
    newEvents (startWorld healthy)
      (snd (processMessage exampleCfg
              (fileMessage 14 (lit "a b/c&d=é?.png") "image/png")
              (startWorld healthy)))
    = EvFetch (lit "https://chat.example/api/resource/file?file_path=a%20b%2Fc%26d%3D%C3%A9%3F.png")
              noOptions :: evs.
Proof.
  destruct (resource_url_is_escaped exampleCfg
              (fileMessage 14 (lit "a b/c&d=é?.png") "image/png")
              (startWorld healthy) eq_refl)
    as (encoded & evs & Henc & _ & Hev).
  - repeat constructor.
  - reflexivity.
  - exists evs. rewrite Hev. vm_compute in Henc. injection Henc as <-. reflexivity.
Defined.

(** ** The back-off schedule for any number of attempts *)

Lemma backoff_last (url : jsstring) (options : RequestInit) :
  forall k i, last (backoff url options i k) (EvSleep 0) = EvFetch url options.
Proof.
  induction k as [|k IH]; intros i; [reflexivity|].
  cbn [backoff]. specialize (IH (S i)).
  destruct (backoff url options (S i) k) eqn:Hb; [destruct k; discriminate|].
  exact IH.
Qed.

(** X13 -- Whatever [maxRetries] is, a call of [fetchWithRetry] that makes
    [a] attempts sleeps [a - 1] times, 1000 ms doubled each time (1000,
    2000, 4000, ...), and the last thing it does is an attempt: it never
    waits after the attempt that ends the call. *)
Theorem backoff_schedule (url : jsstring) (options : RequestInit)
    (maxRetries : nat) (w : World) (res : Completion Response) (w' : World) :
  1 <= maxRetries ->
  fetchWithRetry url options maxRetries w = (res, w') ->
  1 <= attempts (newEvents w w') <= maxRetries /\
  sleeps (newEvents w w')
  = map (fun j => (1000 * 2 ^ N.of_nat j)%N) (seq 0 (attempts (newEvents w w') - 1)) /\
  last (newEvents w w') (EvSleep 0) = EvFetch url options.
Proof.
  intros Hn Hrun. apply fetchWithRetry_run in Hrun.
  destruct Hrun as [_ [(H0 & _) | (k & Hk & _ & _ & _ & Htr & _)]]; [lia|].
  rewrite Htr, attempts_backoff, sleeps_backoff, backoff_last.
  replace (S k - 1) with k by lia. repeat split; try lia.
Qed.

Lemma backoff_schedule_witness :
  sleeps (newEvents alwaysDown
            (snd (fetchWithRetry exampleUrl exampleOptions 5 alwaysDown)))
  = [1000; 2000; 4000; 8000]%N.
Proof.
  destruct (backoff_schedule exampleUrl exampleOptions 5 alwaysDown _ _
              ltac:(lia) (surjective_pairing _)) as (_ & Hs & _).
  rewrite Hs. vm_compute. reflexivity.
Defined.

(** ** Every accepted message is processed once *)

Section Once.

Variable cfg : Config.

Lemma handler_no_task (req : HttpRequest) (s : State) :
  tasks (snd (handler cfg req s)) = [].
Proof.
  unfold handler.
  destruct (String.eqb (req_method req) "POST");
    [|destruct (String.eqb (req_method req) "GET"); reflexivity].
  destruct (req_json req) as [data|e]; [|reflexivity].
  destruct (looseEqBot cfg (from_uid data)); [reflexivity|].
  destruct (inGroup (target data) && negb (mentionedAtGroup cfg data));
    [reflexivity|].
  cbn [processingPromise]. destruct (processingPromise s); [reflexivity|].
  unfold processQueueParallel. cbn [messageQueue].
  destruct (messageQueue s ++ [data]); reflexivity.
Qed.

(** A step moves messages from the queue into flight and from flight into
    the processed ones, and each task it runs makes one or two
    deliveries. *)
Lemma step_processes (s : State) (i : Input) (s' : State) (obs : list Obs) :
  owned s -> step cfg s i = (s', obs) ->
  flying s ++ removed obs = processed obs ++ flying s' /\
  Forall (fun mt => oneOrTwo (deliveries None (snd mt))) (tasks obs).
Proof.
  intros Ho Hstep. unfold flying, processed.
  destruct i as [req | k nets]; cbn [step] in Hstep.
  - pose proof (handler_no_task req s) as Ht. rewrite Hstep in Ht. cbn [snd] in Ht.
    rewrite Ht. cbn [map app]. split; [|constructor].
    apply handler_cases in Hstep.
    destruct Hstep
      as [(-> & _ & Hb & _)
         | (data & _ & _ & _ & _ & [(p & _ & -> & ->) | (Hflag & _ & _ & Hl & ->)])].
    + unfold removed. rewrite Hb. cbn. now rewrite app_nil_r.
    + cbn. now rewrite app_nil_r.
    + unfold owned in Ho. rewrite Hflag in Ho. destruct Ho as [_ Hl0].
      rewrite Hl, Hl0. cbn. now rewrite !app_nil_r.
  - apply settle_cases in Hstep.
    destruct Hstep as [(_ & -> & ->) | (lp & o & Hk & -> & Hp)].
    { cbn. rewrite app_nil_r. split; [reflexivity | constructor]. }
    destruct (runBatch_obs cfg (batch lp) nets 0) as (Ht & _ & Hb & _).
    pose proof (runBatch_deliveries cfg (batch lp) nets 0) as Hd.
    unfold owned in Ho. destruct (processingPromise s) as [p|].
    2:{ destruct Ho as [_ Hl0]. rewrite Hl0 in Hk. destruct k; discriminate. }
    destruct Ho as (lp0 & Hl0 & Hmc). rewrite Hl0 in Hk.
    apply nth_error_singleton in Hk. destruct Hk as [-> ->].
    apply processQueueParallel_run in Hp.
    cbn [messageQueue processingPromise loops] in Hp. rewrite Hl0 in Hp.
    rewrite removed_app, tasks_app, map_app, Ht, Hl0. unfold removed at 1.
    rewrite Hb. cbn [List.concat map app].
    destruct Hp as [(_ & -> & _ & _ & Hl') | (_ & -> & _ & _ & Hl')];
      rewrite Hl'; cbn; rewrite ?app_nil_r; (split; [reflexivity | exact Hd]).
Qed.

Lemma run_processes (inputs : list Input) :
  forall s s' obs,
    owned s -> run cfg s inputs = (s', obs) ->
    flying s ++ removed obs = processed obs ++ flying s' /\
    Forall (fun mt => oneOrTwo (deliveries None (snd mt))) (tasks obs).
Proof.
  induction inputs as [|i rest IH]; intros s s' obs Ho H.
  - injection H as <- <-. cbn. rewrite app_nil_r. split; [reflexivity | constructor].
  - rewrite run_cons in H. injection H as <- <-.
    destruct (step_processes s i _ _ Ho (surjective_pairing _)) as [H1 Hd1].
    pose proof (step_owned cfg s i _ _ Ho (surjective_pairing _)) as Ho1.
    destruct (IH _ _ _ Ho1 (surjective_pairing _)) as [H2 Hd2].
    split.
    + unfold processed in *. rewrite removed_app, tasks_app, map_app, app_assoc, H1.
      rewrite <- !app_assoc. now rewrite H2.
    + rewrite tasks_app. now apply Forall_app.
Qed.

(** X14 -- Every accepted message is processed exactly once, in the order
    of arrival.  In every run from the initial state, the messages whose
    task has run, followed by those in flight and those waiting, are the
    messages pushed, in order; so once the loop has returned, the tasks
    that ran are those of the pushed messages, one each. *)
Theorem processed_once_in_order (inputs : list Input) (s : State) (obs : list Obs) :
  run cfg initial inputs = (s, obs) ->
  pushes obs = processed obs ++ flying s ++ messageQueue s /\
  (processingPromise s = None -> processed obs = pushes obs).
Proof.
  intros Hrun.
  destruct (run_processes inputs _ _ _ initial_owned Hrun) as [Hp _].
  pose proof (run_conserves cfg inputs _ _ _ Hrun) as Hc.
  pose proof (run_owned cfg inputs _ _ _ initial_owned Hrun) as Ho.
  cbn in Hp, Hc. split.
  - rewrite Hc, Hp, <- app_assoc. reflexivity.
  - intros Hidle. unfold owned in Ho. rewrite Hidle in Ho. destruct Ho as [Hq Hl].
    rewrite Hc, Hp, Hq. unfold flying. rewrite Hl. cbn. now rewrite !app_nil_r.
Qed.

(** X15 -- Every task that runs makes one delivery, or two when the first
    one failed; so in every run from the initial state the number of
    deliveries lies between the number of processed messages and twice that
    number. *)
Theorem deliveries_per_message (inputs : list Input) (s : State) (obs : list Obs) :
  run cfg initial inputs = (s, obs) ->
  Forall (fun mt => oneOrTwo (deliveries None (snd mt))) (tasks obs) /\
  List.length (processed obs) <= deliveryCount obs
  <= 2 * List.length (processed obs).
Proof.
  intros Hrun.
  destruct (run_processes inputs _ _ _ initial_owned Hrun) as [_ Hd].
  split; [exact Hd|].
  unfold processed, deliveryCount. rewrite length_map.
  now apply deliveryCount_bounds.
Qed.

End Once.

Lemma processed_once_in_order_witness :
  processed (snd (run exampleCfg initial threeThenDrain)) = [m1; m2; m3].
Proof.
  destruct (processed_once_in_order exampleCfg threeThenDrain _ _
              (surjective_pairing _)) as [_ Hidle].
  rewrite Hidle; vm_compute; reflexivity.
Defined.

Lemma deliveries_per_message_witness :
  3 <= deliveryCount (snd (run exampleCfg initial threeThenDrain)) <= 6.
Proof.
  destruct (deliveries_per_message exampleCfg threeThenDrain _ _
              (surjective_pairing _)) as [_ Hb].
  vm_compute in Hb |- *. exact Hb.
Defined.

Lemma only_admissible_messages_are_processed_witness :
  Forall (admissible exampleCfg)
    (removed (snd (run exampleCfg initial
                     [Webhook (post (groupMessage 2 40 "@chatgpt me again"));
                      Webhook (post (groupMessage 7 41 "no mention"));
                      Webhook (post (groupMessage 7 42 "hi @2"));
                      Settle 0 (fun _ => healthy)]))) /\
  removed (snd (run exampleCfg initial
                  [Webhook (post (groupMessage 2 40 "@chatgpt me again"));
                   Webhook (post (groupMessage 7 41 "no mention"));
                   Webhook (post (groupMessage 7 42 "hi @2"));
                   Settle 0 (fun _ => healthy)]))
  = [groupMessage 7 42 "hi @2"].
Proof.
  split.
  - exact (proj1 (proj2 (only_admissible_messages_are_processed exampleCfg _ _ _
                           (surjective_pairing _)))).
  - vm_compute. reflexivity.
Defined.

Lemma accepted_message_placement_witness :
  batches (snd (handler exampleCfg (post m1) initial)) = [[m1]] /\
  messageQueue
    (fst (handler exampleCfg (post m2)
            (fst (run exampleCfg initial [Webhook (post m1)])))) = [m2].
Proof.
  split.
  - destruct (accepted_message_placement exampleCfg [] initial [] (post m1) m1
                eq_refl eq_refl eq_refl) as [Hidle _].
    + split; [reflexivity | discriminate].
    + exact (proj1 (Hidle eq_refl)).
  - destruct (accepted_message_placement exampleCfg [Webhook (post m1)] _ _
                (post m2) m2 (surjective_pairing _) eq_refl eq_refl) as [_ Hbusy].
    + split; [reflexivity | discriminate].
    + destruct Hbusy as (_ & Hq & _); [vm_compute; discriminate|].
      rewrite Hq. vm_compute. reflexivity.
Defined.

Lemma handler_answer_witness :
  fst (snd (handlerValue exampleCfg (fun _ => Normal false)
              {| hook_method := "POST"; hook_json := Normal noDetail |}))
  = 500%N /\
  fst (handlerValue exampleCfg (fun _ => Normal false)
         {| hook_method := "POST"; hook_json := Normal nullContent |})
  = Some nullContent /\
  responses (snd (handler exampleCfg
                    {| req_method := "DELETE"; req_json := Throw SyntaxError |}
                    busy))
  = [(405%N, lit "DELETE: bot resp")].
Proof.
  destruct (handler_answer exampleCfg (fun _ => Normal false)) as (Hany & Hmsg & _).
  split; [|split].
  - pose proof (Hany {| hook_method := "POST"; hook_json := Normal noDetail |})
      as H. cbn zeta in H. destruct H as (_ & H500 & _).
    exact (proj2 H500 (conj eq_refl eq_refl)).
  - pose proof (Hany {| hook_method := "POST"; hook_json := Normal nullContent |})
      as H. cbn zeta in H. destruct H as (_ & _ & _ & Hpush & _).
    refine (proj2 (Hpush nullContent) _).
    split; [reflexivity|]. split; [reflexivity|]. split; [reflexivity|].
    split; [reflexivity|]. intros H. vm_compute in H. discriminate H.
  - destruct (Hmsg {| req_method := "DELETE"; req_json := Throw SyntaxError |} busy)
      as [Hr _].
    rewrite Hr. reflexivity.
Defined.
